(** * Network / flow visualisation engine: a shallow embedding

    The development follows the JavaScript sources of the dashboard:

    - [static/js/alerts.js]    class [NetworkAnalysis] (graph view, world map view);
    - the cash-flow view       class [CashFlowAnalysis] ([updateNetworkView],
                               [fetchCountryCoordinates], [simpleHash], [getNodeColor]);
    - the dashboard view       class [Dashboard] ([updateEnhancedMap]).

    Conventions of the embedding.

    - A JavaScript number that stands for a risk score, an amount, a coordinate
      or a pixel position is an exact rational ([Q]).  Only field operations
      and comparisons are applied to such numbers, so every definition over
      them runs.  Where the source calls [Math.sqrt] the result is a real
      number ([R]) obtained from the rational argument through [Q2R], or
      [NaN] when the argument is negative: such a result is an [option R],
      [None] standing for [NaN].
    - A JavaScript string is a [string]: a sequence of 8-bit code units.
    - [Map] objects are [gmap]s, plain objects used as dictionaries are [gmap]s
      together with the keys inherited from [Object.prototype].
    - [fetch] and [Math.random] are effects: the environment fixes what the
      geocoding service answers to the n-th request and what the n-th call of
      [Math.random] returns, and the state records the requests issued and the
      random numbers consumed. *)

From Stdlib Require Import ZArith QArith Qround Reals Qreals Lra Lia Lqa.
From Stdlib Require Import String Ascii List Bool.
From stdpp Require Import base option list gmap strings pretty.

Import ListNotations.
Local Open Scope string_scope.
Local Open Scope Q_scope.

(** ** JavaScript numbers and comparisons *)

Module Js.

(** [a >= b], [a > b], [a <= b], [a < b] on numbers. *)
Definition ge (a b : Q) : bool := Qle_bool b a.
Definition gt (a b : Q) : bool := negb (Qle_bool a b).
Definition le (a b : Q) : bool := Qle_bool a b.
Definition lt (a b : Q) : bool := negb (Qle_bool b a).

(** [Math.max] and [Math.min] on two numbers. *)
Definition max (a b : Q) : Q := if Qle_bool a b then b else a.
Definition min (a b : Q) : Q := if Qle_bool a b then a else b.

(** [Math.sqrt(x)]: [NaN] for a negative [x]. *)
Definition sqrt (x : Q) : option R :=
  if Qle_bool 0 x then Some (R_sqrt.sqrt (Q2R x)) else None.

(** [Math.max(c, v)] and [Math.min(c, v)] for a number [c] and a [v] that
    may be [NaN]: both pass [NaN] on. *)
Definition maxNaN (c : R) (v : option R) : option R := option_map (Rmax c) v.
Definition minNaN (c : R) (v : option R) : option R := option_map (Rmin c) v.

End Js.

(** ** Risk tiers

  The three risk tiers, and the places of the sources that split a risk
  score into them. *)

Inductive Tier : Type := High | Medium | Low.

Module NetworkAnalysis_tiers.

(** [NetworkAnalysis.getNodeColor(riskScore)] (alerts.js). *)
Definition getNodeColor (riskScore : Q) : string :=
  if Js.ge riskScore 0.7 then "#dc3545"
  else if Js.ge riskScore 0.3 then "#ffc107"
  else "#28a745".

(** [NetworkAnalysis.getLinkColor(riskScore)] (alerts.js). *)
Definition getLinkColor (riskScore : Q) : string :=
  if Js.ge riskScore 0.7 then "#dc3545"
  else if Js.ge riskScore 0.3 then "#ffc107"
  else "#17a2b8".

(** [riskColor] of [addTransactionFlows] (alerts.js), the colour of a flow
    on the world map. *)
Definition riskColor (risk : Q) : string :=
  if Js.gt risk 0.7 then "#dc3545"
  else if Js.gt risk 0.4 then "#ffc107"
  else "#28a745".

(** The three filters of [applyHierarchicalLayout] (alerts.js). *)
Definition inHighRisk (avg_risk_score : Q) : bool :=
  Js.gt avg_risk_score 0.7.
Definition inMediumRisk (avg_risk_score : Q) : bool :=
  Js.gt avg_risk_score 0.4 && Js.le avg_risk_score 0.7.
Definition inLowRisk (avg_risk_score : Q) : bool :=
  Js.le avg_risk_score 0.4.

(** Reading the tier off each component: the colour constants are the
    ones the sources comment as high (red), medium (yellow) and low. *)
Definition nodeColorTier (r : Q) : Tier :=
  if String.eqb (getNodeColor r) "#dc3545" then High
  else if String.eqb (getNodeColor r) "#ffc107" then Medium
  else Low.

Definition linkColorTier (r : Q) : Tier :=
  if String.eqb (getLinkColor r) "#dc3545" then High
  else if String.eqb (getLinkColor r) "#ffc107" then Medium
  else Low.

Definition flowColorTier (r : Q) : Tier :=
  if String.eqb (riskColor r) "#dc3545" then High
  else if String.eqb (riskColor r) "#ffc107" then Medium
  else Low.

(** The band of the tiered layout a score falls into, when any. *)
Definition layoutTier (r : Q) : option Tier :=
  if inHighRisk r then Some High
  else if inMediumRisk r then Some Medium
  else if inLowRisk r then Some Low
  else None.

End NetworkAnalysis_tiers.

(** ** JavaScript values, strings and plain objects *)

Module JsValue.

(** The values a caller can hand to a function that expects a location
    code.  A number is an integer here; every number behaves alike under
    [typeof] and under the length test below. *)
Inductive t : Type :=
| Undefined
| Null
| Boolean (b : bool)
| Number (n : Z)
| Str (s : string)
| Object.

(** [typeof v === 'string'] *)
Definition isString (v : t) : bool :=
  match v with Str _ => true | _ => false end.

(** Truthiness: [!v] is [negb (truthy v)]. *)
Definition truthy (v : t) : bool :=
  match v with
  | Undefined | Null => false
  | Boolean b => b
  | Number n => negb (n =? 0)%Z
  | Str s => negb (String.eqb s "")
  | Object => true
  end.

(** White space of [String.prototype.trim] among the 8-bit code units:
    TAB, LF, VT, FF, CR, SPACE and NO-BREAK SPACE. *)
Definition isWhiteSpace (c : ascii) : bool :=
  let n := nat_of_ascii c in
  ((9 <=? n) && (n <=? 13) || (n =? 32) || (n =? 160))%nat.

Fixpoint trimStart (s : string) : string :=
  match s with
  | EmptyString => EmptyString
  | String c r => if isWhiteSpace c then trimStart r else s
  end.

(** [trimEnd s]: drop the white space at the end. *)
Fixpoint trimEnd (s : string) : string :=
  match s with
  | EmptyString => EmptyString
  | String c r =>
      match trimEnd r with
      | EmptyString => if isWhiteSpace c then EmptyString else String c EmptyString
      | r' => String c r'
      end
  end.

Definition trim (s : string) : string := trimEnd (trimStart s).

(** Decimal rendering of an integer, as a template literal renders it. *)
Definition ofZ (n : Z) : string := pretty n.

(** The text a template literal substitutes for [${v}]. *)
Definition toString (v : t) : string :=
  match v with
  | Undefined => "undefined"
  | Null => "null"
  | Boolean true => "true"
  | Boolean false => "false"
  | Number n => ofZ n
  | Str s => s
  | Object => "[object Object]"
  end.

(** The property names every plain object inherits from
    [Object.prototype]; reading one of them from [{}] yields a function
    (an object for [__proto__]), which is truthy. *)
Definition inheritedKeys : list string :=
  [ "constructor"; "__defineGetter__"; "__defineSetter__"; "hasOwnProperty";
    "__lookupGetter__"; "__lookupSetter__"; "isPrototypeOf";
    "propertyIsEnumerable"; "toString"; "valueOf"; "__proto__";
    "toLocaleString" ].

Definition inherited (k : string) : bool :=
  existsb (String.eqb k) inheritedKeys.

(** What [o[k]] reads from a plain object whose own properties are [o]. *)
Inductive Slot (V : Type) : Type :=
| Own (v : V)
| Inherited
| Missing.
Arguments Own {V} v.
Arguments Inherited {V}.
Arguments Missing {V}.

Definition get {V : Type} (o : gmap string V) (k : string) : Slot V :=
  match o !! k with
  | Some v => Own v
  | None => if inherited k then Inherited else Missing
  end.

End JsValue.

(** ** Effects: the geocoding service and [Math.random] *)

Module Effects.

(** A resolved location: [{lat, lng, name}]; the fallback coordinates of
    the cash-flow view carry no name. *)
Record Coord : Type := mkCoord {
  lat : Q;
  lng : Q;
  name : option string
}.

(** The body of a response, as far as the resolvers inspect it. *)
Inductive Payload : Type :=
| NotJson                      (* response.json() rejects *)
| NotAnArray                   (* an object without elements *)
| EmptyArray
| FirstElement (latlng : option (Q * Q))       (* data[0].latlng *)
               (name : option (option string)) (* data[0].name, then .common *).

(** What [await fetch(url)] does. *)
Inductive Response : Type :=
| TransportError               (* fetch rejects *)
| NotOk (status : Z)           (* response.ok is false *)
| Ok (body : Payload).

Record Env : Type := mkEnv {
  respond : nat -> string -> Response;  (* answer to the n-th request, by code *)
  random : nat -> Q                     (* n-th value of Math.random() *)
}.

Record Io : Type := mkIo {
  requests : list string;  (* the codes requested, oldest first *)
  draws : nat              (* how many random numbers were consumed *)
}.

Definition start : Io := {| requests := []; draws := 0 |}.

(** Computations that talk to the service and draw random numbers. *)
Definition M (A : Type) : Type := Io -> A * Io.

Definition ret {A : Type} (a : A) : M A := fun io => (a, io).

Definition bind {A B : Type} (m : M A) (k : A -> M B) : M B :=
  fun io => let (a, io') := m io in k a io'.

(** [await fetch(`https://restcountries.com/v3.1/alpha/${code}`)] *)
Definition fetch (env : Env) (code : string) : M Response :=
  fun io =>
    (respond env (length (requests io)) code,
     {| requests := requests io ++ [code]; draws := draws io |}).

(** [Math.random()] *)
Definition mathRandom (env : Env) : M Q :=
  fun io =>
    (random env (draws io),
     {| requests := requests io; draws := S (draws io) |}).

(** How often a code was requested. *)
Definition lookups (code : string) (io : Io) : nat :=
  length (List.filter (fun c => String.eqb c code) (requests io)).

(** A sample service: it knows the United States under both of its codes
    and Germany, and answers 404 to anything else; the random numbers
    cycle through 0, 0.1, ..., 0.9. *)
Definition sampleEnv : Env :=
  {| respond := fun _ code =>
       if String.eqb code "US" || String.eqb code "USA" then
         Ok (FirstElement (Some (38, -97)) (Some (Some "United States")))
       else if String.eqb code "DE" then
         Ok (FirstElement (Some (51, 9)) (Some (Some "Germany")))
       else NotOk 404;
     random := fun n => inject_Z (Z.of_nat (n mod 10)) / 10 |}.

End Effects.

Notation "'let*' x ':=' m 'in' k" := (Effects.bind m (fun x => k))
  (at level 10, x pattern, m at level 100, k at level 200).

(** ** What is drawn on a map *)

Module Leaflet.

Inductive Shape : Type :=
| Polyline (latlngs : list (Q * Q))        (* L.polyline *)
| Circle (center : Q * Q) (radius : Q)     (* L.circle, radius in metres *).

Record Layer : Type := mkLayer {
  shape : Shape;
  color : string;
  dashArray : option string
}.

Definition samePoint (p q : Q * Q) : bool :=
  Qeq_bool (fst p) (fst q) && Qeq_bool (snd p) (snd q).

(** A path of no extent: a polyline all of whose points coincide, or a
    circle without radius. *)
Definition zeroLength (s : Shape) : bool :=
  match s with
  | Polyline [] => true
  | Polyline (p :: rest) => forallb (samePoint p) rest
  | Circle _ radius => Qle_bool radius 0
  end.

(** A closed loop around a point. *)
Definition isLoopAt (p : Q * Q) (s : Shape) : bool :=
  match s with
  | Circle c radius => samePoint p c && negb (Qle_bool radius 0)
  | Polyline _ => false
  end.

(** [p] lies on the segment from [s] to [e]. *)
Definition onSegment (s e p : Q * Q) : Prop :=
  exists k : Q,
    0 <= k <= 1 /\
    fst p == fst s + (fst e - fst s) * k /\
    snd p == snd s + (snd e - snd s) * k.

End Leaflet.

(** ** Marker dots and their animation loops *)

Module Dots.

(** The closure of one [animateDots]: the key of its flow, the path, and
    the offset of each of its dots. *)
Record DotLoop : Type := mkLoop {
  flowId : string;
  path : list (Q * Q);
  offsets : list Q
}.

(** [p.offset += 0.005; if (p.offset > 1) p.offset = 0] *)
Definition advance (offset : Q) : Q :=
  let offset' := offset + 0.005 in
  if Js.gt offset' 1 then 0 else offset'.

(** The offsets of the [count = 5] dots: [i / count] for [i = 0..4]. *)
Definition initialOffsets : list Q :=
  map (fun i => inject_Z (Z.of_nat i) / 5) (seq 0 5).

End Dots.

(** ** The coordinate resolvers *)

Module Geocoding.
Import Effects.

(** The test and the object literal both resolvers apply to the parsed body:
    [data.length > 0 && data[0].latlng], then
    [{lat: data[0].latlng[0], lng: data[0].latlng[1], name: data[0].name.common}].
    Reading [.common] of a missing [name] throws inside the [try]; the
    [catch] logs and the function returns [null]. *)
Definition readCountry (body : Payload) : option Coord :=
  match body with
  | FirstElement (Some (la, lo)) (Some n) =>
      Some {| lat := la; lng := lo; name := n |}
  | _ => None
  end.

(** What either resolver returns once the response is there. *)
Definition readResponse (r : Response) : option Coord :=
  match r with
  | TransportError => None
  | NotOk _ => None
  | Ok body => readCountry body
  end.

(** A lookup failed: non-success response, malformed payload or transport
    error. *)
Definition failed (r : Response) : bool :=
  match readResponse r with Some _ => false | None => true end.

End Geocoding.

Module NetworkAnalysis.
Import Effects.

(** The guard of [fetchCountryCoordinates] (alerts.js):
    [!code || typeof code !== 'string' || code.trim().length !== 2]. *)
Definition invalidCode (code : JsValue.t) : bool :=
  match code with
  | JsValue.Str s =>
      negb (JsValue.truthy code)
      || negb (String.length (JsValue.trim s) =? 2)%nat
  | _ => true
  end.

(** [async fetchCountryCoordinates(code)] (alerts.js). *)
Definition fetchCountryCoordinates (env : Env) (code : JsValue.t)
  : M (option Coord) :=
  if invalidCode code then ret None
  else
    let* response := fetch env (JsValue.toString code) in
    ret (Geocoding.readResponse response).

Record Node : Type := mkNode {
  id : string;
  node_from_bank : JsValue.t;
  node_to_bank : JsValue.t;
  bank_code : JsValue.t;
  country_code : JsValue.t;
  avg_risk_score : option Q;     (* [None]: the node carries no score *)
  fx : option Q;
  fy : option Q
}.

Record Link : Type := mkLink {
  source : string;       (* the id, whether the link holds it or a node *)
  target : string;
  amount : Q;
  risk_score : Q;
  from_bank : JsValue.t;
  to_bank : JsValue.t
}.

(** [v && typeof v === 'string' && v.length === 2] *)
Definition isBankCode (v : JsValue.t) : bool :=
  match v with
  | JsValue.Str s => JsValue.truthy v && (String.length s =? 2)%nat
  | _ => false
  end.

(** [a || b] *)
Definition or (a b : JsValue.t) : JsValue.t :=
  if JsValue.truthy a then a else b.

(** The first loop of [generateAccountLocations]: the bank code of each
    node as the links give it, first one wins. *)
Definition noteBankCode (nodeBankCodes : gmap string string)
  (nodeId : string) (code : JsValue.t) : gmap string string :=
  match code with
  | JsValue.Str s =>
      if isBankCode code then
        match JsValue.get nodeBankCodes nodeId with
        | JsValue.Missing => <[nodeId := s]> nodeBankCodes
        | _ => nodeBankCodes
        end
      else nodeBankCodes
  | _ => nodeBankCodes
  end.

Definition collectBankCodes (links : list Link) : gmap string string :=
  fold_left
    (fun acc link =>
       noteBankCode (noteBankCode acc (source link) (from_bank link))
                    (target link) (to_bank link))
    links ∅.

(** [nodeBankCodes[node.id]] as a value. *)
Definition bankCodeOf (nodeBankCodes : gmap string string) (nodeId : string)
  : JsValue.t :=
  match JsValue.get nodeBankCodes nodeId with
  | JsValue.Own s => JsValue.Str s
  | JsValue.Inherited => JsValue.Object
  | JsValue.Missing => JsValue.Undefined
  end.

(** [node.from_bank || node.to_bank || node.bank_code || node.country_code
    || nodeBankCodes[node.id]]: the bank code of a node as the second loop
    of [generateAccountLocations] reads it. *)
Definition nodeBankCode (nodeBankCodes : gmap string string) (node : Node)
  : JsValue.t :=
  or (node_from_bank node)
    (or (node_to_bank node)
      (or (bank_code node)
        (or (country_code node) (bankCodeOf nodeBankCodes (id node))))).

(** One round of the second loop of [generateAccountLocations]. *)
Definition locateNode (env : Env) (nodeBankCodes : gmap string string)
  (node : Node) : M (option Coord) :=
  let bankCode :=
    or (node_from_bank node)
      (or (node_to_bank node)
        (or (bank_code node)
          (or (country_code node) (bankCodeOf nodeBankCodes (id node))))) in
  let* location :=
    if isBankCode bankCode then fetchCountryCoordinates env bankCode
    else ret None in
  match location with
  | None => ret None
  | Some location =>
      let* r1 := mathRandom env in
      let latOffset := (r1 - 0.5) * 0.1 in
      let* r2 := mathRandom env in
      let lngOffset := (r2 - 0.5) * 0.1 in
      ret (Some {| name := name location;
                   lat := lat location + latOffset;
                   lng := lng location + lngOffset |})
  end.

Fixpoint locateNodes (env : Env) (nodeBankCodes : gmap string string)
  (nodes : list Node) : M (list (option Coord)) :=
  match nodes with
  | [] => ret []
  | node :: rest =>
      let* location := locateNode env nodeBankCodes node in
      let* locations := locateNodes env nodeBankCodes rest in
      ret (location :: locations)
  end.

(** [async generateAccountLocations(nodes)] (alerts.js); [links] is
    [this.links]. *)
Definition generateAccountLocations (env : Env) (links : list Link)
  (nodes : list Node) : M (list (option Coord)) :=
  locateNodes env (collectBankCodes links) nodes.

(** The codes one call of [generateAccountLocations] requests: the bank
    code of every node whose code is a string of two characters that passes
    the guard of the resolver, in the order of the nodes. *)
Definition requestedCodes (links : list Link) (nodes : list Node)
  : list string :=
  omap
    (fun node =>
       let bankCode := nodeBankCode (collectBankCodes links) node in
       if isBankCode bankCode && negb (invalidCode bankCode)
       then Some (JsValue.toString bankCode)
       else None)
    nodes.

(** *** The world map view *)

(** [interpolatePath] of [addTransactionFlows] (alerts.js).  [None] stands
    for [undefined] and for the [TypeError] of reading an index of it. *)
Definition interpolatePath (latlngs : list (Q * Q)) (t : Q) : option (Q * Q) :=
  if Js.le t 0 then latlngs !! 0%nat
  else if Js.ge t 1 then latlngs !! (length latlngs - 1)%nat
  else
    match latlngs !! 0%nat, latlngs !! 1%nat with
    | Some start, Some end_ =>
        Some (fst start + (fst end_ - fst start) * t,
              snd start + (snd end_ - snd start) * t)
    | _, _ => None
    end.

(** [if (code && code.length === 2)], then the resolver; the location is
    copied as it comes, without offset. *)
Definition bankLocation (env : Env) (code : JsValue.t) : M (option Coord) :=
  if isBankCode code then
    let* location := fetchCountryCoordinates env code in
    match location with
    | Some location =>
        ret (Some {| lat := lat location; lng := lng location;
                     name := name location |})
    | None => ret None
    end
  else ret None.

(** An end of a flow: a location, a truthy value that is no location (an
    inherited property of [locationMap]), or nothing. *)
Inductive Endpoint : Type :=
| Located (c : Coord)
| NotALocation
| NoEndpoint.

(** [if (!src && locationMap[id]) src = locationMap[id]] *)
Definition endpoint (fromBank : option Coord) (locationMap : gmap string Coord)
  (nodeId : string) : Endpoint :=
  match fromBank with
  | Some c => Located c
  | None =>
      match JsValue.get locationMap nodeId with
      | JsValue.Own c => Located c
      | JsValue.Inherited => NotALocation
      | JsValue.Missing => NoEndpoint
      end
  end.

(** [locationMap]: the nodes that have a location, by id; a later node
    overwrites an earlier one of the same id. *)
Fixpoint fillLocationMap (nodes : list Node) (locations : list (option Coord))
  (locationMap : gmap string Coord) : gmap string Coord :=
  match nodes, locations with
  | node :: nodes', Some l :: locations' =>
      fillLocationMap nodes' locations' (<[id node := l]> locationMap)
  | _ :: nodes', None :: locations' =>
      fillLocationMap nodes' locations' locationMap
  | _, _ => locationMap
  end.

Definition buildLocationMap (nodes : list Node)
  (locations : list (option Coord)) : gmap string Coord :=
  fillLocationMap nodes locations ∅.

(** What one round of the loop over the links does: skip the flow, draw it,
    or throw out of [L.polyline] on coordinates that are no numbers. *)
Inductive Round : Type :=
| Skipped
| Drawn (line : Leaflet.Layer) (loop : Dots.DotLoop)
| Thrown.

(** [const flowId = `flow_${sourceId}_${targetId}`]: the key the animation of
    a link is registered under. *)
Definition flowKey (link : Link) : string :=
  "flow_" ++ source link ++ "_" ++ target link.

Definition drawFlow (src tgt : Endpoint) (link : Link) : Round :=
  match src, tgt with
  | NoEndpoint, _ | _, NoEndpoint => Skipped
  | Located src, Located tgt =>
      let latlngs := [ (lat src, lng src); (lat tgt, lng tgt) ] in
      Drawn
        {| Leaflet.shape := Leaflet.Polyline latlngs;
           Leaflet.color := NetworkAnalysis_tiers.riskColor (risk_score link);
           Leaflet.dashArray := Some "5, 10" |}
        {| Dots.flowId := flowKey link;
           Dots.path := latlngs;
           Dots.offsets := Dots.initialOffsets |}
  | _, _ => Thrown
  end.

(** The part of the object [addTransactionFlows] and the animation loops
    read and write. *)
Inductive View : Type := D3 | MapView.

Record MapState : Type := mkMapState {
  currentView : View;
  worldMap : bool;                     (* this.worldMap is not null *)
  mapLines : list Leaflet.Layer;
  activeAnimations : gset string;      (* the keys of this.activeAnimations *)
  started : list Dots.DotLoop          (* loops handed to setTimeout *)
}.

Definition flowRound (env : Env) (locationMap : gmap string Coord)
  (link : Link) : M Round :=
  let* src := bankLocation env (from_bank link) in
  let* tgt := bankLocation env (to_bank link) in
  ret (drawFlow (endpoint src locationMap (source link))
                (endpoint tgt locationMap (target link)) link).

(** The loop over [this.links]; it ends at the first round that throws.
    A flow that is drawn draws one random number, the delay after which
    its animation starts. *)
Fixpoint flowRounds (env : Env) (locationMap : gmap string Coord)
  (links : list Link) (this : MapState) : M MapState :=
  match links with
  | [] => ret this
  | link :: rest =>
      let* round := flowRound env locationMap link in
      match round with
      | Skipped => flowRounds env locationMap rest this
      | Thrown => ret this
      | Drawn line loop =>
          (* the delay of [setTimeout(..., Math.random() * 1000)] *)
          let* delay := mathRandom env in
          flowRounds env locationMap rest
            {| currentView := currentView this;
               worldMap := worldMap this;
               mapLines := mapLines this ++ [line];
               activeAnimations := {[ Dots.flowId loop ]} ∪ activeAnimations this;
               started := started this ++ [loop] |}
      end
  end.

(** [async addTransactionFlows()] (alerts.js). *)
Definition addTransactionFlows (env : Env) (nodes : list Node)
  (links : list Link) (this : MapState) : M MapState :=
  match links with
  | [] => ret this
  | _ =>
      let* locations := generateAccountLocations env links nodes in
      flowRounds env (buildLocationMap nodes locations) links this
  end.

(** [clearMapMarkers()] (alerts.js): the animations are unregistered, the
    lines removed. *)
Definition clearMapMarkers (this : MapState) : MapState :=
  {| currentView := currentView this;
     worldMap := worldMap this;
     mapLines := [];
     activeAnimations := ∅;
     started := started this |}.

(** One call of [animateDots] (alerts.js): the loop as it is afterwards, and
    whether [requestAnimationFrame(animateDots)] was reached. *)
Definition animateDots (this : MapState) (loop : Dots.DotLoop)
  : Dots.DotLoop * bool :=
  match currentView this with
  | MapView =>
      if worldMap this && bool_decide (Dots.flowId loop ∈ activeAnimations this)
      then
        ({| Dots.flowId := Dots.flowId loop;
            Dots.path := Dots.path loop;
            Dots.offsets := map Dots.advance (Dots.offsets loop) |}, true)
      else (loop, false)
  | D3 => (loop, false)
  end.

(** Where [setLatLng] puts the dots of a loop. *)
Definition dotPositions (loop : Dots.DotLoop) : list (option (Q * Q)) :=
  map (interpolatePath (Dots.path loop)) (Dots.offsets loop).

(** One animation frame: every callback registered for it runs once; those
    that reach [requestAnimationFrame] are registered for the next one. *)
Fixpoint frame (this : MapState) (pending : list Dots.DotLoop)
  : list Dots.DotLoop :=
  match pending with
  | [] => []
  | loop :: rest =>
      let (loop', again) := animateDots this loop in
      if again then loop' :: frame this rest else frame this rest
  end.

(** *** The graph view: tiered layout and stroke widths *)

(** [node.fx = x; node.fy = y] *)
Definition setPosition (x y : Q) (node : Node) : Node :=
  {| id := id node;
     node_from_bank := node_from_bank node;
     node_to_bank := node_to_bank node;
     bank_code := bank_code node;
     country_code := country_code node;
     avg_risk_score := avg_risk_score node;
     fx := Some x;
     fy := Some y |}.

(** What a filter [n => p(n.avg_risk_score)] answers, [p] being made of
    comparisons of the score with constants: every comparison with
    [undefined] is false, so a node without score does not pass. *)
Definition passes (p : Q -> bool) (node : Node) : bool :=
  match avg_risk_score node with
  | Some score => p score
  | None => false
  end.

(** [this.nodes.filter(n => p(n.avg_risk_score))]: the nodes of
    [this.nodes] that pass, as references (positions in [this.nodes]), in
    order. *)
Definition filterNodes (p : Q -> bool) (nodes : list Node) : list nat :=
  List.filter
    (fun i => match nodes !! i with
              | Some node => passes p node
              | None => false
              end)
    (seq 0 (length nodes)).

(** The three levels of [applyHierarchicalLayout]. *)
Definition levels (nodes : list Node) : list (list nat) :=
  [ filterNodes NetworkAnalysis_tiers.inHighRisk nodes;
    filterNodes NetworkAnalysis_tiers.inMediumRisk nodes;
    filterNodes NetworkAnalysis_tiers.inLowRisk nodes ].

(** [level.forEach((node, nodeIndex) => ...)] from [nodeIndex] on. *)
Fixpoint placeLevel (xStep y : Q) (nodeIndex : nat) (level : list nat)
  (nodes : list Node) : list Node :=
  match level with
  | [] => nodes
  | i :: rest =>
      placeLevel xStep y (S nodeIndex) rest
        (alter (setPosition (xStep * inject_Z (Z.of_nat (nodeIndex + 1))) y)
               i nodes)
  end.

(** [levels.forEach((level, levelIndex) => ...)] from [levelIndex] on. *)
Fixpoint placeLevels (width levelHeight : Q) (levelIndex : nat)
  (levels : list (list nat)) (nodes : list Node) : list Node :=
  match levels with
  | [] => nodes
  | level :: rest =>
      let y := levelHeight * inject_Z (Z.of_nat (levelIndex + 1)) in
      let xStep := width / inject_Z (Z.of_nat (length level + 1)) in
      placeLevels width levelHeight (S levelIndex) rest
        (placeLevel xStep y 0 level nodes)
  end.

(** [applyHierarchicalLayout()] (alerts.js) on [this.nodes]. *)
Definition applyHierarchicalLayout (width height : Q) (nodes : list Node)
  : list Node :=
  placeLevels width (height / 4) 0 (levels nodes) nodes.

(** [stroke-width] of [drawLinks] for a link at rest (as it enters, on
    every update and after [mouseout]):
    [Math.max(2, Math.min(8, d.amount / 500000))]. *)
Definition drawLinksWidth (amount : Q) : Q :=
  Js.max 2 (Js.min 8 (amount / 500000)).

(** [stroke-width] of [drawLinks] for the link under the pointer
    ([mouseover]): [Math.max(4, Math.min(10, d.amount / 400000))]. *)
Definition drawLinksHoverWidth (amount : Q) : Q :=
  Js.max 4 (Js.min 10 (amount / 400000)).

(** [weight] of the polyline of [addTransactionFlows]:
    [Math.max(3, Math.sqrt(link.amount / 100000))]. *)
Definition flowWeight (amount : Q) : option R :=
  Js.maxNaN 3 (Js.sqrt (amount / 100000)).

(** [getEdgeWidth(link, metric)] (alerts.js). *)
Definition getEdgeWidth (link : Link) (metric : string) : option R :=
  if String.eqb metric "transaction_count" then
    Some (Rmax 1 (Rmin 8 (1 * 2)))
  else if String.eqb metric "risk_score" then
    Some (Rmax 1 (Rmin 8 (Q2R (risk_score link) * 10)))
  else
    Js.maxNaN 1 (Js.minNaN 8 (Js.sqrt (amount link / 50000))).

(** *** Node sizes, the tick of the simulation, pins and markers *)

(** The counters of a node; each may be missing. *)
Record NodeStats : Type := mkStats {
  transaction_count : option Q;
  total_sent : option Q;
  total_received : option Q;
  stats_risk_score : option Q        (* avg_risk_score *)
}.

(** [v || d] for a number [v] that may be missing. *)
Definition orNumber (v : option Q) (d : Q) : Q :=
  match v with
  | Some x => if Qeq_bool x 0 then d else x
  | None => d
  end.

(** The [default] branch of [getNodeRadius(node, metric)]. *)
Definition countRadius (node : NodeStats) : Q :=
  Js.max 8 (Js.min 25 (orNumber (transaction_count node) 1 * 3)).

(** [getNodeRadius(node, metric)], the later of the two methods of that
    name, which is the one the class keeps; [metric] is [None] where the
    method is called with the node alone. *)
Definition getNodeRadius (node : NodeStats) (metric : option string)
  : option R :=
  match metric with
  | Some m =>
      if String.eqb m "total_amount" then
        Js.maxNaN 8 (Js.minNaN 25
          (Js.sqrt ((orNumber (total_sent node) 0
                     + orNumber (total_received node) 0) / 10000)))
      else if String.eqb m "risk_score" then
        Some (Rmax 8 (Rmin 25 (Q2R (orNumber (stats_risk_score node) 0 * 30))))
      else Some (Q2R (countRadius node))
  | None => Some (Q2R (countRadius node))
  end.



(** The [x1], [y1], [x2], [y2] callbacks of the tick: [bound] is the width
    or the height, [v] the coordinate of the end, when there is one. *)
Definition tickLinkEnd (bound : Q) (v : option Q) : Q :=
  match v with
  | None => 0
  | Some x => Js.max 0 (Js.min bound x)
  end.

(** [node.fx = null; node.fy = null] *)
Definition unpin (node : Node) : Node :=
  {| id := id node;
     node_from_bank := node_from_bank node;
     node_to_bank := node_to_bank node;
     bank_code := bank_code node;
     country_code := country_code node;
     avg_risk_score := avg_risk_score node;
     fx := None;
     fy := None |}.

(** [restartSimulation()] on [this.nodes], when there is a simulation. *)
Definition restartSimulation (nodes : list Node) : list Node :=
  unpin <$> nodes.

(** [dragended(event, d)]: the node stays where it was dropped. *)
Definition dragended (eventX eventY : Q) (d : Node) : Node :=
  setPosition eventX eventY d.

(** [locations.filter(loc => loc !== null).length] *)
Definition validLocations (locations : list (option Coord)) : nat :=
  length (List.filter
            (fun loc => match loc with Some _ => true | None => false end)
            locations).


(** [markerColor] of [addAccountMarkers]. *)
Definition markerColor (avg_risk_score : Q) : string :=
  if Js.gt avg_risk_score 0.7 then "#dc3545"
  else if Js.gt avg_risk_score 0.4 then "#ffc107"
  else "#28a745".


(** [radius] of a marker. *)
Definition markerRadius (transaction_count : option Q) : Q :=
  Js.max 8 (Js.min 20 (orNumber transaction_count 1 * 3)).



(** [toggleView(viewType)], as far as the animation loops see it. *)
Definition toggleView (viewType : View) (this : MapState) : MapState :=
  {| currentView := viewType;
     worldMap := worldMap this;
     mapLines := mapLines this;
     activeAnimations := activeAnimations this;
     started := started this |}.

End NetworkAnalysis.

Module CashFlowAnalysis.
Import Effects.

(** [async fetchCountryCoordinates(countrycode)] of the cash-flow view: the
    request is issued for whatever it is given. *)
Definition fetchCountryCoordinates (env : Env) (countrycode : JsValue.t)
  : M (option Coord) :=
  let* response := fetch env (JsValue.toString countrycode) in
  ret (Geocoding.readResponse response).

Record Flow : Type := mkFlow {
  from_bank : string;
  to_bank : string;
  amount : Q;
  avg_risk : Q
}.

(** [getLinkColor(risk)] and [getFlowDashArray(risk)] of the cash-flow view. *)
Definition getLinkColor (risk : Q) : string :=
  if Js.ge risk 0.7 then "#dc3545"
  else if Js.ge risk 0.4 then "#ffc107"
  else "#28a745".

Definition getFlowDashArray (risk : Q) : option string :=
  if Js.ge risk 0.7 then Some "10, 5"
  else if Js.ge risk 0.4 then Some "5, 5"
  else None.

(** The first pass of [updateNetworkView] for one bank: [bankCoordinates] is
    the object of this call, [cache] is [this.bankCoordinatesCache] (empty
    when it was not created yet).  The resolver never throws, so the
    [catch] around it, which does what the [else] branch does, is not
    reached. *)
Definition resolveBank (env : Env) (bank : string)
  (st : gmap string Coord * gmap string Coord)
  : M (gmap string Coord * gmap string Coord) :=
  let '(bankCoordinates, cache) := st in
  match JsValue.get bankCoordinates bank with
  | JsValue.Missing =>
      match cache !! bank with
      | Some coords =>
          let* r1 := mathRandom env in
          let* r2 := mathRandom env in
          ret (<[bank := {| lat := lat coords + (r1 - 0.5) * 1;
                            lng := lng coords + (r2 - 0.5) * 1;
                            name := None |}]> bankCoordinates,
               cache)
      | None =>
          let* coords := fetchCountryCoordinates env (JsValue.Str bank) in
          match coords with
          | Some coords =>
              let* r1 := mathRandom env in
              let* r2 := mathRandom env in
              ret (<[bank := {| lat := lat coords + (r1 - 0.5) * 0.5;
                                lng := lng coords + (r2 - 0.5) * 0.5;
                                name := None |}]> bankCoordinates,
                   <[bank := coords]> cache)
          | None =>
              let* r1 := mathRandom env in
              let* r2 := mathRandom env in
              let fallbackCoords :=
                {| lat := r1 * 50 - 25; lng := r2 * 180 - 90; name := None |} in
              ret (<[bank := fallbackCoords]> bankCoordinates,
                   <[bank := fallbackCoords]> cache)
          end
      end
  | _ => ret st
  end.

Fixpoint resolveBanks (env : Env) (topFlows : list Flow)
  (st : gmap string Coord * gmap string Coord)
  : M (gmap string Coord * gmap string Coord) :=
  match topFlows with
  | [] => ret st
  | flow :: rest =>
      let* st1 := resolveBank env (from_bank flow) st in
      let* st2 := resolveBank env (to_bank flow) st1 in
      resolveBanks env rest st2
  end.

(** [Math.min(Math.max(x, lo), hi)] *)
Definition clamp (x lo hi : Q) : Q := Js.min (Js.max x lo) hi.

(** The line of one flow, from the coordinates of its two banks. *)
Definition flowLine (fromCoords toCoords : Coord) (flow : Flow)
  : Leaflet.Layer :=
  if String.eqb (from_bank flow) (to_bank flow) then
    let radius := clamp (amount flow / 100000) 5 15 in
    {| Leaflet.shape :=
         Leaflet.Circle (lat fromCoords, lng fromCoords) (radius * 1000);
       Leaflet.color := getLinkColor (avg_risk flow);
       Leaflet.dashArray := getFlowDashArray (avg_risk flow) |}
  else
    {| Leaflet.shape :=
         Leaflet.Polyline [ (lat fromCoords, lng fromCoords);
                            (lat toCoords, lng toCoords) ];
       Leaflet.color := getLinkColor (avg_risk flow);
       Leaflet.dashArray := getFlowDashArray (avg_risk flow) |}.

(** [weight] of either line. *)
Definition flowLineWeight (flow : Flow) : Q :=
  clamp (amount flow / 100000) 2 8.

(** The lines of all flows.  [None]: the coordinates of a bank are an
    inherited property of [bankCoordinates], no numbers; the marker of
    that bank throws before any line is drawn. *)
Fixpoint flowLinesOf (bankCoordinates : gmap string Coord)
  (topFlows : list Flow) : option (list Leaflet.Layer) :=
  match topFlows with
  | [] => Some []
  | flow :: rest =>
      match bankCoordinates !! from_bank flow,
            bankCoordinates !! to_bank flow,
            flowLinesOf bankCoordinates rest with
      | Some fromCoords, Some toCoords, Some lines =>
          Some (flowLine fromCoords toCoords flow :: lines)
      | _, _, _ => None
      end
  end.

Record State : Type := mkState {
  networkMap : bool;                           (* this.networkMap is not null *)
  bankCoordinatesCache : gmap string Coord;
  flowLines : list Leaflet.Layer
}.

(** [async updateNetworkView(topFlows)]. *)
Definition updateNetworkView (env : Env) (topFlows : list Flow)
  (this : State) : M State :=
  if negb (networkMap this) || (length topFlows =? 0)%nat then ret this
  else
    let* st := resolveBanks env topFlows (∅, bankCoordinatesCache this) in
    let '(bankCoordinates, cache) := st in
    ret {| networkMap := networkMap this;
           bankCoordinatesCache := cache;
           flowLines := default [] (flowLinesOf bankCoordinates topFlows) |}.

(** A session in which every update has finished before the next one
    starts: the view is updated again and again. *)
Fixpoint session (env : Env) (updates : list (list Flow)) (this : State)
  : M State :=
  match updates with
  | [] => ret this
  | topFlows :: rest =>
      let* this' := updateNetworkView env topFlows this in
      session env rest this'
  end.

(** *** Updates that overlap

    [updateNetworkView] is an [async] method.  It runs without interruption
    up to [await this.fetchCountryCoordinates(bank)], where the request has
    gone out, and goes on once the answer is there; whatever else the page
    does in between sees the cache as it is then.  [loadCurrencyOverview]
    awaits [updateNetworkView], but [init] and [applyFilters] start
    [loadCurrencyOverview] without awaiting it, so a second update can run
    between the [has] of the first that misses and the [set] that follows
    the answer. *)

(** The banks the first pass goes through, in its order. *)
Definition banksOf (topFlows : list Flow) : list string :=
  flat_map (fun flow => [from_bank flow; to_bank flow]) topFlows.

(** A call of [updateNetworkView] that awaits a lookup. *)
Record Call : Type := mkCall {
  callFlows : list Flow;                 (* [topFlows] of the call *)
  callCoordinates : gmap string Coord;   (* [bankCoordinates] of the call *)
  awaited : string;                      (* the bank whose lookup it awaits *)
  answer : option Coord;                 (* what the resolver returns to it *)
  banksToCome : list string              (* the rest of its first pass *)
}.

(** The first pass from [banks] on, up to its next [await] ([inr]: the
    call as it waits, the request issued) or to its end ([inl]). *)
Fixpoint firstPass (env : Env) (topFlows : list Flow) (banks : list string)
  (bankCoordinates cache : gmap string Coord)
  : M (gmap string Coord + Call) :=
  match banks with
  | [] => ret (inl bankCoordinates)
  | bank :: rest =>
      match JsValue.get bankCoordinates bank with
      | JsValue.Missing =>
          match cache !! bank with
          | Some coords =>
              let* r1 := mathRandom env in
              let* r2 := mathRandom env in
              firstPass env topFlows rest
                (<[bank := {| lat := lat coords + (r1 - 0.5) * 1;
                              lng := lng coords + (r2 - 0.5) * 1;
                              name := None |}]> bankCoordinates)
                cache
          | None =>
              let* coords := fetchCountryCoordinates env (JsValue.Str bank) in
              ret (inr {| callFlows := topFlows;
                          callCoordinates := bankCoordinates;
                          awaited := bank;
                          answer := coords;
                          banksToCome := rest |})
          end
      | _ => firstPass env topFlows rest bankCoordinates cache
      end
  end.

(** What follows [const coords = await this.fetchCountryCoordinates(bank)]
    once the answer is there; [cache] is the cache as it is by then. *)
Definition settle (env : Env) (bank : string) (coords : option Coord)
  (st : gmap string Coord * gmap string Coord)
  : M (gmap string Coord * gmap string Coord) :=
  let '(bankCoordinates, cache) := st in
  match coords with
  | Some coords =>
      let* r1 := mathRandom env in
      let* r2 := mathRandom env in
      ret (<[bank := {| lat := lat coords + (r1 - 0.5) * 0.5;
                        lng := lng coords + (r2 - 0.5) * 0.5;
                        name := None |}]> bankCoordinates,
           <[bank := coords]> cache)
  | None =>
      let* r1 := mathRandom env in
      let* r2 := mathRandom env in
      let fallbackCoords :=
        {| lat := r1 * 50 - 25; lng := r2 * 180 - 90; name := None |} in
      ret (<[bank := fallbackCoords]> bankCoordinates,
           <[bank := fallbackCoords]> cache)
  end.

(** The first pass over [banks] when nothing happens between a request and
    what follows its answer. *)
Fixpoint resolveEach (env : Env) (banks : list string)
  (st : gmap string Coord * gmap string Coord)
  : M (gmap string Coord * gmap string Coord) :=
  match banks with
  | [] => ret st
  | bank :: rest =>
      let* st' := resolveBank env bank st in
      resolveEach env rest st'
  end.

(** The page: the object of the view and the calls that await a lookup,
    oldest first. *)
Record Page : Type := mkPage {
  view : State;
  inFlight : list Call
}.

(** What happens to the page: [updateNetworkView(topFlows)] is called, or
    the lookup the [k]-th call in flight awaits is answered. *)
Inductive Event : Type :=
| Update (topFlows : list Flow)
| Answer (k : nat).

(** The end of a call: the lines of its flows are pushed to
    [this.flowLines] (none when a marker throws before). *)
Definition pushLines (topFlows : list Flow)
  (bankCoordinates : gmap string Coord) (this : State) : State :=
  {| networkMap := networkMap this;
     bankCoordinatesCache := bankCoordinatesCache this;
     flowLines :=
       flowLines this ++ default [] (flowLinesOf bankCoordinates topFlows) |}.

Definition step (env : Env) (event : Event) (page : Page) : M Page :=
  let this := view page in
  match event with
  | Update topFlows =>
      if negb (networkMap this) || (length topFlows =? 0)%nat then ret page
      else
        let cleared :=
          {| networkMap := networkMap this;
             bankCoordinatesCache := bankCoordinatesCache this;
             flowLines := [] |} in
        let* outcome :=
          firstPass env topFlows (banksOf topFlows) ∅
            (bankCoordinatesCache this) in
        match outcome with
        | inl bankCoordinates =>
            ret {| view := pushLines topFlows bankCoordinates cleared;
                   inFlight := inFlight page |}
        | inr call =>
            ret {| view := cleared; inFlight := inFlight page ++ [call] |}
        end
  | Answer k =>
      match inFlight page !! k with
      | None => ret page
      | Some call =>
          let* st :=
            settle env (awaited call) (answer call)
              (callCoordinates call, bankCoordinatesCache this) in
          let '(bankCoordinates, cache) := st in
          let stored :=
            {| networkMap := networkMap this;
               bankCoordinatesCache := cache;
               flowLines := flowLines this |} in
          let* outcome :=
            firstPass env (callFlows call) (banksToCome call)
              bankCoordinates cache in
          match outcome with
          | inl bankCoordinates =>
              ret {| view := pushLines (callFlows call) bankCoordinates stored;
                     inFlight := delete k (inFlight page) |}
          | inr call' =>
              ret {| view := stored;
                     inFlight := <[k := call']> (inFlight page) |}
          end
      end
  end.

Fixpoint run (env : Env) (events : list Event) (page : Page) : M Page :=
  match events with
  | [] => ret page
  | event :: rest =>
      let* page' := step env event page in
      run env rest page'
  end.

(** An update that is awaited: on a page with no call in flight, every
    lookup of the call is answered before anything else happens.  A call
    awaits at most two lookups for each flow. *)
Definition awaitedUpdate (topFlows : list Flow) : list Event :=
  Update topFlows :: repeat (Answer 0) (2 * length topFlows).

Definition awaitedSession (updates : list (list Flow)) : list Event :=
  flat_map awaitedUpdate updates.

(** How many calls of [updateNetworkView] there are among the events. *)
Definition updatesOf (events : list Event) : nat :=
  length (List.filter
            (fun event =>
               match event with Update _ => true | Answer _ => false end)
            events).

(** 1 for a call in flight that has not come to [code] yet: it neither
    awaits the lookup of [code] nor has an entry for it in its
    [bankCoordinates]; 0 for any other. *)
Definition yetToAsk (code : string) (call : Call) : nat :=
  if String.eqb (awaited call) code then 0
  else match callCoordinates call !! code with
       | Some _ => 0
       | None => 1
       end.

(** *** Node colours *)

(** [hash & hash]: the conversion to a signed 32-bit integer. *)
Definition toInt32 (x : Z) : Z :=
  ((x + 2147483648) mod 4294967296 - 2147483648)%Z.

(** [hash << 5] on a 32-bit integer. *)
Definition shl5 (hash : Z) : Z := toInt32 (hash * 32).

(** One round of the loop of [simpleHash], [char] being [str.charCodeAt(i)]. *)
Definition hashStep (hash char : Z) : Z :=
  toInt32 ((shl5 hash - hash) + char)%Z.

Definition charCodes (str : string) : list Z :=
  map (fun c => Z.of_nat (nat_of_ascii c)) (list_ascii_of_string str).

(** [simpleHash(str)] on the code units of the string. *)
Definition simpleHashCodes (codes : list Z) : Z :=
  Z.abs (fold_left hashStep codes 0%Z).

Definition simpleHash (str : string) : Z := simpleHashCodes (charCodes str).

(** The three components of the colour, and the string made of them. *)
Definition hue (hash : Z) : Z := Z.rem hash 360.
Definition saturation (hash : Z) : Z := (70 + Z.rem hash 30)%Z.
Definition lightness (hash : Z) : Z := (45 + Z.rem hash 20)%Z.

Definition hsl (h s l : Z) : string :=
  "hsl(" ++ JsValue.ofZ h ++ ", " ++ JsValue.ofZ s ++ "%, "
         ++ JsValue.ofZ l ++ "%)".

(** [getNodeColor(group)]: the colour and [this.colorCache] afterwards. *)
Definition getNodeColor (group : string) (colorCache : gmap string string)
  : string * gmap string string :=
  match colorCache !! group with
  | Some color => (color, colorCache)
  | None =>
      let hash := simpleHash group in
      let color := hsl (hue hash) (saturation hash) (lightness hash) in
      (color, <[group := color]> colorCache)
  end.

(** The colours a sequence of calls of [getNodeColor] returns, and the
    cache after the last one. *)
Fixpoint getNodeColors (groups : list string) (colorCache : gmap string string)
  : list string * gmap string string :=
  match groups with
  | [] => ([], colorCache)
  | group :: rest =>
      let (color, colorCache1) := getNodeColor group colorCache in
      let (colors, colorCache2) := getNodeColors rest colorCache1 in
      (color :: colors, colorCache2)
  end.

(** The cache covers the requests made so far: no code was requested
    twice, every requested code has an entry, and the entry of a code the
    service resolved is the answer of the service. *)
Definition covers (env : Env) (cache : gmap string Coord)
  (requested : list string) : Prop :=
  NoDup requested /\
  forall n code, requested !! n = Some code ->
    is_Some (cache !! code) /\
    forall coords,
      Geocoding.readResponse (respond env n code) = Some coords ->
      cache !! code = Some coords.

(** *** The second pass of [updateNetworkView]: the banks and their totals *)

(** An entry of [banksData]; [coordinates] is what [bankCoordinates[name]]
    read when the entry was made. *)
Record Bank : Type := mkBank {
  bank_name : string;
  coordinates : JsValue.Slot Coord;
  totalOut : Q;
  totalIn : Q
}.

(** [banksData.has(name)]; the [Map] is the list of its entries in the
    order they were set. *)
Definition hasBank (banksData : list (string * Bank)) (bankName : string)
  : bool :=
  existsb (fun entry => String.eqb (fst entry) bankName) banksData.

(** [if (!banksData.has(name)) banksData.set(name, {...})] *)
Definition ensureBank (bankCoordinates : gmap string Coord) (bankName : string)
  (banksData : list (string * Bank)) : list (string * Bank) :=
  if hasBank banksData bankName then banksData
  else
    banksData ++
      [ (bankName,
         {| bank_name := bankName;
            coordinates := JsValue.get bankCoordinates bankName;
            totalOut := 0;
            totalIn := 0 |}) ].

(** [banksData.get(name).totalOut += amount] *)
Definition addOut (bankName : string) (amount : Q)
  (banksData : list (string * Bank)) : list (string * Bank) :=
  List.map
    (fun entry =>
       if String.eqb (fst entry) bankName then
         (fst entry,
          {| bank_name := bank_name (snd entry);
             coordinates := coordinates (snd entry);
             totalOut := totalOut (snd entry) + amount;
             totalIn := totalIn (snd entry) |})
       else entry)
    banksData.

(** [banksData.get(name).totalIn += amount] *)
Definition addIn (bankName : string) (amount : Q)
  (banksData : list (string * Bank)) : list (string * Bank) :=
  List.map
    (fun entry =>
       if String.eqb (fst entry) bankName then
         (fst entry,
          {| bank_name := bank_name (snd entry);
             coordinates := coordinates (snd entry);
             totalOut := totalOut (snd entry);
             totalIn := totalIn (snd entry) + amount |})
       else entry)
    banksData.

(** One round of the second pass. *)
Definition bankRound (bankCoordinates : gmap string Coord) (flow : Flow)
  (banksData : list (string * Bank)) : list (string * Bank) :=
  addIn (to_bank flow) (amount flow)
    (addOut (from_bank flow) (amount flow)
       (ensureBank bankCoordinates (to_bank flow)
          (ensureBank bankCoordinates (from_bank flow) banksData))).

Definition banksDataOf (bankCoordinates : gmap string Coord)
  (topFlows : list Flow) : list (string * Bank) :=
  fold_left (fun banksData flow => bankRound bankCoordinates flow banksData)
    topFlows [].

(** [radius] of the marker of a bank. *)
Definition bankMarkerRadius (bank : Bank) : Q :=
  clamp ((totalOut bank + totalIn bank) / 50000) 8 20.

Definition sumOut (banksData : list (string * Bank)) : Q :=
  fold_right (fun entry acc => totalOut (snd entry) + acc) 0 banksData.

Definition sumIn (banksData : list (string * Bank)) : Q :=
  fold_right (fun entry acc => totalIn (snd entry) + acc) 0 banksData.

Definition sumAmounts (topFlows : list Flow) : Q :=
  fold_right (fun flow acc => amount flow + acc) 0 topFlows.

(** *** Risk classes and pagination *)

(** [getRiskClass(riskScore)] of the cash-flow view. *)
Definition getRiskClass (riskScore : Q) : string :=
  if Js.ge riskScore 0.7 then "high"
  else if Js.ge riskScore 0.4 then "medium"
  else "low".

(** [start], [end] and [totalPages] of [updatePagination(data)];
    [total] is [data.total || 0]. *)
Definition pageStart (currentPage itemsPerPage : Z) : Z :=
  ((currentPage - 1) * itemsPerPage + 1)%Z.

Definition pageEnd (currentPage itemsPerPage total : Z) : Z :=
  Z.min (pageStart currentPage itemsPerPage + itemsPerPage - 1) total.

Definition totalPages (total itemsPerPage : Z) : Z :=
  Qceiling (inject_Z total / inject_Z itemsPerPage).

(** The values [i] takes in [for (let i = lo; i <= hi; i++)]. *)
Definition fromTo (lo hi : Z) : list Z :=
  List.map (fun k => (lo + Z.of_nat k)%Z) (seq 0 (Z.to_nat (hi - lo + 1))).

(** The numbered buttons of [updatePagination]: there are none unless
    [data.total > this.itemsPerPage]. *)
Definition pageNumbers (currentPage itemsPerPage total : Z) : list Z :=
  if (itemsPerPage <? total)%Z then
    fromTo (Z.max 1 (currentPage - 2))
           (Z.min (totalPages total itemsPerPage) (currentPage + 2))
  else [].

End CashFlowAnalysis.

(** ** Risk levels of the platform object *)

Module AMLPlatform.

(** [getRiskColor(riskScore)] and [getRiskLevel(riskScore)]. *)
Definition getRiskColor (riskScore : Q) : string :=
  if Js.ge riskScore 0.7 then "var(--risk-high)"
  else if Js.ge riskScore 0.4 then "var(--risk-medium)"
  else "var(--risk-low)".

Definition getRiskLevel (riskScore : Q) : string :=
  if Js.ge riskScore 0.7 then "High"
  else if Js.ge riskScore 0.4 then "Medium"
  else "Low".

End AMLPlatform.

Module Dashboard.

Record Node : Type := mkNode {
  id : string;
  lat : Q;
  lng : Q;
  risk : Q
}.

Record Flow : Type := mkFlow {
  source : string;
  target : string;
  amount : Q;
  flow_risk : Q
}.

Record Data : Type := mkData {
  nodes : list Node;
  flows : list Flow
}.

(** [interpolatePath] of [updateEnhancedMap].  [None]: [latlngs[idx]] is
    [undefined] and reading its first component throws. *)
Definition interpolatePath (latlngs : list (Q * Q)) (t : Q) : option (Q * Q) :=
  let n := (Z.of_nat (length latlngs) - 1)%Z in
  let idx := Qfloor (t * inject_Z n) in
  let frac := t * inject_Z n - inject_Z idx in
  if (idx <? 0)%Z then None
  else
    match latlngs !! Z.to_nat idx, latlngs !! Z.to_nat (Z.min (idx + 1) n) with
    | Some p0, Some p1 =>
        Some (fst p0 + (fst p1 - fst p0) * frac,
              snd p0 + (snd p1 - snd p0) * frac)
    | _, _ => None
    end.

(** One call of [animateDots] of [updateEnhancedMap].  [Some]: the loop as
    it is when [requestAnimationFrame(animateDots)] is reached; [None]: a
    [setLatLng] argument threw before. *)
Definition animateDots (loop : Dots.DotLoop) : option Dots.DotLoop :=
  let offsets := map Dots.advance (Dots.offsets loop) in
  if forallb (fun t => bool_decide (is_Some (interpolatePath (Dots.path loop) t)))
       offsets
  then Some {| Dots.flowId := Dots.flowId loop;
               Dots.path := Dots.path loop;
               Dots.offsets := offsets |}
  else None.

(** [amlNodes.find(n => n.id === id)] *)
Definition findNode (nodes : list Node) (nodeId : string) : option Node :=
  List.find (fun n => String.eqb (id n) nodeId) nodes.

Record State : Type := mkState {
  map : bool;                        (* this.map is not null *)
  pending : list Dots.DotLoop        (* callbacks given to requestAnimationFrame *)
}.

(** The loop a flow gets; it is labelled with the edge it animates. *)
Definition loopOf (src tgt : Node) (flow : Flow) : Dots.DotLoop :=
  {| Dots.flowId := source flow ++ "|" ++ target flow;
     Dots.path := [ (lat src, lng src);
                    ((lat src + lat tgt) / 2 + 5, (lng src + lng tgt) / 2);
                    (lat tgt, lng tgt) ];
     Dots.offsets := Dots.initialOffsets |}.

(** [amlFlows.forEach(flow => ...)]: [animateDots()] is called once for
    each flow drawn; a throw ends the iteration. *)
Fixpoint drawFlows (amlNodes : list Node) (amlFlows : list Flow)
  (pending : list Dots.DotLoop) : list Dots.DotLoop :=
  match amlFlows with
  | [] => pending
  | flow :: rest =>
      match findNode amlNodes (source flow), findNode amlNodes (target flow) with
      | Some src, Some tgt =>
          match animateDots (loopOf src tgt flow) with
          | Some loop => drawFlows amlNodes rest (pending ++ [loop])
          | None => pending
          end
      | _, _ => drawFlows amlNodes rest pending
      end
  end.

(** [updateEnhancedMap(data)]. *)
Definition updateEnhancedMap (data : Data) (this : State) : State :=
  if map this then
    {| map := map this;
       pending := drawFlows (nodes data) (flows data) (pending this) |}
  else this.

(** [cleanupMapAnimations()]: intervals and layers are cleared; the
    callbacks given to [requestAnimationFrame] stay. *)
Definition cleanupMapAnimations (this : State) : State := this.

(** One animation frame. *)
Fixpoint runPending (pending : list Dots.DotLoop) : list Dots.DotLoop :=
  match pending with
  | [] => []
  | loop :: rest =>
      match animateDots loop with
      | Some loop' => loop' :: runPending rest
      | None => runPending rest
      end
  end.

Definition frame (this : State) : State :=
  {| map := map this; pending := runPending (pending this) |}.

Fixpoint frames (n : nat) (this : State) : State :=
  match n with
  | O => this
  | S n' => frames n' (frame this)
  end.

(** A loop as [updateEnhancedMap] makes them: three points on its path,
    every offset between 0 and 1. *)
Definition running (loop : Dots.DotLoop) : Prop :=
  length (Dots.path loop) = 3%nat /\
  Forall (fun offset => 0 <= offset <= 1) (Dots.offsets loop).

End Dashboard.

(** ** The filters of the dashboard map *)

Module MapFilters.

(** A node of the map data as the filters read it. *)
Record Node : Type := mkNode {
  id : string;
  lat : Q;
  lng : Q;
  volume : Q;
  risk : Q
}.

(** [data]: [nodes] and [flows] may be missing, and so may the totals. *)
Record Data : Type := mkData {
  nodes : option (list Node);
  flows : option (list Dashboard.Flow);
  total_volume : option Q;
  total_flows : option Z
}.

(** The filters [applyClientSideFilters] reads; [minAmount] is the number
    the text of the field stands for. *)
Record Filters : Type := mkFilters {
  minAmount : Q;
  riskLevel : string
}.

(** [riskFilter] of [applyClientSideFilters]. *)
Definition riskFilter (riskLevel : string) (risk : Q) : bool :=
  if String.eqb riskLevel "high" then Js.ge risk 0.7
  else if String.eqb riskLevel "medium" then Js.ge risk 0.4 && Js.lt risk 0.7
  else if String.eqb riskLevel "low" then Js.lt risk 0.4
  else true.

(** [filteredNodes.reduce((sum, node) => sum + node.volume, 0)] *)
Definition totalVolume (nodes : list Node) : Q :=
  fold_left (fun sum node => sum + volume node) nodes 0.

Definition filterNodes (filters : Filters) (nodes : list Node) : list Node :=
  let byAmount :=
    if Js.gt (minAmount filters) 0 then
      List.filter (fun node => Js.ge (volume node) (minAmount filters / 1000000))
        nodes
    else nodes in
  if negb (String.eqb (riskLevel filters) "all") then
    List.filter (fun node => riskFilter (riskLevel filters) (risk node)) byAmount
  else byAmount.

Definition filterFlows (filters : Filters) (flows : list Dashboard.Flow)
  : list Dashboard.Flow :=
  let byAmount :=
    if Js.gt (minAmount filters) 0 then
      List.filter (fun flow => Js.ge (Dashboard.amount flow) (minAmount filters))
        flows
    else flows in
  if negb (String.eqb (riskLevel filters) "all") then
    List.filter
      (fun flow => riskFilter (riskLevel filters) (Dashboard.flow_risk flow))
      byAmount
  else byAmount.

(** [applyClientSideFilters(data, filters)]. *)
Definition applyClientSideFilters (data : Data) (filters : Filters) : Data :=
  match nodes data, flows data with
  | Some allNodes, Some allFlows =>
      let filteredNodes := filterNodes filters allNodes in
      let filteredFlows := filterFlows filters allFlows in
      {| nodes := Some filteredNodes;
         flows := Some filteredFlows;
         total_volume := Some (totalVolume filteredNodes);
         total_flows := Some (Z.of_nat (length filteredFlows)) |}
  | _, _ => data
  end.

(** What [updateEnhancedMap] reads of the data: [data.nodes || []] and
    [data.flows || []]. *)
Definition shown (data : Data) : Dashboard.Data :=
  {| Dashboard.nodes :=
       List.map (fun node =>
                   {| Dashboard.id := id node;
                      Dashboard.lat := lat node;
                      Dashboard.lng := lng node;
                      Dashboard.risk := risk node |})
         (default [] (nodes data));
     Dashboard.flows := default [] (flows data) |}.

(** The label of the loop of a flow: its edge. *)
Definition edgeKey (flow : Dashboard.Flow) : string :=
  Dashboard.source flow ++ "|" ++ Dashboard.target flow.

(** Both ends of a flow are among the nodes. *)
Definition connected (amlNodes : list Dashboard.Node) (flow : Dashboard.Flow)
  : bool :=
  match Dashboard.findNode amlNodes (Dashboard.source flow),
        Dashboard.findNode amlNodes (Dashboard.target flow) with
  | Some _, Some _ => true
  | _, _ => false
  end.

End MapFilters.

(** * Properties *)

(** ** Comparisons *)

Lemma ge_spec a b : Js.ge a b = true <-> b <= a.
Proof. unfold Js.ge. apply Qle_bool_iff. Qed.

Lemma le_spec a b : Js.le a b = true <-> a <= b.
Proof. unfold Js.le. apply Qle_bool_iff. Qed.

Lemma gt_spec a b : Js.gt a b = true <-> b < a.
Proof.
  unfold Js.gt. rewrite negb_true_iff, <- not_true_iff_false, Qle_bool_iff.
  split; [apply Qnot_le_lt | apply Qlt_not_le].
Qed.

Lemma lt_spec a b : Js.lt a b = true <-> a < b.
Proof.
  unfold Js.lt. rewrite negb_true_iff, <- not_true_iff_false, Qle_bool_iff.
  split; [apply Qnot_le_lt | apply Qlt_not_le].
Qed.

Lemma gt_false a b : Js.gt a b = false <-> a <= b.
Proof. unfold Js.gt. rewrite negb_false_iff. apply Qle_bool_iff. Qed.

Lemma ge_false a b : Js.ge a b = false <-> a < b.
Proof.
  unfold Js.ge. rewrite <- not_true_iff_false, Qle_bool_iff.
  split; [apply Qnot_le_lt | apply Qlt_not_le].
Qed.

Lemma max_spec a b : a <= Js.max a b /\ b <= Js.max a b.
Proof.
  unfold Js.max. destruct (Qle_bool a b) eqn:E.
  - apply Qle_bool_iff in E. split; [exact E | apply Qle_refl].
  - split; [apply Qle_refl |].
    apply Qlt_le_weak, Qnot_le_lt. intros H.
    apply Qle_bool_iff in H. congruence.
Qed.

(** Case analysis on every comparison of the goal. *)
Ltac qcases :=
  repeat match goal with
    | |- context [Qle_bool ?x ?y] => destruct (Qle_bool x y) eqn:?
    end;
  repeat match goal with
    | H : Qle_bool _ _ = true |- _ => apply Qle_bool_iff in H
    | H : Qle_bool _ _ = false |- _ =>
        apply not_true_iff_false in H; rewrite Qle_bool_iff in H
    end.

(** ** Risk tiers *)

Section Tiers.
Import NetworkAnalysis_tiers.

(** On every score the three filters of the tiered layout select exactly one
    band. *)
Lemma layout_split_exhaustive (r : Q) :
  (inHighRisk r = true /\ inMediumRisk r = false /\ inLowRisk r = false) \/
  (inHighRisk r = false /\ inMediumRisk r = true /\ inLowRisk r = false) \/
  (inHighRisk r = false /\ inMediumRisk r = false /\ inLowRisk r = true).
Proof.
  unfold inHighRisk, inMediumRisk, inLowRisk.
  destruct (Js.gt r 0.7) eqn:H7; destruct (Js.gt r 0.4) eqn:H4;
    destruct (Js.le r 0.7) eqn:L7; destruct (Js.le r 0.4) eqn:L4;
    cbn; auto;
    repeat match goal with
      | H : Js.gt _ _ = true |- _ => apply gt_spec in H
      | H : Js.gt _ _ = false |- _ => apply gt_false in H
      | H : Js.le _ _ = true |- _ => apply le_spec in H
      | H : Js.le _ _ = false |- _ =>
          apply not_true_iff_false in H; rewrite le_spec in H
      end; exfalso; lra.
Qed.

(** The bands of the layout and the colours of the flows on the map split
    the scores alike: above 0.7, above 0.4, the rest. *)
Lemma layout_agrees_with_flow_colour (r : Q) :
  layoutTier r = Some (flowColorTier r).
Proof.
  unfold layoutTier, flowColorTier, riskColor, inHighRisk, inMediumRisk,
    inLowRisk.
  destruct (Js.gt r 0.7) eqn:H7; [reflexivity |].
  destruct (Js.gt r 0.4) eqn:H4; cbn.
  - apply gt_false in H7. apply le_spec in H7. rewrite H7. reflexivity.
  - apply gt_false in H4. apply le_spec in H4. rewrite H4. reflexivity.
Qed.

(** The colours of the graph view put the breakpoints at 0.7 and 0.3, both
    included. *)
Lemma node_colour_breakpoints (r : Q) :
  nodeColorTier r = (if Js.ge r 0.7 then High
                     else if Js.ge r 0.3 then Medium else Low)
  /\ linkColorTier r = nodeColorTier r.
Proof.
  unfold nodeColorTier, linkColorTier, getNodeColor, getLinkColor.
  destruct (Js.ge r 0.7); [split; reflexivity |].
  destruct (Js.ge r 0.3); split; reflexivity.
Qed.

(** C1.  The components do not assign the same tier to the same score: at
    0.7 the node colour is the one of the high tier while the flow colour
    and the layout band are the medium ones; at 0.4 the node colour is the
    medium one while flow colour and band are the low ones; at 0.35, below
    0.4, node and link colour are still the medium ones. *)
Theorem tier_breakpoints_differ :
  nodeColorTier 0.7 = High /\ linkColorTier 0.7 = High /\
  flowColorTier 0.7 = Medium /\ layoutTier 0.7 = Some Medium /\
  nodeColorTier 0.4 = Medium /\
  flowColorTier 0.4 = Low /\ layoutTier 0.4 = Some Low /\
  nodeColorTier 0.35 = Medium /\ linkColorTier 0.35 = Medium /\
  flowColorTier 0.35 = Low /\ layoutTier 0.35 = Some Low.
Proof. repeat split; reflexivity. Qed.

End Tiers.

(** ** Node colours of the cash-flow view *)

Section NodeColours.
Import CashFlowAnalysis.

Lemma toInt32_range (x : Z) :
  (-2147483648 <= toInt32 x < 2147483648)%Z.
Proof.
  unfold toInt32.
  pose proof (Z.mod_pos_bound (x + 2147483648) 4294967296 eq_refl). lia.
Qed.

(** The hash is a non-negative integer of at most 2^31, whatever the code
    units are. *)
Lemma simpleHashCodes_range (codes : list Z) :
  (0 <= simpleHashCodes codes <= 2147483648)%Z.
Proof.
  unfold simpleHashCodes.
  assert (H : (-2147483648 <= fold_left hashStep codes 0 < 2147483648)%Z).
  { assert (G : forall h, (-2147483648 <= h < 2147483648)%Z ->
                  (-2147483648 <= fold_left hashStep codes h < 2147483648)%Z).
    { induction codes as [| c codes IH]; intros h Hh; cbn; [exact Hh |].
      apply IH. unfold hashStep. apply toInt32_range. }
    apply G. lia. }
  lia.
Qed.

(** The colour [getNodeColor] computes for a group it has not seen. *)
Local Abbreviation generated group :=
  (hsl (hue (simpleHash group)) (saturation (simpleHash group))
       (lightness (simpleHash group))).

Lemma getNodeColor_hit (group color : string) (cache : gmap string string) :
  cache !! group = Some color -> getNodeColor group cache = (color, cache).
Proof. intros H. unfold getNodeColor. rewrite H. reflexivity. Qed.

Lemma getNodeColor_miss (group : string) (cache : gmap string string) :
  cache !! group = None ->
  getNodeColor group cache =
    (generated group, <[group := generated group]> cache).
Proof. intros H. unfold getNodeColor. rewrite H. reflexivity. Qed.

(** A cache that holds generated colours only keeps doing so, and answers
    with the generated colour. *)
Lemma getNodeColors_generated (groups : list string)
  (cache : gmap string string) :
  (forall g c, cache !! g = Some c -> c = generated g) ->
  fst (getNodeColors groups cache) = map (fun g => generated g) groups.
Proof.
  revert cache. induction groups as [| g groups IH]; intros cache Hinv.
  - reflexivity.
  - cbn [getNodeColors map].
    destruct (getNodeColor g cache) as [color cache1] eqn:E.
    specialize (IH cache1).
    destruct (getNodeColors groups cache1) as [colors cache2] eqn:E2.
    cbn [fst] in *.
    destruct (cache !! g) as [c |] eqn:L.
    + rewrite (getNodeColor_hit _ _ _ L) in E. injection E as <- <-.
      rewrite (Hinv _ _ L), IH; [reflexivity | exact Hinv].
    + rewrite (getNodeColor_miss _ _ L) in E. injection E as <- <-.
      rewrite IH; [reflexivity |].
      intros g' c' H'. destruct (decide (g = g')) as [-> | Hne].
      * rewrite lookup_insert_eq in H'. congruence.
      * rewrite lookup_insert_ne in H' by exact Hne. eauto.
Qed.

(** C10.  Whatever groups are asked for in a session, and in whatever
    order, every call of [getNodeColor] returns the string
    [hsl(h, s%, l%)] written with the decimal numerals of the hue [h], the
    saturation [s] and the lightness [l] computed from the hash of its
    group, so equal groups get equal colours; the hue lies in [0,360), the
    saturation in [70,100), the lightness in [45,65), the hash being never
    negative.  A call repeated on the cache the first one leaves returns the
    same colour and leaves that cache as it is, the colour being stored
    under the group. *)
Theorem getNodeColor_memoized_in_range (groups : list string) (group : string)
  (cache : gmap string string) :
  Forall2
    (fun g color =>
       exists h s l : Z,
         color = "hsl(" ++ pretty h ++ ", " ++ pretty s ++ "%, "
                        ++ pretty l ++ "%)"
         /\ h = Z.rem (simpleHash g) 360
         /\ s = (70 + Z.rem (simpleHash g) 30)%Z
         /\ l = (45 + Z.rem (simpleHash g) 20)%Z
         /\ (0 <= h < 360)%Z /\ (70 <= s < 100)%Z /\ (45 <= l < 65)%Z)
    groups (fst (getNodeColors groups ∅))
  /\ fst (getNodeColors groups ∅) = map (fun g => generated g) groups
  /\ fst (getNodeColor group (snd (getNodeColor group cache)))
     = fst (getNodeColor group cache)
  /\ snd (getNodeColor group (snd (getNodeColor group cache)))
     = snd (getNodeColor group cache)
  /\ snd (getNodeColor group cache) !! group
     = Some (fst (getNodeColor group cache))
  /\ (0 <= simpleHash group)%Z
  /\ (0 <= hue (simpleHash group) < 360)%Z
  /\ (70 <= saturation (simpleHash group) < 100)%Z
  /\ (45 <= lightness (simpleHash group) < 65)%Z.
Proof.
  assert (Hhash : forall g, (0 <= simpleHash g)%Z).
  { intros g. pose proof (simpleHashCodes_range (charCodes g)) as Hh.
    fold (simpleHash g) in Hh. lia. }
  assert (Hgen : fst (getNodeColors groups ∅)
                 = map (fun g => generated g) groups).
  { apply getNodeColors_generated. intros g c H.
    rewrite lookup_empty in H. discriminate. }
  pose proof (Hhash group) as Hh.
  split; [| split; [| split; [| split; [| split; [| split; [| split;
    [| split]]]]]]].
  - rewrite Hgen. clear Hgen. induction groups as [| g rest IH]; cbn [map].
    + constructor.
    + constructor; [| exact IH].
      exists (Z.rem (simpleHash g) 360), (70 + Z.rem (simpleHash g) 30)%Z,
             (45 + Z.rem (simpleHash g) 20)%Z.
      split; [reflexivity |]. repeat (split; [reflexivity |]).
      pose proof (Hhash g) as Hg.
      pose proof (Z.rem_bound_pos (simpleHash g) 360).
      pose proof (Z.rem_bound_pos (simpleHash g) 30).
      pose proof (Z.rem_bound_pos (simpleHash g) 20). lia.
  - exact Hgen.
  - destruct (cache !! group) as [c |] eqn:L.
    + rewrite (getNodeColor_hit _ _ _ L). cbn [fst snd].
      rewrite (getNodeColor_hit _ _ _ L). reflexivity.
    + rewrite (getNodeColor_miss _ _ L). cbn [fst snd].
      rewrite (getNodeColor_hit group (generated group));
        [reflexivity | apply lookup_insert_eq].
  - destruct (cache !! group) as [c |] eqn:L.
    + rewrite (getNodeColor_hit _ _ _ L). cbn [fst snd].
      rewrite (getNodeColor_hit _ _ _ L). reflexivity.
    + rewrite (getNodeColor_miss _ _ L). cbn [fst snd].
      rewrite (getNodeColor_hit group (generated group));
        [reflexivity | apply lookup_insert_eq].
  - destruct (cache !! group) as [c |] eqn:L.
    + rewrite (getNodeColor_hit _ _ _ L). exact L.
    + rewrite (getNodeColor_miss _ _ L). apply lookup_insert_eq.
  - exact Hh.
  - unfold hue.
    pose proof (Z.rem_bound_pos (simpleHash group) 360). lia.
  - unfold saturation.
    pose proof (Z.rem_bound_pos (simpleHash group) 30). lia.
  - unfold lightness.
    pose proof (Z.rem_bound_pos (simpleHash group) 20). lia.
Qed.

Example simpleHash_Bank : simpleHash "Bank" = 2062940%Z.
Proof. reflexivity. Qed.

Example getNodeColor_Bank : fst (getNodeColor "Bank" ∅) = "hsl(140, 90%, 45%)".
Proof. vm_compute. reflexivity. Qed.

End NodeColours.

(** ** Interpolation along a flow on the world map *)

Section Interpolation.
Import NetworkAnalysis.

Lemma advance_range (offset : Q) :
  0 <= offset <= 1 -> 0 <= Dots.advance offset <= 1.
Proof.
  intros [H0 H1]. unfold Dots.advance.
  destruct (Js.gt (offset + 0.005) 1) eqn:E.
  - split; lra.
  - apply gt_false in E. split; lra.
Qed.

Lemma initialOffsets_range :
  Forall (fun offset => 0 <= offset <= 1) Dots.initialOffsets.
Proof.
  unfold Dots.initialOffsets. cbn [seq List.map].
  repeat (constructor; [split; unfold Qle; cbn; lia |]). constructor.
Qed.

Lemma interpolatePath_low (s e : Q * Q) (t : Q) :
  t <= 0 -> interpolatePath [s; e] t = Some s.
Proof.
  intros H. unfold interpolatePath.
  apply le_spec in H. rewrite H. reflexivity.
Qed.

Lemma interpolatePath_high (s e : Q * Q) (t : Q) :
  1 <= t -> interpolatePath [s; e] t = Some e.
Proof.
  intros H. unfold interpolatePath.
  destruct (Js.le t 0) eqn:L.
  - apply le_spec in L. lra.
  - apply ge_spec in H. rewrite H. reflexivity.
Qed.

Lemma interpolatePath_between (s e : Q * Q) (t : Q) :
  0 < t < 1 ->
  interpolatePath [s; e] t =
    Some (fst s + (fst e - fst s) * t, snd s + (snd e - snd s) * t).
Proof.
  intros [H0 H1]. unfold interpolatePath.
  destruct (Js.le t 0) eqn:L; [apply le_spec in L; lra |].
  destruct (Js.ge t 1) eqn:G; [apply ge_spec in G; lra |].
  reflexivity.
Qed.

(** C9.  On a path of two points [interpolatePath] returns a point for
    every [t]: the first point when [t <= 0], the last one when [t >= 1],
    the linear combination of the two in between; the point always lies on
    the segment between them, and so does every dot an animation loop
    places along such a path, before and after any call of [animateDots]. *)
Theorem interpolatePath_clamped (s e : Q * Q) (t : Q)
  (this : MapState) (loop : Dots.DotLoop) :
  (exists p, interpolatePath [s; e] t = Some p
     /\ (t <= 0 -> p = s)
     /\ (1 <= t -> p = e)
     /\ (0 < t < 1 ->
         p = (fst s + (fst e - fst s) * t, snd s + (snd e - snd s) * t))
     /\ Leaflet.onSegment s e p)
  /\ (Dots.path loop = [s; e] ->
      Forall (fun pos => exists p, pos = Some p /\ Leaflet.onSegment s e p)
        (dotPositions loop ++ dotPositions (fst (animateDots this loop)))).
Proof.
  assert (Hpoint : forall u, exists p, interpolatePath [s; e] u = Some p
     /\ (u <= 0 -> p = s)
     /\ (1 <= u -> p = e)
     /\ (0 < u < 1 ->
         p = (fst s + (fst e - fst s) * u, snd s + (snd e - snd s) * u))
     /\ Leaflet.onSegment s e p).
  { intros u. destruct (Qlt_le_dec 0 u) as [Hpos | Hle].
    - destruct (Qlt_le_dec u 1) as [Hlt | Hge].
      + eexists. split; [apply interpolatePath_between; split; assumption |].
        split; [intros; lra |]. split; [intros; lra |].
        split; [reflexivity |].
        exists u. cbn [fst snd]. repeat split; try lra; reflexivity.
      + exists e. split; [apply interpolatePath_high; assumption |].
        split; [intros; lra |]. split; [reflexivity |].
        split; [intros; lra |].
        exists 1. repeat split; try lra; ring.
    - exists s. split; [apply interpolatePath_low; assumption |].
      split; [reflexivity |]. split; [intros; lra |].
      split; [intros; lra |].
      exists 0. repeat split; try lra; ring. }
  split; [apply Hpoint |].
  intros Hpath.
  assert (Hall : forall offsets,
            Forall (fun pos => exists p, pos = Some p /\ Leaflet.onSegment s e p)
              (List.map (interpolatePath [s; e]) offsets)).
  { induction offsets as [| u offsets IH]; cbn; constructor; [| exact IH].
    destruct (Hpoint u) as (p & Hp & _ & _ & _ & Hseg). exists p. auto. }
  apply Forall_app. unfold dotPositions. split.
  - rewrite Hpath. apply Hall.
  - unfold animateDots.
    destruct (currentView this);
      [cbn [fst]; rewrite Hpath; apply Hall |].
    destruct (worldMap this && _);
      cbn [fst Dots.path Dots.offsets]; rewrite Hpath; apply Hall.
Qed.

Lemma interpolatePath_clamped_witness :
  exists p,
    interpolatePath [(0, 0); (10, 20)] 0.5 = Some p /\
    p = (0 + (10 - 0) * 0.5, 0 + (20 - 0) * 0.5).
Proof.
  destruct (interpolatePath_clamped (0, 0) (10, 20) 0.5
              (mkMapState MapView true [] ∅ [])
              (Dots.mkLoop "flow_A_B" [(0, 0); (10, 20)] Dots.initialOffsets))
    as [(p & Hp & _ & _ & Hmid & _) _].
  exists p. split; [exact Hp |].
  apply Hmid. split; reflexivity.
Defined.

End Interpolation.

(** ** The coordinate resolvers *)

Section Resolvers.
Import Effects.

Lemma invalidCode_spec (code : JsValue.t) :
  NetworkAnalysis.invalidCode code = true <->
  (forall s, code = JsValue.Str s -> String.length (JsValue.trim s) <> 2%nat).
Proof.
  destruct code as [| | b | n | s |]; cbn;
    try (split; [intros _ s' [=] | reflexivity]).
  split.
  - intros H s' [= <-] Hlen. rewrite Hlen in H. cbn in H.
    rewrite orb_false_r, negb_true_iff, negb_false_iff in H.
    apply String.eqb_eq in H. subst s. discriminate Hlen.
  - intros H. specialize (H s eq_refl).
    apply Nat.eqb_neq in H. rewrite H. apply orb_true_r.
Qed.

Lemma NetworkAnalysis_fetch_valid (env : Env) (code : JsValue.t) (io : Io) :
  NetworkAnalysis.invalidCode code = false ->
  NetworkAnalysis.fetchCountryCoordinates env code io =
    (Geocoding.readResponse
       (respond env (length (requests io)) (JsValue.toString code)),
     {| requests := requests io ++ [JsValue.toString code];
        draws := draws io |}).
Proof.
  intros H. unfold NetworkAnalysis.fetchCountryCoordinates. rewrite H.
  reflexivity.
Qed.

Lemma CashFlowAnalysis_fetch (env : Env) (code : JsValue.t) (io : Io) :
  CashFlowAnalysis.fetchCountryCoordinates env code io =
    (Geocoding.readResponse
       (respond env (length (requests io)) (JsValue.toString code)),
     {| requests := requests io ++ [JsValue.toString code];
        draws := draws io |}).
Proof. reflexivity. Qed.

(** The guard of the resolver of the network-analysis view: for every
    input that is not a string, and for every string whose length after
    [trim()] is not 2, it returns [null] without any request. *)
Lemma network_analysis_guard (env : Env) (code : JsValue.t) (io : Io) :
  (forall s, code = JsValue.Str s -> String.length (JsValue.trim s) <> 2%nat) ->
  NetworkAnalysis.fetchCountryCoordinates env code io = (None, io).
Proof.
  intros H. apply invalidCode_spec in H.
  unfold NetworkAnalysis.fetchCountryCoordinates. rewrite H. reflexivity.
Qed.

(** C4: the resolver of the cash-flow view lacks the guard its sibling
    has.  It issues its request for every input, whatever the input is:
    for ["USA"], which is no string of two characters and for which the
    resolver of the network-analysis view returns [null] without a request,
    it requests ["USA"] and returns the location the service answers; for
    [undefined] it requests ["undefined"].  The guard of the
    network-analysis view in turn measures the code after [trim()] and
    requests it as it came: [" US "], a string of four characters, is
    requested. *)
Theorem invalid_code_requested :
  (forall env code io,
     CashFlowAnalysis.fetchCountryCoordinates env code io
     = (Geocoding.readResponse
          (respond env (length (requests io)) (JsValue.toString code)),
        {| requests := requests io ++ [JsValue.toString code];
           draws := draws io |}))
  /\ String.length "USA" = 3%nat
  /\ NetworkAnalysis.fetchCountryCoordinates sampleEnv (JsValue.Str "USA") start
     = (None, start)
  /\ CashFlowAnalysis.fetchCountryCoordinates sampleEnv (JsValue.Str "USA") start
     = (Some {| lat := 38; lng := -97; name := Some "United States" |},
        {| requests := ["USA"]; draws := 0 |})
  /\ NetworkAnalysis.fetchCountryCoordinates sampleEnv JsValue.Undefined start
     = (None, start)
  /\ CashFlowAnalysis.fetchCountryCoordinates sampleEnv JsValue.Undefined start
     = (None, {| requests := ["undefined"]; draws := 0 |})
  /\ String.length " US " = 4%nat
  /\ NetworkAnalysis.fetchCountryCoordinates sampleEnv (JsValue.Str " US ") start
     = (None, {| requests := [" US "]; draws := 0 |}).
Proof. repeat split; reflexivity. Qed.

(** *** Failed lookups *)

Lemma resolveBank_present (env : Env) (bank : string)
  (bankCoordinates cache : gmap string Coord) (io : Io) :
  JsValue.get bankCoordinates bank <> JsValue.Missing ->
  CashFlowAnalysis.resolveBank env bank (bankCoordinates, cache) io
    = ((bankCoordinates, cache), io).
Proof.
  intros H. unfold CashFlowAnalysis.resolveBank.
  destruct (JsValue.get bankCoordinates bank); [reflexivity .. | congruence].
Qed.

Lemma resolveBank_hit (env : Env) (bank : string) (coords : Coord)
  (bankCoordinates cache : gmap string Coord) (io : Io) :
  cache !! bank = Some coords ->
  requests (snd (CashFlowAnalysis.resolveBank env bank (bankCoordinates, cache) io))
    = requests io
  /\ snd (fst (CashFlowAnalysis.resolveBank env bank (bankCoordinates, cache) io))
    = cache.
Proof.
  intros H. unfold CashFlowAnalysis.resolveBank.
  destruct (JsValue.get bankCoordinates bank); try (split; reflexivity).
  rewrite H. split; reflexivity.
Qed.

Lemma resolveBank_miss (env : Env) (bank : string)
  (bankCoordinates cache : gmap string Coord) (io : Io) :
  JsValue.get bankCoordinates bank = JsValue.Missing ->
  cache !! bank = None ->
  let r1 := random env (draws io) in
  let r2 := random env (S (draws io)) in
  let io' := {| requests := requests io ++ [bank]; draws := S (S (draws io)) |} in
  CashFlowAnalysis.resolveBank env bank (bankCoordinates, cache) io =
    match Geocoding.readResponse (respond env (length (requests io)) bank) with
    | Some coords =>
        ((<[bank := {| lat := lat coords + (r1 - 0.5) * 0.5;
                       lng := lng coords + (r2 - 0.5) * 0.5;
                       name := None |}]> bankCoordinates,
          <[bank := coords]> cache), io')
    | None =>
        let fallbackCoords :=
          {| lat := r1 * 50 - 25; lng := r2 * 180 - 90; name := None |} in
        ((<[bank := fallbackCoords]> bankCoordinates,
          <[bank := fallbackCoords]> cache), io')
    end.
Proof.
  intros Hbc Hc. unfold CashFlowAnalysis.resolveBank.
  rewrite Hbc, Hc. unfold bind at 1.
  rewrite CashFlowAnalysis_fetch. cbn [JsValue.toString].
  destruct (Geocoding.readResponse _); reflexivity.
Qed.




(** *** One lookup for each code in the cash-flow view *)

Lemma lookups_NoDup (code : string) (io : Io) :
  NoDup (requests io) -> (lookups code io <= 1)%nat.
Proof.
  unfold lookups. induction 1 as [| c l Hnotin Hnodup IH]; cbn; [lia |].
  destruct (String.eqb c code) eqn:E; [| exact IH].
  apply String.eqb_eq in E. subst c. cbn.
  assert (Hnone : List.filter (fun c => String.eqb c code) l = []).
  { clear -Hnotin. induction l as [| d l IH]; cbn; [reflexivity |].
    destruct (String.eqb d code) eqn:E.
    - apply String.eqb_eq in E. subst d. exfalso. apply Hnotin. left.
    - apply IH. intros H. apply Hnotin. right. exact H. }
  rewrite Hnone. cbn. lia.
Qed.

Lemma covers_requested (env : Env) (cache : gmap string Coord)
  (requested : list string) (code : string) :
  CashFlowAnalysis.covers env cache requested ->
  code ∈ requested -> is_Some (cache !! code).
Proof.
  intros [_ H] Hin. apply list_elem_of_lookup in Hin as [n Hn].
  apply (H n code Hn).
Qed.

Lemma covers_extend (env : Env) (cache : gmap string Coord)
  (requested : list string) (bank : string) (stored : Coord) :
  CashFlowAnalysis.covers env cache requested ->
  cache !! bank = None ->
  (forall coords,
     Geocoding.readResponse (respond env (length requested) bank) = Some coords ->
     stored = coords) ->
  CashFlowAnalysis.covers env (<[bank := stored]> cache) (requested ++ [bank]).
Proof.
  intros Hcov Hnone Hstored.
  assert (Hfresh : bank ∉ requested).
  { intros Hin. destruct (covers_requested _ _ _ _ Hcov Hin) as [v Hv].
    congruence. }
  destruct Hcov as [Hnodup Hall]. split.
  - apply NoDup_app. split; [exact Hnodup |]. split.
    + intros x Hx Hx'. apply list_elem_of_singleton in Hx'. subst x. auto.
    + apply NoDup_singleton.
  - intros n code Hn.
    destruct (decide (n < length requested)%nat) as [Hlt | Hge].
    + rewrite lookup_app_l in Hn by exact Hlt.
      assert (Hne : bank <> code).
      { intros <-. apply Hfresh. apply list_elem_of_lookup. eauto. }
      rewrite lookup_insert_ne by exact Hne. apply (Hall n code Hn).
    + rewrite lookup_app_r in Hn by lia.
      destruct (n - length requested)%nat as [| k] eqn:Hk; [| discriminate].
      cbn in Hn. injection Hn as <-.
      assert (n = length requested) as -> by lia.
      rewrite lookup_insert_eq. split; [eauto |].
      intros coords Hresp. rewrite (Hstored coords Hresp). reflexivity.
Qed.

Lemma resolveBank_covers (env : Env) (bank : string)
  (bankCoordinates cache : gmap string Coord) (io : Io) :
  CashFlowAnalysis.covers env cache (requests io) ->
  let r := CashFlowAnalysis.resolveBank env bank (bankCoordinates, cache) io in
  CashFlowAnalysis.covers env (snd (fst r)) (requests (snd r)).
Proof.
  intros Hcov.
  destruct (JsValue.get bankCoordinates bank) eqn:Hbc.
  1, 2: rewrite resolveBank_present by (rewrite Hbc; discriminate); exact Hcov.
  destruct (cache !! bank) as [coords |] eqn:Hc.
  - destruct (resolveBank_hit env bank coords bankCoordinates cache io Hc)
      as [Hreq Hcache].
    cbv zeta. rewrite Hreq, Hcache. exact Hcov.
  - cbv zeta. rewrite (resolveBank_miss env bank bankCoordinates cache io Hbc Hc).
    destruct (Geocoding.readResponse (respond env (length (requests io)) bank))
      as [coords |] eqn:Hresp; cbn [fst snd requests].
    + apply covers_extend; [exact Hcov | exact Hc |]. congruence.
    + apply covers_extend; [exact Hcov | exact Hc |]. congruence.
Qed.

Lemma resolveBanks_covers (env : Env) (topFlows : list CashFlowAnalysis.Flow)
  (st : gmap string Coord * gmap string Coord) (io : Io) :
  CashFlowAnalysis.covers env (snd st) (requests io) ->
  let r := CashFlowAnalysis.resolveBanks env topFlows st io in
  CashFlowAnalysis.covers env (snd (fst r)) (requests (snd r)).
Proof.
  revert st io. induction topFlows as [| flow rest IH]; intros st io Hcov.
  - exact Hcov.
  - cbn [CashFlowAnalysis.resolveBanks]. unfold bind.
    destruct st as [bc cache].
    pose proof (resolveBank_covers env (CashFlowAnalysis.from_bank flow)
                  bc cache io Hcov) as H1. cbv zeta in H1.
    destruct (CashFlowAnalysis.resolveBank env
                (CashFlowAnalysis.from_bank flow) (bc, cache) io)
      as [[bc1 cache1] io1].
    pose proof (resolveBank_covers env (CashFlowAnalysis.to_bank flow)
                  bc1 cache1 io1 H1) as H2. cbv zeta in H2.
    destruct (CashFlowAnalysis.resolveBank env
                (CashFlowAnalysis.to_bank flow) (bc1, cache1) io1)
      as [st2 io2].
    apply IH. exact H2.
Qed.

Lemma updateNetworkView_covers (env : Env)
  (topFlows : list CashFlowAnalysis.Flow) (this : CashFlowAnalysis.State)
  (io : Io) :
  CashFlowAnalysis.covers env (CashFlowAnalysis.bankCoordinatesCache this)
    (requests io) ->
  let r := CashFlowAnalysis.updateNetworkView env topFlows this io in
  CashFlowAnalysis.covers env (CashFlowAnalysis.bankCoordinatesCache (fst r))
    (requests (snd r)).
Proof.
  intros Hcov. unfold CashFlowAnalysis.updateNetworkView.
  destruct (negb _ || _); [exact Hcov |].
  unfold bind.
  pose proof (resolveBanks_covers env topFlows
                (∅, CashFlowAnalysis.bankCoordinatesCache this) io Hcov) as H.
  cbv zeta in H.
  destruct (CashFlowAnalysis.resolveBanks env topFlows _ io) as [[bc cache] io'].
  exact H.
Qed.

Lemma session_covers (env : Env) (updates : list (list CashFlowAnalysis.Flow))
  (this : CashFlowAnalysis.State) (io : Io) :
  CashFlowAnalysis.covers env (CashFlowAnalysis.bankCoordinatesCache this)
    (requests io) ->
  let r := CashFlowAnalysis.session env updates this io in
  CashFlowAnalysis.covers env (CashFlowAnalysis.bankCoordinatesCache (fst r))
    (requests (snd r)).
Proof.
  revert this io. induction updates as [| topFlows rest IH]; intros this io Hcov.
  - exact Hcov.
  - cbn [CashFlowAnalysis.session]. unfold bind.
    pose proof (updateNetworkView_covers env topFlows this io Hcov) as H.
    cbv zeta in H.
    destruct (CashFlowAnalysis.updateNetworkView env topFlows this io)
      as [this' io'].
    apply IH. exact H.
Qed.

End Resolvers.

(** ** Fresh lookups in the network-analysis view *)

Section FreshLookups.
Import Effects NetworkAnalysis.

(** One round, case by case: a node whose bank code is no string of two
    characters, or does not pass the guard of the resolver, costs nothing
    and gets no location; any other node costs one request, and gets the
    answer moved by two random numbers, or no location when the lookup
    fails. *)
Lemma locateNode_exact (env : Env) (nodeBankCodes : gmap string string)
  (node : Node) (io : Io) :
  let bankCode := nodeBankCode nodeBankCodes node in
  let code := JsValue.toString bankCode in
  locateNode env nodeBankCodes node io =
    if isBankCode bankCode && negb (invalidCode bankCode) then
      match Geocoding.readResponse (respond env (length (requests io)) code) with
      | Some base =>
          (Some {| name := name base;
                   lat := lat base + (random env (draws io) - 0.5) * 0.1;
                   lng := lng base + (random env (S (draws io)) - 0.5) * 0.1 |},
           {| requests := requests io ++ [code]; draws := S (S (draws io)) |})
      | None =>
          (None, {| requests := requests io ++ [code]; draws := draws io |})
      end
    else (None, io).
Proof.
  intros bankCode code. unfold locateNode. fold (nodeBankCode nodeBankCodes node).
  fold bankCode. unfold bind at 1.
  destruct (isBankCode bankCode); [| reflexivity].
  destruct (invalidCode bankCode) eqn:Hinv; cbn [andb negb].
  - unfold fetchCountryCoordinates. rewrite Hinv. reflexivity.
  - rewrite (NetworkAnalysis_fetch_valid env bankCode io Hinv). fold code.
    destruct (Geocoding.readResponse _); reflexivity.
Qed.

(** One call of [generateAccountLocations] requests the code of every node
    that has a valid one, whatever was requested or answered before. *)
Lemma generateAccountLocations_requests (env : Env) (links : list Link)
  (nodes : list Node) (io : Io) :
  requests (snd (generateAccountLocations env links nodes io))
  = (requests io ++ requestedCodes links nodes)%list.
Proof.
  unfold generateAccountLocations, requestedCodes.
  revert io. induction nodes as [| node rest IH]; intros io.
  - cbn. rewrite app_nil_r. reflexivity.
  - cbn [locateNodes omap list_omap]. unfold bind.
    pose proof (locateNode_exact env (collectBankCodes links) node io) as Hone.
    cbv zeta in Hone.
    destruct (locateNode env (collectBankCodes links) node io)
      as [location io1].
    specialize (IH io1).
    destruct (locateNodes env (collectBankCodes links) rest io1)
      as [locations io2].
    cbn [ret snd] in *. rewrite IH.
    destruct (isBankCode _ && negb _).
    + destruct (Geocoding.readResponse _); injection Hone as _ ->;
        cbn [requests]; rewrite <- app_assoc; reflexivity.
    + injection Hone as _ ->. reflexivity.
Qed.

End FreshLookups.


(** ** Updates of the cash-flow view, awaited or overlapping *)

Section OverlappingUpdates.
Import Effects CashFlowAnalysis.

Lemma banksOf_length (topFlows : list Flow) :
  length (banksOf topFlows) = (2 * length topFlows)%nat.
Proof.
  induction topFlows as [| flow rest IH]; [reflexivity |].
  cbn [banksOf flat_map app length]. fold (banksOf rest). rewrite IH. lia.
Qed.

Lemma resolveBanks_each (env : Env) (topFlows : list Flow) :
  forall st io,
    resolveBanks env topFlows st io = resolveEach env (banksOf topFlows) st io.
Proof.
  induction topFlows as [| flow rest IH]; intros st io; [reflexivity |].
  cbn [resolveBanks banksOf flat_map app resolveEach]. fold (banksOf rest).
  unfold bind.
  destruct (resolveBank env (from_bank flow) st io) as [st1 io1].
  destruct (resolveBank env (to_bank flow) st1 io1) as [st2 io2].
  apply IH.
Qed.

(** A stretch of the first pass does what the awaited pass does: at its
    end it has resolved its banks; at an [await] the awaited pass goes on
    with what follows the answer and with the banks to come, which are
    fewer than before. *)
Lemma firstPass_outcome (env : Env) (topFlows : list Flow)
  (banks : list string) :
  forall (bankCoordinates cache : gmap string Coord) (io : Io),
    match firstPass env topFlows banks bankCoordinates cache io with
    | (inl bankCoordinates', io') =>
        resolveEach env banks (bankCoordinates, cache) io
        = ((bankCoordinates', cache), io')
    | (inr call, io') =>
        callFlows call = topFlows
        /\ (length (banksToCome call) < length banks)%nat
        /\ cache !! awaited call = None
        /\ resolveEach env banks (bankCoordinates, cache) io
           = (let* st := settle env (awaited call) (answer call)
                           (callCoordinates call, cache) in
              resolveEach env (banksToCome call) st) io'
    end.
Proof.
  induction banks as [| bank rest IH]; intros bankCoordinates cache io;
    [reflexivity |].
  cbn [firstPass resolveEach]. unfold bind at 2 4. unfold resolveBank.
  destruct (JsValue.get bankCoordinates bank) eqn:Hget.
  - specialize (IH bankCoordinates cache io). cbn [ret].
    destruct (firstPass env topFlows rest bankCoordinates cache io)
      as [[bc1 | call] io1]; [exact IH |].
    destruct IH as (H1 & H2 & H3 & H4). repeat split; try assumption.
    cbn [length]. lia.
  - specialize (IH bankCoordinates cache io). cbn [ret].
    destruct (firstPass env topFlows rest bankCoordinates cache io)
      as [[bc1 | call] io1]; [exact IH |].
    destruct IH as (H1 & H2 & H3 & H4). repeat split; try assumption.
    cbn [length]. lia.
  - destruct (cache !! bank) as [coords |] eqn:Hcache.
    + unfold bind, mathRandom, ret. cbn [draws requests].
      match goal with
      | |- context [firstPass env topFlows rest ?bc ?c ?i] =>
          specialize (IH bc c i);
          destruct (firstPass env topFlows rest bc c i)
            as [[bc1 | call] io1]
      end; [exact IH |].
      destruct IH as (H1 & H2 & H3 & H4). repeat split; try assumption.
      cbn [length]. lia.
    + unfold bind.
      destruct (fetchCountryCoordinates env (JsValue.Str bank) io)
        as [coords io1].
      cbn [ret callFlows banksToCome awaited answer callCoordinates length].
      split; [reflexivity |]. split; [lia |]. split; [exact Hcache |].
      unfold settle. destruct coords as [coords |]; reflexivity.
Qed.

Lemma run_app (env : Env) (events1 events2 : list Event) :
  forall page io,
    run env (events1 ++ events2) page io
    = (let* page' := run env events1 page in run env events2 page') io.
Proof.
  induction events1 as [| event rest IH]; intros page io; [reflexivity |].
  cbn [app run]. unfold bind.
  destruct (step env event page io) as [page1 io1].
  rewrite IH. reflexivity.
Qed.

(** An answer that no call awaits changes nothing. *)
Lemma run_idle (env : Env) (n : nat) (this : State) (io : Io) :
  run env (repeat (Answer 0) n) {| view := this; inFlight := [] |} io
  = ({| view := this; inFlight := [] |}, io).
Proof. induction n as [| n IH]; [reflexivity | exact IH]. Qed.

(** A call that is alone in flight and gets answer after answer ends as
    the awaited pass does. *)
Lemma run_answers (env : Env) (n : nat) :
  forall (call : Call) (this : State) (io : Io),
    (length (banksToCome call) < n)%nat ->
    run env (repeat (Answer 0) n) {| view := this; inFlight := [call] |} io
    = (let* st :=
         (let* st0 := settle env (awaited call) (answer call)
                        (callCoordinates call, bankCoordinatesCache this) in
          resolveEach env (banksToCome call) st0) in
       ret {| view :=
                pushLines (callFlows call) (fst st)
                  {| networkMap := networkMap this;
                     bankCoordinatesCache := snd st;
                     flowLines := flowLines this |};
              inFlight := [] |}) io.
Proof.
  induction n as [| n IH]; intros call this io Hlen; [lia |].
  cbn [repeat run step view inFlight]. cbn [lookup list_lookup].
  unfold bind.
  destruct (settle env (awaited call) (answer call)
              (callCoordinates call, bankCoordinatesCache this) io)
    as [[bc cache] io1].
  pose proof (firstPass_outcome env (callFlows call) (banksToCome call)
                bc cache io1) as Hpass.
  destruct (firstPass env (callFlows call) (banksToCome call) bc cache io1)
    as [[bc1 | call'] io2].
  - rewrite Hpass. cbn [ret delete fst snd]. apply run_idle.
  - destruct Hpass as (Hflows & Hshorter & _ & Hpass).
    rewrite Hpass. cbn [ret].
    change (<[0%nat := call']> [call]) with [call'].
    rewrite IH by lia. unfold bind.
    cbn [view networkMap bankCoordinatesCache flowLines].
    rewrite Hflows. reflexivity.
Qed.

(** An awaited update is the update run in one piece. *)
Lemma awaited_update (env : Env) (topFlows : list Flow) (this : State)
  (io : Io) :
  run env (awaitedUpdate topFlows) {| view := this; inFlight := [] |} io
  = ({| view := fst (updateNetworkView env topFlows this io);
        inFlight := [] |},
     snd (updateNetworkView env topFlows this io)).
Proof.
  unfold awaitedUpdate, updateNetworkView. cbn [run step view inFlight].
  unfold bind.
  destruct (negb (networkMap this) || (length topFlows =? 0)%nat);
    [cbn [ret fst snd]; apply run_idle |].
  rewrite resolveBanks_each.
  pose proof (firstPass_outcome env topFlows (banksOf topFlows) ∅
                (bankCoordinatesCache this) io) as Hpass.
  destruct (firstPass env topFlows (banksOf topFlows) ∅
              (bankCoordinatesCache this) io) as [[bc1 | call] io1].
  - rewrite Hpass. cbn [ret fst snd]. rewrite run_idle. reflexivity.
  - destruct Hpass as (Hflows & Hshorter & _ & Hpass).
    rewrite banksOf_length in Hshorter.
    cbn [ret app]. rewrite run_answers by exact Hshorter.
    rewrite Hpass. unfold bind.
    cbn [view networkMap bankCoordinatesCache flowLines].
    destruct (settle env (awaited call) (answer call)
                (callCoordinates call, bankCoordinatesCache this) io1)
      as [st0 io2].
    destruct (resolveEach env (banksToCome call) st0 io2) as [[bc cache] io3].
    cbn [ret fst snd]. rewrite Hflows. reflexivity.
Qed.

(** A session of awaited updates is the session of updates run one after
    the other. *)
Lemma awaited_session (env : Env) (updates : list (list Flow)) :
  forall (this : State) (io : Io),
    run env (awaitedSession updates) {| view := this; inFlight := [] |} io
    = ({| view := fst (session env updates this io); inFlight := [] |},
       snd (session env updates this io)).
Proof.
  induction updates as [| topFlows rest IH]; intros this io; [reflexivity |].
  unfold awaitedSession. cbn [flat_map]. fold (awaitedSession rest).
  rewrite run_app. unfold bind at 1. rewrite awaited_update.
  rewrite IH. cbn [session]. unfold bind.
  destruct (updateNetworkView env topFlows this io) as [this' io'].
  reflexivity.
Qed.

(** *** Any interleaving *)

Lemma settle_cache (env : Env) (bank : string) (coords : option Coord)
  (bankCoordinates cache : gmap string Coord) (io : Io) :
  exists position stored,
    fst (settle env bank coords (bankCoordinates, cache) io)
    = (<[bank := position]> bankCoordinates, <[bank := stored]> cache).
Proof.
  unfold settle. destruct coords as [coords |]; do 2 eexists; reflexivity.
Qed.

Lemma settle_requests (env : Env) (bank : string) (coords : option Coord)
  (st : gmap string Coord * gmap string Coord) (io : Io) :
  requests (snd (settle env bank coords st io)) = requests io.
Proof.
  unfold settle. destruct st as [bankCoordinates cache].
  destruct coords as [coords |]; reflexivity.
Qed.

(** A stretch of the first pass issues no request but the one it then
    awaits. *)
Lemma firstPass_requests (env : Env) (topFlows : list Flow)
  (banks : list string) :
  forall (bankCoordinates cache : gmap string Coord) (io : Io),
    match firstPass env topFlows banks bankCoordinates cache io with
    | (inl _, io') => requests io' = requests io
    | (inr call, io') => requests io' = (requests io ++ [awaited call])%list
    end.
Proof.
  induction banks as [| bank rest IH]; intros bankCoordinates cache io;
    [reflexivity |].
  cbn [firstPass].
  destruct (JsValue.get bankCoordinates bank); [apply IH | apply IH |].
  destruct (cache !! bank) as [coords |]; [| reflexivity].
  unfold bind, mathRandom.
  match goal with
  | |- context [firstPass env topFlows rest ?bc ?c ?i] =>
      specialize (IH bc c i);
      destruct (firstPass env topFlows rest bc c i) as [[bc1 | call] io1]
  end; exact IH.
Qed.

Lemma lookups_other (code bank : string) (io io' : Io) :
  requests io' = (requests io ++ [bank])%list ->
  bank <> code ->
  lookups code io' = lookups code io.
Proof.
  intros Hreq Hne. unfold lookups. rewrite Hreq, List.filter_app, length_app.
  cbn [List.filter]. apply String.eqb_neq in Hne. rewrite Hne.
  cbn [length]. lia.
Qed.

Lemma lookups_same (code : string) (io io' : Io) :
  requests io' = requests io -> lookups code io' = lookups code io.
Proof. intros Hreq. unfold lookups. rewrite Hreq. reflexivity. Qed.

(** An entry that no call in flight is about to write stays as it is, and
    no call that starts or goes on awaits its code. *)
Lemma step_keeps_entry (env : Env) (event : Event) (page : Page) (io : Io)
  (code : string) (coords : Coord) :
  bankCoordinatesCache (view page) !! code = Some coords ->
  Forall (fun call => awaited call <> code) (inFlight page) ->
  let page' := fst (step env event page io) in
  bankCoordinatesCache (view page') !! code = Some coords
  /\ Forall (fun call => awaited call <> code) (inFlight page')
  /\ lookups code (snd (step env event page io)) = lookups code io.
Proof.
  intros Hentry Hcalls.
  assert (Hnew : forall (cache : gmap string Coord) (call : Call),
            cache !! code = Some coords ->
            cache !! awaited call = None -> awaited call <> code)
    by (intros cache call H1 H2 E; rewrite E in H2; congruence).
  destruct event as [topFlows | k]; cbn [step].
  - destruct (negb _ || _); [repeat split; assumption |].
    unfold bind.
    pose proof (firstPass_outcome env topFlows (banksOf topFlows) ∅
                  (bankCoordinatesCache (view page)) io) as Hpass.
    pose proof (firstPass_requests env topFlows (banksOf topFlows) ∅
                  (bankCoordinatesCache (view page)) io) as Hreq.
    destruct (firstPass env topFlows (banksOf topFlows) ∅
                (bankCoordinatesCache (view page)) io) as [[bc | call] io1];
      cbn [ret fst snd view inFlight pushLines bankCoordinatesCache].
    + split; [exact Hentry |]. split; [exact Hcalls |].
      apply lookups_same, Hreq.
    + destruct Hpass as (_ & _ & Hmiss & _).
      assert (Hne : awaited call <> code) by (eapply Hnew; eassumption).
      split; [exact Hentry |]. split.
      * apply Forall_app. split; [exact Hcalls |].
        apply Forall_singleton. exact Hne.
      * eapply lookups_other; eassumption.
  - destruct (inFlight page !! k) as [call |] eqn:Hk;
      [| repeat split; assumption].
    assert (Hcall : awaited call <> code).
    { eapply (proj1 (Forall_lookup _ _) Hcalls). exact Hk. }
    unfold bind.
    destruct (settle_cache env (awaited call) (answer call)
                (callCoordinates call) (bankCoordinatesCache (view page)) io)
      as (position & stored & Hsettle).
    pose proof (settle_requests env (awaited call) (answer call)
                  (callCoordinates call, bankCoordinatesCache (view page)) io)
      as Hreq0.
    destruct (settle env (awaited call) (answer call)
                (callCoordinates call, bankCoordinatesCache (view page)) io)
      as [[bc cache] io1].
    cbn [fst snd] in Hsettle, Hreq0. injection Hsettle as -> ->.
    assert (Hentry' : <[awaited call := stored]>
                        (bankCoordinatesCache (view page)) !! code
                      = Some coords)
      by (rewrite lookup_insert_ne by exact Hcall; exact Hentry).
    match goal with
    | |- context [firstPass env ?f ?b ?bc ?c io1] =>
        pose proof (firstPass_outcome env f b bc c io1) as Hpass;
        pose proof (firstPass_requests env f b bc c io1) as Hreq;
        destruct (firstPass env f b bc c io1) as [[bc1 | call'] io2]
    end; cbn [ret fst snd view inFlight pushLines bankCoordinatesCache].
    + split; [exact Hentry' |]. split; [apply Forall_delete; exact Hcalls |].
      rewrite (lookups_same code io1 io2 Hreq). apply lookups_same, Hreq0.
    + destruct Hpass as (_ & _ & Hmiss & _).
      assert (Hne : awaited call' <> code) by (eapply Hnew; eassumption).
      split; [exact Hentry' |]. split.
      * apply Forall_insert; [exact Hcalls | exact Hne].
      * rewrite (lookups_other code (awaited call') io1 io2 Hreq Hne).
        apply lookups_same, Hreq0.
Qed.

(** The same over any sequence of events. *)
Lemma run_keeps_entry (env : Env) (events : list Event) (code : string)
  (coords : Coord) :
  forall (page : Page) (io : Io),
    bankCoordinatesCache (view page) !! code = Some coords ->
    Forall (fun call => awaited call <> code) (inFlight page) ->
    let r := run env events page io in
    bankCoordinatesCache (view (fst r)) !! code = Some coords
    /\ Forall (fun call => awaited call <> code) (inFlight (fst r))
    /\ lookups code (snd r) = lookups code io.
Proof.
  induction events as [| event rest IH]; intros page io Hentry Hcalls;
    [repeat split; assumption |].
  cbn [run]. unfold bind.
  destruct (step_keeps_entry env event page io code coords Hentry Hcalls)
    as (Hentry' & Hcalls' & Hlookups).
  destruct (step env event page io) as [page1 io1]. cbn [fst snd] in *.
  destruct (IH page1 io1 Hentry' Hcalls') as (H1 & H2 & H3).
  repeat split; [exact H1 | exact H2 | congruence].
Qed.

(** No step removes an entry. *)
Lemma step_keeps_key (env : Env) (event : Event) (page : Page) (io : Io)
  (code : string) :
  is_Some (bankCoordinatesCache (view page) !! code) ->
  is_Some (bankCoordinatesCache (view (fst (step env event page io))) !! code).
Proof.
  intros Hentry.
  destruct event as [topFlows | k]; cbn [step].
  - destruct (negb _ || _); [exact Hentry |].
    unfold bind.
    destruct (firstPass env topFlows (banksOf topFlows) ∅
                (bankCoordinatesCache (view page)) io) as [[bc | call] io1];
      exact Hentry.
  - destruct (inFlight page !! k) as [call |]; [| exact Hentry].
    unfold bind.
    destruct (settle_cache env (awaited call) (answer call)
                (callCoordinates call) (bankCoordinatesCache (view page)) io)
      as (position & stored & Hsettle).
    destruct (settle env (awaited call) (answer call)
                (callCoordinates call, bankCoordinatesCache (view page)) io)
      as [[bc cache] io1].
    cbn [fst] in Hsettle. injection Hsettle as -> ->.
    assert (Hentry' : is_Some (<[awaited call := stored]>
                                 (bankCoordinatesCache (view page)) !! code)).
    { destruct (decide (awaited call = code)) as [-> | Hne].
      - rewrite lookup_insert_eq. eauto.
      - rewrite lookup_insert_ne by exact Hne. exact Hentry. }
    match goal with
    | |- context [firstPass env ?f ?b ?bc ?c io1] =>
        destruct (firstPass env f b bc c io1) as [[bc1 | call'] io2]
    end; exact Hentry'.
Qed.

Lemma run_keeps_key (env : Env) (events : list Event) (code : string) :
  forall (page : Page) (io : Io),
    is_Some (bankCoordinatesCache (view page) !! code) ->
    is_Some (bankCoordinatesCache (view (fst (run env events page io))) !! code).
Proof.
  induction events as [| event rest IH]; intros page io Hentry;
    [exact Hentry |].
  cbn [run]. unfold bind.
  pose proof (step_keeps_key env event page io code Hentry) as Hentry'.
  destruct (step env event page io) as [page1 io1].
  apply IH. exact Hentry'.
Qed.

(** *** One lookup for each code and call *)

Lemma lookups_app (code bank : string) (io io' : Io) :
  requests io' = (requests io ++ [bank])%list ->
  lookups code io'
  = (lookups code io + if String.eqb bank code then 1 else 0)%nat.
Proof.
  intros Hreq. unfold lookups. rewrite Hreq, List.filter_app, length_app.
  cbn [List.filter]. destruct (String.eqb bank code); reflexivity.
Qed.

(** A stretch of the first pass requests [code] at most once, and not at
    all when the call has an entry for it; the call that comes to await a
    lookup has then come to [code], or the stretch did not request it. *)
Lemma firstPass_asks (env : Env) (topFlows : list Flow) (code : string)
  (banks : list string) :
  forall (bankCoordinates cache : gmap string Coord) (io : Io),
    match firstPass env topFlows banks bankCoordinates cache io with
    | (inl _, io') => lookups code io' = lookups code io
    | (inr call, io') =>
        (lookups code io' + yetToAsk code call <= lookups code io + 1)%nat
        /\ (is_Some (bankCoordinates !! code) ->
            lookups code io' = lookups code io /\ yetToAsk code call = 0%nat)
    end.
Proof.
  induction banks as [| bank rest IH]; intros bankCoordinates cache io;
    [reflexivity |].
  cbn [firstPass].
  destruct (JsValue.get bankCoordinates bank) eqn:Hget;
    [apply IH | apply IH |].
  assert (Hnone : bankCoordinates !! bank = None).
  { unfold JsValue.get in Hget.
    destruct (bankCoordinates !! bank); [discriminate | reflexivity]. }
  destruct (cache !! bank) as [coords |].
  - unfold bind, mathRandom.
    match goal with
    | |- context [firstPass env topFlows rest ?bc ?c ?i] =>
        specialize (IH bc c i);
        destruct (firstPass env topFlows rest bc c i) as [[bc1 | call] io1]
    end; [exact IH |].
    destruct IH as [Hle Hhas]. split; [exact Hle |].
    intros [v Hv]. apply Hhas.
    destruct (decide (bank = code)) as [-> | Hne].
    + rewrite lookup_insert_eq. eauto.
    + rewrite lookup_insert_ne by exact Hne. eauto.
  - unfold bind.
    destruct (fetchCountryCoordinates env (JsValue.Str bank) io)
      as [coords io1] eqn:Hfetch.
    assert (Hreq : requests io1 = (requests io ++ [bank])%list).
    { rewrite CashFlowAnalysis_fetch in Hfetch. injection Hfetch as _ <-.
      reflexivity. }
    cbn [ret]. rewrite (lookups_app code bank io io1 Hreq).
    unfold yetToAsk. cbn [awaited callCoordinates].
    destruct (String.eqb bank code) eqn:Ecode.
    + apply String.eqb_eq in Ecode. subst bank. split; [lia |].
      intros [v Hv]. congruence.
    + split; [destruct (bankCoordinates !! code); lia |].
      intros [v Hv]. rewrite Hv. split; lia.
Qed.

(** Every event keeps the count: a request of [code] is paid for by the
    call that issues it, which has come to [code] from then on, and a call
    arrives with every update only. *)
Lemma step_asks (env : Env) (event : Event) (page : Page) (io : Io)
  (code : string) :
  let r := step env event page io in
  (lookups code (snd r) + sum_list_with (yetToAsk code) (inFlight (fst r))
   <= lookups code io + sum_list_with (yetToAsk code) (inFlight page)
      + updatesOf [event])%nat.
Proof.
  destruct event as [topFlows | k]; cbn [step updatesOf List.filter length].
  - destruct (negb _ || _); [cbn [ret fst snd]; lia |].
    unfold bind.
    pose proof (firstPass_asks env topFlows code (banksOf topFlows) ∅
                  (bankCoordinatesCache (view page)) io) as Hpass.
    destruct (firstPass env topFlows (banksOf topFlows) ∅
                (bankCoordinatesCache (view page)) io) as [[bc | call] io1];
      cbn [ret fst snd view inFlight].
    + lia.
    + rewrite sum_list_with_app. cbn [sum_list_with]. lia.
  - destruct (inFlight page !! k) as [call |] eqn:Hk;
      [| cbn [ret fst snd]; lia].
    unfold bind.
    destruct (settle_cache env (awaited call) (answer call)
                (callCoordinates call) (bankCoordinatesCache (view page)) io)
      as (position & stored & Hsettle).
    pose proof (settle_requests env (awaited call) (answer call)
                  (callCoordinates call, bankCoordinatesCache (view page)) io)
      as Hreq0.
    destruct (settle env (awaited call) (answer call)
                (callCoordinates call, bankCoordinatesCache (view page)) io)
      as [[bc cache] io1].
    cbn [fst snd] in Hsettle, Hreq0. injection Hsettle as -> ->.
    rewrite <- (lookups_same code io io1 Hreq0).
    assert (Hsplit : inFlight page
                     = (take k (inFlight page) ++ call
                          :: drop (S k) (inFlight page))%list)
      by (symmetry; apply take_drop_middle; exact Hk).
    assert (Hsum : sum_list_with (yetToAsk code) (inFlight page)
                   = (sum_list_with (yetToAsk code) (take k (inFlight page))
                      + (yetToAsk code call
                         + sum_list_with (yetToAsk code)
                             (drop (S k) (inFlight page))))%nat).
    { rewrite Hsplit at 1. rewrite sum_list_with_app. reflexivity. }
    assert (Hcame : yetToAsk code call = 0%nat ->
              is_Some (<[awaited call := position]> (callCoordinates call)
                       !! code)).
    { unfold yetToAsk. intros Hzero.
      destruct (String.eqb (awaited call) code) eqn:Ecode.
      - apply String.eqb_eq in Ecode. rewrite Ecode, lookup_insert_eq. eauto.
      - apply String.eqb_neq in Ecode. rewrite lookup_insert_ne by exact Ecode.
        destruct (callCoordinates call !! code); [eauto | discriminate]. }
    match goal with
    | |- context [firstPass env ?f ?b ?bc ?c io1] =>
        pose proof (firstPass_asks env f code b bc c io1) as Hpass;
        destruct (firstPass env f b bc c io1) as [[bc1 | call'] io2]
    end; cbn [ret fst snd view inFlight].
    + rewrite delete_take_drop, sum_list_with_app. lia.
    + rewrite insert_take_drop by (apply lookup_lt_Some in Hk; exact Hk).
      rewrite sum_list_with_app. cbn [sum_list_with].
      destruct Hpass as [Hle Hhas].
      assert (Hcases : yetToAsk code call = 0%nat \/ yetToAsk code call = 1%nat).
      { unfold yetToAsk. destruct (String.eqb (awaited call) code); [auto |].
        destruct (callCoordinates call !! code); auto. }
      destruct Hcases as [Hzero | Hone].
      * destruct (Hhas (Hcame Hzero)) as [H1 H2]. lia.
      * lia.
Qed.

Lemma updatesOf_cons (event : Event) (events : list Event) :
  updatesOf (event :: events) = (updatesOf [event] + updatesOf events)%nat.
Proof. unfold updatesOf. cbn [List.filter]. destruct event; reflexivity. Qed.

Lemma run_asks (env : Env) (events : list Event) (code : string) :
  forall (page : Page) (io : Io),
    let r := run env events page io in
    (lookups code (snd r) + sum_list_with (yetToAsk code) (inFlight (fst r))
     <= lookups code io + sum_list_with (yetToAsk code) (inFlight page)
        + updatesOf events)%nat.
Proof.
  induction events as [| event rest IH]; intros page io; cbv zeta.
  - cbn [run ret fst snd updatesOf List.filter length]. lia.
  - cbn [run]. unfold bind. rewrite updatesOf_cons.
    pose proof (step_asks env event page io code) as Hstep. cbv zeta in Hstep.
    destruct (step env event page io) as [page1 io1]. cbn [fst snd] in Hstep.
    specialize (IH page1 io1). cbv zeta in IH. lia.
Qed.

(** *** One lookup for each code while updates are awaited *)

(** C2 (as amended).  In the cash-flow view, in a session in which every
    update has finished before the next one starts, whatever the flows are
    and whatever the service answers: no call is left in flight; every code
    is requested at most once; when the service resolved the code, the
    cache holds its answer as it came, without offset; and once a code was
    requested it is served from the cache: resolving it again issues no
    request, and whatever updates and answers follow, awaited or
    overlapping, the code is not requested again.  The resolver of the
    network-analysis view, which keeps no cache, issues a request for a code
    that passes its guard on every call, whatever was requested before, and
    every call of [generateAccountLocations] requests the codes of all its
    nodes afresh. *)
Theorem cash_flow_lookup_at_most_once (env : Env)
  (updates : list (list Flow)) (networkMap : bool) (code : string) :
  let r := run env (awaitedSession updates)
             {| view := mkState networkMap ∅ []; inFlight := [] |} start in
  let cache := bankCoordinatesCache (view (fst r)) in
  inFlight (fst r) = []
  /\ (lookups code (snd r) <= 1)%nat
  /\ (forall n coords,
        requests (snd r) !! n = Some code ->
        Geocoding.readResponse (respond env n code) = Some coords ->
        cache !! code = Some coords)
  /\ (forall bankCoordinates io,
        code ∈ requests (snd r) ->
        requests (snd (resolveBank env code (bankCoordinates, cache) io))
        = requests io)
  /\ (forall events,
        code ∈ requests (snd r) ->
        lookups code (snd (run env events (fst r) (snd r)))
        = lookups code (snd r))
  /\ (forall io,
        NetworkAnalysis.invalidCode (JsValue.Str code) = false ->
        requests (snd (NetworkAnalysis.fetchCountryCoordinates env
                         (JsValue.Str code) io))
        = (requests io ++ [code])%list)
  /\ (forall links nodes io,
        requests (snd (NetworkAnalysis.generateAccountLocations env links
                         nodes io))
        = (requests io ++ NetworkAnalysis.requestedCodes links nodes)%list).
Proof.
  intros r cache. unfold cache, r. clear r cache.
  rewrite awaited_session. cbn [fst snd view inFlight].
  set (r := session env updates (mkState networkMap ∅ []) start).
  assert (Hcov : covers env (bankCoordinatesCache (fst r)) (requests (snd r))).
  { apply (session_covers env updates). split; [apply NoDup_nil_2 |].
    intros n c H. cbn in H. discriminate. }
  split; [reflexivity |]. split; [| split; [| split; [| split; [| split]]]].
  - apply lookups_NoDup. apply Hcov.
  - intros n coords Hn Hresp. destruct Hcov as [_ H].
    apply (H n code Hn). exact Hresp.
  - intros bankCoordinates io Hin.
    destruct (covers_requested _ _ _ _ Hcov Hin) as [coords Hc].
    apply (resolveBank_hit env code coords). exact Hc.
  - intros events Hin.
    destruct (covers_requested _ _ _ _ Hcov Hin) as [coords Hc].
    apply (run_keeps_entry env events code coords); [exact Hc |].
    apply Forall_nil_2.
  - intros io Hvalid. rewrite NetworkAnalysis_fetch_valid by exact Hvalid.
    reflexivity.
  - intros links nodes io. apply generateAccountLocations_requests.
Qed.

Lemma cash_flow_lookup_at_most_once_witness :
  let us_de := mkFlow "US" "DE" 250000 0.5 in
  let de_us := mkFlow "DE" "US" 100000 0.2 in
  let r := run sampleEnv (awaitedSession [[us_de]; [de_us; us_de]])
             {| view := mkState true ∅ []; inFlight := [] |} start in
  requests (snd r) = ["US"; "DE"]
  /\ bankCoordinatesCache (view (fst r)) !! "US"
     = Some {| lat := 38; lng := -97; name := Some "United States" |}.
Proof.
  intros us_de de_us r. split; [vm_compute; reflexivity |].
  apply (cash_flow_lookup_at_most_once sampleEnv [[us_de]; [de_us; us_de]]
           true "US") with (n := 0%nat).
  - vm_compute. reflexivity.
  - reflexivity.
Defined.

(** C2 as stated fails in the network-analysis view: the locations of one
    node with bank code ["US"] are generated twice, as the markers and the
    flows of one update of the map do, and ["US"] is requested both times
    although the first request succeeded. *)
Lemma network_analysis_looks_up_again :
  let node := NetworkAnalysis.mkNode "A" JsValue.Undefined JsValue.Undefined
                (JsValue.Str "US") JsValue.Undefined (Some 0.8) None None in
  let r1 := NetworkAnalysis.generateAccountLocations sampleEnv [] [node] start in
  let r2 := NetworkAnalysis.generateAccountLocations sampleEnv [] [node] (snd r1) in
  Geocoding.failed (respond sampleEnv 0 "US") = false
  /\ requests (snd r1) = ["US"]
  /\ requests (snd r2) = ["US"; "US"]
  /\ lookups "US" (snd r2) = 2%nat.
Proof. vm_compute. repeat split; reflexivity. Qed.

(** Updates that overlap escape the cache.  A second update that starts
    while the first awaits its lookup misses the cache as the first did:
    both request ["US"], then both request ["DE"]; and of two overlapping
    updates with a bank the service does not know, the second to be
    answered replaces the fallback coordinates the first has stored. *)
Lemma overlapping_updates_look_up_twice :
  let us_de := mkFlow "US" "DE" 250000 0.5 in
  let xx := mkFlow "XX" "XX" 250000 0.5 in
  let page := {| view := mkState true ∅ []; inFlight := [] |} in
  let r := run sampleEnv
             [Update [us_de]; Update [us_de];
              Answer 0; Answer 1; Answer 0; Answer 0] page start in
  let r1 := run sampleEnv [Update [xx]; Update [xx]; Answer 0] page start in
  let r2 := run sampleEnv [Answer 0] (fst r1) (snd r1) in
  requests (snd r) = ["US"; "US"; "DE"; "DE"]
  /\ inFlight (fst r) = []
  /\ length (flowLines (view (fst r))) = 2%nat
  /\ bankCoordinatesCache (view (fst r1)) !! "XX"
     = Some {| lat := random sampleEnv 0 * 50 - 25;
               lng := random sampleEnv 1 * 180 - 90;
               name := None |}
  /\ bankCoordinatesCache (view (fst r2)) !! "XX"
     = Some {| lat := random sampleEnv 2 * 50 - 25;
               lng := random sampleEnv 3 * 180 - 90;
               name := None |}.
Proof. vm_compute. repeat split; reflexivity. Qed.

End OverlappingUpdates.


(** ** Stroke widths *)

Section StrokeWidths.
Import NetworkAnalysis.
Local Open Scope R_scope.

Lemma min_monotone (c x y : Q) :
  (x <= y)%Q -> (Js.min c x <= Js.min c y)%Q.
Proof. intros H. unfold Js.min. qcases; lra. Qed.

Lemma max_monotone (c x y : Q) :
  (x <= y)%Q -> (Js.max c x <= Js.max c y)%Q.
Proof. intros H. unfold Js.max. qcases; lra. Qed.

Lemma min_le_l (c x : Q) : (Js.min c x <= c)%Q.
Proof. unfold Js.min. qcases; lra. Qed.

Lemma max_lub (c x hi : Q) :
  (c <= hi)%Q -> (x <= hi)%Q -> (Js.max c x <= hi)%Q.
Proof. intros Hc Hx. unfold Js.max. qcases; lra. Qed.

Lemma div_monotone (a1 a2 d : Q) :
  (0 < d)%Q -> (a1 <= a2)%Q -> (a1 / d <= a2 / d)%Q.
Proof.
  intros Hd H. unfold Qdiv. apply Qmult_le_compat_r; [exact H |].
  apply Qlt_le_weak, Qinv_lt_0_compat, Hd.
Qed.

Lemma drawLinksWidth_range (amount : Q) :
  (2 <= drawLinksWidth amount <= 8)%Q.
Proof.
  unfold drawLinksWidth. split.
  - apply max_spec.
  - apply max_lub; [lra | apply min_le_l].
Qed.

Lemma drawLinksWidth_monotone (a1 a2 : Q) :
  (a1 <= a2)%Q -> (drawLinksWidth a1 <= drawLinksWidth a2)%Q.
Proof.
  intros H. unfold drawLinksWidth.
  apply max_monotone, min_monotone, div_monotone; [reflexivity | exact H].
Qed.

Lemma drawLinksHoverWidth_range (amount : Q) :
  (4 <= drawLinksHoverWidth amount <= 10)%Q.
Proof.
  unfold drawLinksHoverWidth. split.
  - apply max_spec.
  - apply max_lub; [lra | apply min_le_l].
Qed.

Lemma drawLinksHoverWidth_monotone (a1 a2 : Q) :
  (a1 <= a2)%Q -> (drawLinksHoverWidth a1 <= drawLinksHoverWidth a2)%Q.
Proof.
  intros H. unfold drawLinksHoverWidth.
  apply max_monotone, min_monotone, div_monotone; [reflexivity | exact H].
Qed.

Lemma Q2R_monotone_div (a1 a2 : Q) (d : Q) :
  (0 < d)%Q -> (a1 <= a2)%Q -> Q2R (a1 / d) <= Q2R (a2 / d).
Proof.
  intros Hd H. apply Qle_Rle, div_monotone; assumption.
Qed.

(** [Math.sqrt] is a number on what is not negative, and [NaN] below. *)
Lemma sqrt_number (x : Q) : (0 <= x)%Q -> Js.sqrt x = Some (sqrt (Q2R x)).
Proof.
  intros H. unfold Js.sqrt. apply Qle_bool_iff in H. rewrite H. reflexivity.
Qed.

Lemma sqrt_NaN (x : Q) : (x < 0)%Q -> Js.sqrt x = None.
Proof.
  intros H. unfold Js.sqrt. destruct (Qle_bool 0 x) eqn:E; [| reflexivity].
  apply Qle_bool_iff in E. lra.
Qed.

Lemma div_nonneg (a d : Q) : (0 < d)%Q -> (0 <= a)%Q -> (0 <= a / d)%Q.
Proof.
  intros Hd Ha. apply Qle_shift_div_l; [exact Hd | lra].
Qed.

Lemma flowWeight_number (amount : Q) :
  (0 <= amount)%Q ->
  flowWeight amount = Some (Rmax 3 (sqrt (Q2R (amount / 100000)))).
Proof.
  intros H. unfold flowWeight.
  rewrite sqrt_number by (apply div_nonneg; [reflexivity | exact H]).
  reflexivity.
Qed.

Lemma clamp18 (x : R) : 1 <= Rmax 1 (Rmin 8 x) <= 8.
Proof.
  split; [apply Rmax_l |].
  apply Rmax_lub; [Lra.lra | apply Rmin_l].
Qed.

Lemma clamp18_monotone (x y : R) :
  x <= y -> Rmax 1 (Rmin 8 x) <= Rmax 1 (Rmin 8 y).
Proof.
  intros H. apply Rle_max_compat_l, Rle_min_compat_l, H.
Qed.

(** [getEdgeWidth] is a number between 1 and 8 for a link whose amount is
    not negative, under every metric. *)
Lemma getEdgeWidth_range (link : Link) (metric : string) :
  (0 <= amount link)%Q ->
  exists w, getEdgeWidth link metric = Some w /\ 1 <= w <= 8.
Proof.
  intros H. unfold getEdgeWidth.
  destruct (String.eqb metric "transaction_count");
    [eexists; split; [reflexivity | apply clamp18] |].
  destruct (String.eqb metric "risk_score");
    [eexists; split; [reflexivity | apply clamp18] |].
  rewrite sqrt_number by (apply div_nonneg; [reflexivity | exact H]).
  eexists. split; [reflexivity | apply clamp18].
Qed.

(** The weight of a flow on the map exceeds every bound. *)
Lemma flowWeight_unbounded (hi : R) :
  exists (amount : Q) (w : R),
    (0 <= amount)%Q /\ flowWeight amount = Some w /\ hi < w.
Proof.
  destruct (archimed hi) as [Hup _].
  set (k := Z.max (up hi) 1).
  assert (Hk : IZR (up hi) <= IZR k) by (apply IZR_le; lia).
  assert (Hk1 : 1 <= IZR k) by (apply IZR_le; lia).
  assert (Hpos : (0 <= 100000 * inject_Z (k * k))%Q).
  { change 0%Q with (100000 * 0)%Q.
    apply Qmult_le_l; [reflexivity |].
    change 0%Q with (inject_Z 0). rewrite <- Zle_Qle. nia. }
  exists (100000 * inject_Z (k * k))%Q. eexists.
  split; [exact Hpos |]. split; [apply flowWeight_number, Hpos |].
  assert (E : Q2R (100000 * inject_Z (k * k) / 100000) = IZR k * IZR k).
  { rewrite <- mult_IZR.
    transitivity (Q2R (inject_Z (k * k))).
    - apply Qeq_eqR. field.
    - unfold Q2R. cbn [Qnum Qden inject_Z]. Lra.lra. }
  rewrite E, sqrt_square by Lra.lra.
  apply Rlt_le_trans with (IZR k); [Lra.lra | apply Rmax_r].
Qed.

(** C5 (as amended).  Of two links the one with the larger amount (amounts
    not negative) has the larger or the same stroke width wherever the width
    is computed from the amount: in the graph view the width [drawLinks]
    gives a link at rest, the width it gives the link under the pointer and
    [getEdgeWidth] under every metric but [risk_score]; on the map the weight
    of the polyline.  In the graph view each of these widths is a number of
    a fixed range: 2 to 8 at rest, 4 to 10 under the pointer, 1 to 8 for
    [getEdgeWidth] under every metric, [risk_score] included.  The weight of
    a flow on the map is a number of at least 3 and has no upper bound. *)
Theorem stroke_width_monotone (l1 l2 : Link) (metric : string) :
  (0 <= amount l1)%Q ->
  (amount l1 <= amount l2)%Q ->
  ((drawLinksWidth (amount l1) <= drawLinksWidth (amount l2))%Q
   /\ (2 <= drawLinksWidth (amount l1) <= 8)%Q
   /\ (2 <= drawLinksWidth (amount l2) <= 8)%Q)
  /\ ((drawLinksHoverWidth (amount l1) <= drawLinksHoverWidth (amount l2))%Q
      /\ (4 <= drawLinksHoverWidth (amount l1) <= 10)%Q
      /\ (4 <= drawLinksHoverWidth (amount l2) <= 10)%Q)
  /\ (exists w1 w2,
        getEdgeWidth l1 metric = Some w1 /\ getEdgeWidth l2 metric = Some w2
        /\ 1 <= w1 <= 8 /\ 1 <= w2 <= 8
        /\ (metric <> "risk_score"%string -> w1 <= w2))
  /\ (exists w1 w2,
        flowWeight (amount l1) = Some w1 /\ flowWeight (amount l2) = Some w2
        /\ w1 <= w2 /\ 3 <= w1)
  /\ (forall hi, exists (amount : Q) (w : R),
        (0 <= amount)%Q /\ flowWeight amount = Some w /\ hi < w).
Proof.
  intros H0 H.
  assert (H2 : (0 <= amount l2)%Q) by lra.
  split; [| split; [| split; [| split]]].
  - split; [apply drawLinksWidth_monotone, H |].
    split; apply drawLinksWidth_range.
  - split; [apply drawLinksHoverWidth_monotone, H |].
    split; apply drawLinksHoverWidth_range.
  - destruct (getEdgeWidth_range l1 metric H0) as (w1 & E1 & R1).
    destruct (getEdgeWidth_range l2 metric H2) as (w2 & E2 & R2).
    exists w1, w2. repeat (split; [assumption |]).
    intros Hmetric. revert E1 E2. unfold getEdgeWidth.
    destruct (String.eqb metric "transaction_count");
      [intros [= <-] [= <-]; Lra.lra |].
    destruct (String.eqb metric "risk_score") eqn:E;
      [apply String.eqb_eq in E; contradiction |].
    rewrite !sqrt_number by (apply div_nonneg; [reflexivity | assumption]).
    intros [= <-] [= <-].
    apply clamp18_monotone, sqrt_le_1_alt, Q2R_monotone_div;
      [reflexivity | exact H].
  - eexists. eexists.
    split; [apply flowWeight_number, H0 |].
    split; [apply flowWeight_number, H2 |].
    split; [| apply Rmax_l].
    apply Rle_max_compat_l, sqrt_le_1_alt, Q2R_monotone_div;
      [reflexivity | exact H].
  - apply flowWeight_unbounded.
Qed.

Lemma stroke_width_monotone_witness :
  let l1 := mkLink "A" "B" 1000000 0.8 JsValue.Undefined JsValue.Undefined in
  let l2 := mkLink "B" "C" 4000000 0.2 JsValue.Undefined JsValue.Undefined in
  (drawLinksHoverWidth (amount l1) <= drawLinksHoverWidth (amount l2))%Q
  /\ (exists w1 w2,
        getEdgeWidth l1 "risk_score" = Some w1
        /\ getEdgeWidth l2 "risk_score" = Some w2
        /\ 1 <= w1 <= 8 /\ 1 <= w2 <= 8)
  /\ (exists w1 w2,
        flowWeight (amount l1) = Some w1 /\ flowWeight (amount l2) = Some w2
        /\ w1 <= w2 /\ 3 <= w1).
Proof.
  intros l1 l2.
  assert (H0 : (0 <= amount l1)%Q) by (unfold Qle; cbn; lia).
  assert (H : (amount l1 <= amount l2)%Q) by (unfold Qle; cbn; lia).
  destruct (stroke_width_monotone l1 l2 "risk_score" H0 H)
    as (_ & (Hhover & _) & (w1 & w2 & E1 & E2 & R1 & R2 & _) & Hflow & _).
  split; [exact Hhover |]. split; [| exact Hflow].
  exists w1, w2. repeat split; tauto.
Defined.

(** C5 as stated fails on the map: no fixed range holds the weight of every
    flow, the weight of a flow of 100 million exceeds the largest width of
    the graph view; and under the metric [risk_score] the width of
    [getEdgeWidth] follows the risk, not the amount. *)
Lemma flow_weight_not_clamped :
  ~ (exists lo hi : R,
       forall (amount : Q) (w : R),
         (0 <= amount)%Q -> flowWeight amount = Some w -> lo <= w <= hi)
  /\ (exists w, flowWeight 100000000 = Some w /\ 10 < w)
  /\ (let l1 := mkLink "A" "B" 1000000 0.9 JsValue.Undefined JsValue.Undefined in
      let l2 := mkLink "B" "C" 4000000 0.2 JsValue.Undefined JsValue.Undefined in
      (amount l1 <= amount l2)%Q
      /\ getEdgeWidth l1 "risk_score" = Some 8
      /\ getEdgeWidth l2 "risk_score" = Some 2).
Proof.
  split; [| split].
  - intros (lo & hi & Hrange).
    destruct (flowWeight_unbounded hi) as (amount & w & Hpos & Hw & Hbig).
    destruct (Hrange amount w Hpos Hw) as [_ Hle]. Lra.lra.
  - eexists. split; [apply flowWeight_number; unfold Qle; cbn; lia |].
    apply Rlt_le_trans with (sqrt (Q2R (100000000 / 100000)));
      [| apply Rmax_r].
    replace 10 with (sqrt (10 * 10)) by (apply sqrt_square; Lra.lra).
    apply sqrt_lt_1_alt. split; [Lra.lra |].
    replace (Q2R (100000000 / 100000)) with (Q2R (inject_Z 1000))
      by (apply Qeq_eqR; reflexivity).
    unfold Q2R. cbn [Qnum Qden inject_Z]. Lra.lra.
  - cbv zeta. split; [unfold Qle; cbn; lia |].
    unfold getEdgeWidth. cbn [String.eqb risk_score Ascii.eqb Bool.eqb].
    replace (Q2R 0.2 * 10) with 2 by (unfold Q2R; cbn [Qnum Qden]; Lra.lra).
    replace (Q2R 0.9 * 10) with 9 by (unfold Q2R; cbn [Qnum Qden]; Lra.lra).
    rewrite (Rmin_right 8 2), (Rmin_left 8 9) by Lra.lra.
    rewrite (Rmax_right 1 2), (Rmax_right 1 8) by Lra.lra.
    split; reflexivity.
Qed.

End StrokeWidths.

(** ** Self-flows *)

Section SelfFlows.
Import Effects.

Lemma samePoint_refl (p : Q * Q) : Leaflet.samePoint p p = true.
Proof.
  unfold Leaflet.samePoint. rewrite !Qeq_bool_refl. reflexivity.
Qed.

(** In the cash-flow view a flow of a bank to itself is a circle around the
    bank, of a radius between 5 and 15 km. *)
Lemma cash_flow_self_flow_is_loop (fromCoords toCoords : Coord)
  (flow : CashFlowAnalysis.Flow) :
  CashFlowAnalysis.from_bank flow = CashFlowAnalysis.to_bank flow ->
  Leaflet.isLoopAt (lat fromCoords, lng fromCoords)
    (Leaflet.shape (CashFlowAnalysis.flowLine fromCoords toCoords flow)) = true
  /\ Leaflet.zeroLength
       (Leaflet.shape (CashFlowAnalysis.flowLine fromCoords toCoords flow)) = false.
Proof.
  intros Hself. unfold CashFlowAnalysis.flowLine.
  rewrite Hself, String.eqb_refl. cbn [Leaflet.shape].
  set (radius := CashFlowAnalysis.clamp _ 5 15).
  assert (Hr : 5 <= radius).
  { unfold radius, CashFlowAnalysis.clamp, Js.min.
    pose proof (max_spec (CashFlowAnalysis.amount flow / 100000) 5) as [_ H5].
    qcases; lra. }
  assert (Hpos : Qle_bool (radius * 1000) 0 = false).
  { apply not_true_iff_false. rewrite Qle_bool_iff. lra. }
  unfold Leaflet.isLoopAt, Leaflet.zeroLength.
  rewrite samePoint_refl, Hpos. split; reflexivity.
Qed.

(** On the world map of the network-analysis view a flow both ends of
    which are at the same location is a polyline of two equal points. *)
Lemma drawFlow_same_location (c : Coord) (link : NetworkAnalysis.Link) :
  exists line loop,
    NetworkAnalysis.drawFlow (NetworkAnalysis.Located c)
      (NetworkAnalysis.Located c) link = NetworkAnalysis.Drawn line loop
    /\ Leaflet.shape line = Leaflet.Polyline [(lat c, lng c); (lat c, lng c)]
    /\ Leaflet.zeroLength (Leaflet.shape line) = true
    /\ Leaflet.isLoopAt (lat c, lng c) (Leaflet.shape line) = false.
Proof.
  eexists. eexists. split; [reflexivity |].
  cbn [Leaflet.shape]. split; [reflexivity |]. split; [| reflexivity].
  cbn [Leaflet.zeroLength forallb]. rewrite samePoint_refl. reflexivity.
Qed.

(** A link from a node to itself that carries no bank codes gets both ends
    from the one entry of [locationMap]. *)
Lemma self_flow_round (env : Env) (locationMap : gmap string Coord)
  (link : NetworkAnalysis.Link) (c : Coord) (io : Io) :
  NetworkAnalysis.source link = NetworkAnalysis.target link ->
  NetworkAnalysis.isBankCode (NetworkAnalysis.from_bank link) = false ->
  NetworkAnalysis.isBankCode (NetworkAnalysis.to_bank link) = false ->
  locationMap !! NetworkAnalysis.source link = Some c ->
  NetworkAnalysis.flowRound env locationMap link io =
    (NetworkAnalysis.drawFlow (NetworkAnalysis.Located c)
       (NetworkAnalysis.Located c) link, io).
Proof.
  intros Hself Hfrom Hto Hc.
  unfold NetworkAnalysis.flowRound, NetworkAnalysis.bankLocation, bind, ret.
  rewrite Hfrom, Hto. unfold NetworkAnalysis.endpoint, JsValue.get.
  rewrite <- Hself, Hc. reflexivity.
Qed.

(** C6.  A flow from account A to itself, both banks in the United States:
    the location of the bank is resolved, and the world map of the
    network-analysis view draws the flow as a polyline whose two points
    coincide, not as a loop around the point. *)
Theorem self_flow_drawn_without_extent :
  let node := NetworkAnalysis.mkNode "A" JsValue.Undefined JsValue.Undefined
                JsValue.Undefined JsValue.Undefined (Some 0.5) None None in
  let link := NetworkAnalysis.mkLink "A" "A" 1000000 0.5
                (JsValue.Str "US") (JsValue.Str "US") in
  let this := NetworkAnalysis.mkMapState NetworkAnalysis.MapView true [] ∅ [] in
  let r := NetworkAnalysis.addTransactionFlows sampleEnv [node] [link] this start in
  List.map Leaflet.shape (NetworkAnalysis.mapLines (fst r))
    = [Leaflet.Polyline [(38, -97); (38, -97)]]
  /\ List.map (fun line => Leaflet.zeroLength (Leaflet.shape line))
       (NetworkAnalysis.mapLines (fst r)) = [true]
  /\ List.map (fun line => Leaflet.isLoopAt (38, -97) (Leaflet.shape line))
       (NetworkAnalysis.mapLines (fst r)) = [false].
Proof. vm_compute. repeat split; reflexivity. Qed.

End SelfFlows.

(** ** Animation loops *)

Section Animations.
Import Effects.

(** *** The network-analysis view *)

Lemma animateDots_stops (this : NetworkAnalysis.MapState)
  (loop : Dots.DotLoop) :
  NetworkAnalysis.currentView this = NetworkAnalysis.D3
  \/ NetworkAnalysis.worldMap this = false
  \/ Dots.flowId loop ∉ NetworkAnalysis.activeAnimations this ->
  NetworkAnalysis.animateDots this loop = (loop, false).
Proof.
  unfold NetworkAnalysis.animateDots. intros [H | [H | H]].
  - rewrite H. reflexivity.
  - rewrite H. destruct (NetworkAnalysis.currentView this); reflexivity.
  - destruct (NetworkAnalysis.currentView this); [reflexivity |].
    rewrite bool_decide_eq_false_2 by exact H.
    rewrite andb_false_r. reflexivity.
Qed.

Lemma drawFlow_key (src tgt : NetworkAnalysis.Endpoint)
  (link : NetworkAnalysis.Link) (line : Leaflet.Layer) (loop : Dots.DotLoop) :
  NetworkAnalysis.drawFlow src tgt link = NetworkAnalysis.Drawn line loop ->
  Dots.flowId loop = NetworkAnalysis.flowKey link.
Proof.
  unfold NetworkAnalysis.drawFlow.
  destruct src, tgt; intros [=]; subst; reflexivity.
Qed.

Lemma flowRounds_keys (env : Env) (locationMap : gmap string Coord)
  (links : list NetworkAnalysis.Link) (this : NetworkAnalysis.MapState)
  (io : Io) (key : string) :
  key ∈ NetworkAnalysis.activeAnimations
          (fst (NetworkAnalysis.flowRounds env locationMap links this io)) ->
  key ∈ NetworkAnalysis.activeAnimations this
  \/ exists link, link ∈ links /\ key = NetworkAnalysis.flowKey link.
Proof.
  revert this io. induction links as [| link rest IH]; intros this io Hkey.
  - left. exact Hkey.
  - cbn [NetworkAnalysis.flowRounds] in Hkey. unfold bind in Hkey.
    destruct (NetworkAnalysis.flowRound env locationMap link io)
      as [round io1] eqn:Hround.
    destruct round as [| line loop |].
    + destruct (IH _ _ Hkey) as [H | (l & Hl & Hk)]; [left; exact H |].
      right. exists l. split; [right; exact Hl | exact Hk].
    + destruct (IH _ _ Hkey) as [H | (l & Hl & Hk)].
      * cbn [NetworkAnalysis.activeAnimations] in H.
        apply elem_of_union in H as [H | H]; [| left; exact H].
        apply elem_of_singleton in H. right. exists link.
        split; [left |]. rewrite H.
        unfold NetworkAnalysis.flowRound, bind, ret in Hround.
        destruct (NetworkAnalysis.bankLocation env _ io) as [src io2].
        destruct (NetworkAnalysis.bankLocation env _ io2) as [tgt io3].
        injection Hround as Hdraw _.
        apply (drawFlow_key _ _ _ _ _ Hdraw).
      * right. exists l. split; [right; exact Hl | exact Hk].
    + left. exact Hkey.
Qed.

(** After a reload of the map, a loop whose key is the key of none of the
    links returns at its next frame without asking for another one. *)
Lemma reload_stops_removed_flow (env : Env)
  (nodes : list NetworkAnalysis.Node) (links : list NetworkAnalysis.Link)
  (this : NetworkAnalysis.MapState) (io : Io) (loop : Dots.DotLoop) :
  (forall link, link ∈ links -> Dots.flowId loop <> NetworkAnalysis.flowKey link) ->
  NetworkAnalysis.animateDots
    (fst (NetworkAnalysis.addTransactionFlows env nodes links
            (NetworkAnalysis.clearMapMarkers this) io)) loop
  = (loop, false).
Proof.
  intros Hgone. apply animateDots_stops. right. right. intros Hin.
  unfold NetworkAnalysis.addTransactionFlows in Hin.
  destruct links as [| link rest].
  - cbn in Hin. apply elem_of_empty in Hin. exact Hin.
  - unfold bind in Hin.
    destruct (NetworkAnalysis.generateAccountLocations env (link :: rest) nodes io)
      as [locations io1].
    apply flowRounds_keys in Hin as [H | (l & Hl & Hk)].
    + cbn in H. apply elem_of_empty in H. exact H.
    + apply (Hgone l Hl Hk).
Qed.

(** *** The dashboard *)

Lemma Dashboard_interpolatePath_total (path : list (Q * Q)) (t : Q) :
  length path = 3%nat -> 0 <= t <= 1 ->
  is_Some (Dashboard.interpolatePath path t).
Proof.
  intros Hlen [H0 H1]. unfold Dashboard.interpolatePath. rewrite Hlen.
  change (Z.of_nat 3 - 1)%Z with 2%Z.
  set (idx := Qfloor (t * inject_Z 2)).
  assert (Hidx : (0 <= idx <= 2)%Z).
  { assert (Hlo : (Qfloor (inject_Z 0) <= idx)%Z).
    { apply Qfloor_resp_le.
      change (inject_Z 0) with 0. change (inject_Z 2) with 2. lra. }
    assert (Hhi : (idx <= Qfloor (inject_Z 2))%Z).
    { apply Qfloor_resp_le. change (inject_Z 2) with 2. lra. }
    rewrite Qfloor_Z in Hlo, Hhi. lia. }
  destruct path as [| p0 [| p1 [| p2 [| p3 rest]]]]; try discriminate Hlen.
  assert (Hcases : idx = 0%Z \/ idx = 1%Z \/ idx = 2%Z) by lia.
  destruct Hcases as [-> | [-> | ->]]; cbn; eauto.
Qed.

Lemma Dashboard_animateDots_running (loop : Dots.DotLoop) :
  Dashboard.running loop ->
  exists loop',
    Dashboard.animateDots loop = Some loop'
    /\ Dashboard.running loop'
    /\ Dots.flowId loop' = Dots.flowId loop.
Proof.
  intros [Hlen Hoff]. unfold Dashboard.animateDots.
  assert (Hadv : Forall (fun offset => 0 <= offset <= 1)
                   (List.map Dots.advance (Dots.offsets loop))).
  { apply List.Forall_map. revert Hoff. apply List.Forall_impl.
    intros offset. apply advance_range. }
  assert (Hall : forallb
            (fun t => bool_decide (is_Some (Dashboard.interpolatePath (Dots.path loop) t)))
            (List.map Dots.advance (Dots.offsets loop)) = true).
  { apply forallb_forall. intros t Ht.
    apply bool_decide_eq_true_2, Dashboard_interpolatePath_total;
      [exact Hlen |].
    rewrite List.Forall_forall in Hadv. apply Hadv, Ht. }
  rewrite Hall. eexists. split; [reflexivity |].
  split; [split; assumption | reflexivity].
Qed.

(** A frame stops none of the loops. *)
Lemma runPending_keeps (pending : list Dots.DotLoop) :
  Forall Dashboard.running pending ->
  Forall Dashboard.running (Dashboard.runPending pending)
  /\ List.map Dots.flowId (Dashboard.runPending pending)
     = List.map Dots.flowId pending.
Proof.
  induction 1 as [| loop rest Hloop Hrest [IH1 IH2]]; cbn.
  - split; [constructor | reflexivity].
  - destruct (Dashboard_animateDots_running loop Hloop)
      as (loop' & -> & Hrun & Hid).
    cbn. split; [constructor; assumption |]. rewrite Hid, IH2. reflexivity.
Qed.

Lemma frames_keep (n : nat) (this : Dashboard.State) :
  Forall Dashboard.running (Dashboard.pending this) ->
  List.map Dots.flowId (Dashboard.pending (Dashboard.frames n this))
  = List.map Dots.flowId (Dashboard.pending this).
Proof.
  revert this. induction n as [| n IH]; intros this Hrun; [reflexivity |].
  cbn [Dashboard.frames].
  destruct (runPending_keeps _ Hrun) as [Hrun' Hids].
  rewrite IH by exact Hrun'. exact Hids.
Qed.

(** Drawing a new dataset adds loops and stops none. *)
Lemma drawFlows_keeps (amlNodes : list Dashboard.Node)
  (amlFlows : list Dashboard.Flow) (pending : list Dots.DotLoop) :
  Forall Dashboard.running pending ->
  Forall Dashboard.running (Dashboard.drawFlows amlNodes amlFlows pending)
  /\ exists added,
       List.map Dots.flowId (Dashboard.drawFlows amlNodes amlFlows pending)
       = (List.map Dots.flowId pending ++ added)%list.
Proof.
  revert pending. induction amlFlows as [| flow rest IH]; intros pending Hrun.
  - cbn. split; [exact Hrun |]. exists []. rewrite app_nil_r. reflexivity.
  - cbn [Dashboard.drawFlows].
    destruct (Dashboard.findNode amlNodes (Dashboard.source flow)) as [src |];
      [| apply IH, Hrun].
    destruct (Dashboard.findNode amlNodes (Dashboard.target flow)) as [tgt |];
      [| apply IH, Hrun].
    assert (Hnew : Dashboard.running (Dashboard.loopOf src tgt flow)).
    { split; [reflexivity | apply initialOffsets_range]. }
    destruct (Dashboard_animateDots_running _ Hnew) as (loop & -> & Hloop & _).
    destruct (IH (pending ++ [loop])%list) as [Hrun' [added Hids]].
    { apply Forall_app. split; [exact Hrun | constructor; [exact Hloop | constructor]]. }
    split; [exact Hrun' |].
    exists (Dots.flowId loop :: added).
    rewrite Hids, List.map_app, <- app_assoc. reflexivity.
Qed.

(** No reload and no number of frames ends a loop of the dashboard: the
    keys of the loops that were pending before stay at the head of the
    pending ones. *)
Lemma dashboard_loops_never_stop (data : Dashboard.Data)
  (this : Dashboard.State) (n : nat) :
  Forall Dashboard.running (Dashboard.pending this) ->
  exists added,
    List.map Dots.flowId
      (Dashboard.pending
         (Dashboard.frames n
            (Dashboard.updateEnhancedMap data
               (Dashboard.cleanupMapAnimations this))))
    = (List.map Dots.flowId (Dashboard.pending this) ++ added)%list.
Proof.
  intros Hrun. unfold Dashboard.cleanupMapAnimations, Dashboard.updateEnhancedMap.
  destruct (Dashboard.map this) eqn:Hmap.
  - destruct (drawFlows_keeps (Dashboard.nodes data) (Dashboard.flows data)
                _ Hrun) as [Hrun' [added Hids]].
    exists added. rewrite frames_keep by exact Hrun'. exact Hids.
  - exists []. rewrite frames_keep by exact Hrun.
    rewrite app_nil_r. reflexivity.
Qed.

(** C7.  The dashboard shows the flow from A to B, then the data is
    reloaded without any flow: the loop of the flow A to B asks for its next
    frame after every frame, however many frames go by, although its edge is
    gone. *)
Theorem dashboard_loop_outlives_its_edge (n : nat) :
  let a := Dashboard.mkNode "A" 10 20 0.5 in
  let b := Dashboard.mkNode "B" 30 40 0.5 in
  let loaded := Dashboard.updateEnhancedMap
                  (Dashboard.mkData [a; b] [Dashboard.mkFlow "A" "B" 1000000 0.8])
                  (Dashboard.mkState true []) in
  let reloaded := Dashboard.updateEnhancedMap (Dashboard.mkData [a; b] [])
                    (Dashboard.cleanupMapAnimations loaded) in
  List.map Dots.flowId (Dashboard.pending (Dashboard.frames n reloaded)) = ["A|B"].
Proof.
  intros a b loaded reloaded.
  assert (Hrun : Forall Dashboard.running (Dashboard.pending loaded)).
  { apply (drawFlows_keeps [a; b] [Dashboard.mkFlow "A" "B" 1000000 0.8] []).
    constructor. }
  assert (Hrun' : Forall Dashboard.running (Dashboard.pending reloaded))
    by exact Hrun.
  rewrite frames_keep by exact Hrun'. reflexivity.
Qed.

End Animations.

(** ** The tiered layout *)

Section Layout.
Import NetworkAnalysis.

Lemma placeLevel_notin (xStep y : Q) (level : list nat) :
  forall (nodeIndex : nat) (nodes : list Node) (i : nat),
    i ∉ level ->
    placeLevel xStep y nodeIndex level nodes !! i = nodes !! i.
Proof.
  induction level as [| i0 rest IH]; intros nodeIndex nodes i Hnotin;
    [reflexivity |].
  cbn [placeLevel]. rewrite IH.
  - apply list_lookup_alter_ne. intros ->. apply Hnotin. left.
  - intros H. apply Hnotin. right. exact H.
Qed.

Lemma placeLevel_in (xStep y : Q) (level : list nat) :
  forall (nodeIndex : nat) (nodes : list Node) (j i : nat) (node : Node),
    NoDup level ->
    level !! j = Some i ->
    nodes !! i = Some node ->
    placeLevel xStep y nodeIndex level nodes !! i =
      Some (setPosition (xStep * inject_Z (Z.of_nat (nodeIndex + j + 1))) y node).
Proof.
  induction level as [| i0 rest IH]; intros nodeIndex nodes j i node Hnodup Hj Hnode;
    [discriminate |].
  apply NoDup_cons in Hnodup as [Hnotin Hnodup].
  cbn [placeLevel]. destruct j as [| j].
  - injection Hj as ->. rewrite placeLevel_notin by exact Hnotin.
    rewrite list_lookup_alter_eq, Hnode, Nat.add_0_r. reflexivity.
  - cbn in Hj.
    assert (Hne : i0 <> i).
    { intros ->. apply Hnotin. apply list_elem_of_lookup. eauto. }
    rewrite (IH (S nodeIndex) _ j i node Hnodup Hj).
    + replace (S nodeIndex + j + 1)%nat with (nodeIndex + S j + 1)%nat by lia.
      reflexivity.
    + rewrite list_lookup_alter_ne by exact Hne. exact Hnode.
Qed.

Lemma placeLevels_notin (width levelHeight : Q) (levels : list (list nat)) :
  forall (levelIndex : nat) (nodes : list Node) (i : nat),
    (forall level, level ∈ levels -> i ∉ level) ->
    placeLevels width levelHeight levelIndex levels nodes !! i = nodes !! i.
Proof.
  induction levels as [| level rest IH]; intros levelIndex nodes i Hnotin;
    [reflexivity |].
  cbn [placeLevels]. rewrite IH.
  - apply placeLevel_notin. apply Hnotin. left.
  - intros level' H. apply Hnotin. right. exact H.
Qed.

Lemma placeLevels_in (width levelHeight : Q) (levels : list (list nat)) :
  forall (levelIndex : nat) (nodes : list Node) (m : nat) (level : list nat)
         (j i : nat) (node : Node),
    levels !! m = Some level ->
    level !! j = Some i ->
    nodes !! i = Some node ->
    NoDup level ->
    (forall m' level', m' <> m -> levels !! m' = Some level' -> i ∉ level') ->
    placeLevels width levelHeight levelIndex levels nodes !! i =
      Some (setPosition
              (width / inject_Z (Z.of_nat (length level + 1))
               * inject_Z (Z.of_nat (j + 1)))
              (levelHeight * inject_Z (Z.of_nat (levelIndex + m + 1)))
              node).
Proof.
  induction levels as [| level0 rest IH];
    intros levelIndex nodes m level j i node Hm Hj Hnode Hnodup Hothers;
    [discriminate |].
  cbn [placeLevels]. destruct m as [| m].
  - injection Hm as ->. rewrite placeLevels_notin.
    + rewrite (placeLevel_in _ _ level 0 nodes j i node Hnodup Hj Hnode).
      rewrite Nat.add_0_r. reflexivity.
    + intros level' Hin. apply list_elem_of_lookup in Hin as [m' Hm'].
      apply (Hothers (S m') level'); [discriminate | exact Hm'].
  - cbn in Hm.
    rewrite (IH (S levelIndex) _ m level j i node Hm Hj).
    + replace (S levelIndex + m + 1)%nat with (levelIndex + S m + 1)%nat by lia.
      reflexivity.
    + rewrite placeLevel_notin; [exact Hnode |].
      apply (Hothers 0%nat level0); [discriminate | reflexivity].
    + exact Hnodup.
    + intros m' level' Hne Hm'.
      apply (Hothers (S m') level'); [congruence | exact Hm'].
Qed.

Lemma filterNodes_spec (p : Q -> bool) (nodes : list Node) (i : nat) :
  i ∈ filterNodes p nodes <->
  exists node, nodes !! i = Some node /\ passes p node = true.
Proof.
  unfold filterNodes. rewrite list_elem_of_In, List.filter_In, List.in_seq.
  split.
  - intros [_ H]. destruct (nodes !! i) as [node |]; [eauto | discriminate].
  - intros (node & Hnode & Hp). rewrite Hnode. split; [| exact Hp].
    apply lookup_lt_Some in Hnode. lia.
Qed.

Lemma filterNodes_NoDup (p : Q -> bool) (nodes : list Node) :
  NoDup (filterNodes p nodes).
Proof.
  unfold filterNodes. apply NoDup_ListNoDup, List.NoDup_filter, List.seq_NoDup.
Qed.

(** Where a member of a band is put: the bands are one quarter of the
    height apart, the members of a band one step apart, the step being the
    width divided by their number plus one. *)
Lemma layout_position (width height : Q) (nodes : list Node)
  (m : nat) (level : list nat) (j i : nat) :
  levels nodes !! m = Some level ->
  level !! j = Some i ->
  exists node,
    nodes !! i = Some node /\
    applyHierarchicalLayout width height nodes !! i =
      Some (setPosition
              (width / inject_Z (Z.of_nat (length level + 1))
               * inject_Z (Z.of_nat (j + 1)))
              (height / 4 * inject_Z (Z.of_nat (m + 1)))
              node).
Proof.
  intros Hm Hj.
  assert (Hin : i ∈ level) by (apply list_elem_of_lookup; eauto).
  assert (Hband : forall m' level', levels nodes !! m' = Some level' ->
            NoDup level' /\
            forall i', i' ∈ level' ->
              exists node score,
                nodes !! i' = Some node /\ avg_risk_score node = Some score /\
                Some (NetworkAnalysis_tiers.layoutTier score)
                = [Some High; Some Medium; Some Low] !! m').
  { intros m' level' Hm'. unfold levels in Hm'.
    destruct m' as [| [| [| m']]]; try discriminate Hm';
      injection Hm' as <-; (split; [apply filterNodes_NoDup |]);
      intros i' Hi'; apply filterNodes_spec in Hi' as (node & Hnode & Hp);
      unfold passes in Hp;
      destruct (avg_risk_score node) as [score |] eqn:Hscore;
      try discriminate Hp;
      exists node, score; (split; [exact Hnode |]); (split; [exact Hscore |]);
      unfold NetworkAnalysis_tiers.layoutTier;
      destruct (layout_split_exhaustive score)
        as [(H1 & H2 & H3) | [(H1 & H2 & H3) | (H1 & H2 & H3)]];
      rewrite ?H1, ?H2, ?H3; try reflexivity; congruence. }
  destruct (Hband m level Hm) as [Hnodup Hmem].
  destruct (Hmem i Hin) as (node & score & Hnode & Hscore & Htier).
  exists node. split; [exact Hnode |].
  unfold applyHierarchicalLayout.
  apply (placeLevels_in width (height / 4) (levels nodes) 0 nodes m level j i node
           Hm Hj Hnode Hnodup).
  intros m' level' Hne Hm' Hin'.
  destruct (Hband m' level' Hm') as [_ Hmem'].
  destruct (Hmem' i Hin') as (node' & score' & Hnode' & Hscore' & Htier').
  assert (node' = node) by congruence. subst node'.
  assert (score' = score) by congruence. subst score'.
  rewrite Htier in Htier'.
  destruct m as [| [| [| m]]], m' as [| [| [| m']]];
    try discriminate Htier'; try congruence;
    unfold levels in Hm, Hm'; discriminate.
Qed.

(** C8.  With risk scores 0.8, 0.5 and 0.1 the tiered layout puts A in the
    high band, B in the medium band and C in the low band: it sets their
    [fy] to one, two and three quarters of the height, three different
    y-coordinates when the canvas has a height, and the [fx] of each, alone
    in its band, to half the width.  In every dataset the layout sets the
    [fx] of the j-th node of a band (from 0) to (j + 1) steps and its [fy]
    to the height of the band, and changes nothing else of the node; one
    step is the width divided by the number of nodes of the band plus one,
    so the [fx] of two neighbours in a band differ by exactly one step. *)
Theorem tiered_layout (width height : Q) :
  0 < height ->
  (let a := mkNode "A" JsValue.Undefined JsValue.Undefined JsValue.Undefined
              JsValue.Undefined (Some 0.8) None None in
   let b := mkNode "B" JsValue.Undefined JsValue.Undefined JsValue.Undefined
              JsValue.Undefined (Some 0.5) None None in
   let c := mkNode "C" JsValue.Undefined JsValue.Undefined JsValue.Undefined
              JsValue.Undefined (Some 0.1) None None in
   let placed := applyHierarchicalLayout width height [a; b; c] in
   levels [a; b; c] = [[0]; [1]; [2]]%nat
   /\ List.map id placed = ["A"; "B"; "C"]
   /\ (exists ya yb yc,
        List.map fy placed = [Some ya; Some yb; Some yc]
        /\ ya == height / 4
        /\ yb == 2 * (height / 4)
        /\ yc == 3 * (height / 4)
        /\ ~ ya == yb /\ ~ yb == yc /\ ~ ya == yc)
   /\ (exists xa xb xc,
        List.map fx placed = [Some xa; Some xb; Some xc]
        /\ xa == width / 2 /\ xb == width / 2 /\ xc == width / 2))
  /\ (forall nodes m level j i,
        levels nodes !! m = Some level ->
        level !! j = Some i ->
        let step := width / inject_Z (Z.of_nat (length level + 1)) in
        let x := step * inject_Z (Z.of_nat (j + 1)) in
        let y := height / 4 * inject_Z (Z.of_nat (m + 1)) in
        exists node placed,
          nodes !! i = Some node
          /\ applyHierarchicalLayout width height nodes !! i = Some placed
          /\ fx placed = Some x
          /\ fy placed = Some y
          /\ placed = setPosition x y node
          /\ (forall i',
                level !! S j = Some i' ->
                exists next x',
                  applyHierarchicalLayout width height nodes !! i' = Some next
                  /\ fx next = Some x' /\ fy next = Some y
                  /\ x' - x == step)).
Proof.
  intros Hheight. split.
  - intros a b c placed.
    split; [reflexivity |]. split; [reflexivity |].
    unfold placed, applyHierarchicalLayout.
    change (levels [a; b; c]) with ([[0]; [1]; [2]]%nat).
    cbn -[Qmult Qdiv inject_Z Z.of_nat].
    change (inject_Z (Z.of_nat 1)) with 1.
    change (inject_Z (Z.of_nat 2)) with 2.
    change (inject_Z (Z.of_nat 3)) with 3.
    split.
    + do 3 eexists. split; [reflexivity |].
      assert (Hq : 0 < height / 4).
      { apply Qlt_shift_div_l; [reflexivity | lra]. }
      set (quarter := height / 4) in *.
      repeat split; try lra; intros H; lra.
    + do 3 eexists. split; [reflexivity |].
      set (half := width / 2). repeat split; lra.
  - intros nodes m level j i Hm Hj step x y.
    destruct (layout_position width height nodes m level j i Hm Hj)
      as (node & Hnode & Hplaced).
    exists node, (setPosition x y node).
    split; [exact Hnode |]. split; [exact Hplaced |].
    split; [reflexivity |]. split; [reflexivity |]. split; [reflexivity |].
    intros i' Hj'.
    destruct (layout_position width height nodes m level (S j) i' Hm Hj')
      as (node' & Hnode' & Hplaced').
    eexists. eexists. split; [exact Hplaced' |].
    split; [reflexivity |]. split; [reflexivity |].
    unfold x. fold step.
    replace (Z.of_nat (S j + 1)) with (Z.of_nat (j + 1) + 1)%Z by lia.
    rewrite inject_Z_plus. change (inject_Z 1) with 1. ring.
Qed.

Lemma tiered_layout_witness :
  let a := mkNode "A" JsValue.Undefined JsValue.Undefined JsValue.Undefined
             JsValue.Undefined (Some 0.8) None None in
  let b := mkNode "B" JsValue.Undefined JsValue.Undefined JsValue.Undefined
             JsValue.Undefined (Some 0.5) None None in
  let c := mkNode "C" JsValue.Undefined JsValue.Undefined JsValue.Undefined
             JsValue.Undefined (Some 0.1) None None in
  0 < 600 /\
  (exists ya yb yc,
     List.map fy (applyHierarchicalLayout 800 600 [a; b; c])
       = [Some ya; Some yb; Some yc]
     /\ ya == 150 /\ yb == 300 /\ yc == 450)
  /\ (exists xa xb xc,
       List.map fx (applyHierarchicalLayout 800 600 [a; b; c])
         = [Some xa; Some xb; Some xc]
       /\ xa == 400 /\ xb == 400 /\ xc == 400).
Proof.
  intros a b c.
  assert (Hheight : 0 < 600) by reflexivity.
  split; [exact Hheight |].
  destruct (tiered_layout 800 600 Hheight)
    as [(_ & _ & (ya & yb & yc & Hy & Ha & Hb & Hc & _)
           & (xa & xb & xc & Hx & Hxa & Hxb & Hxc)) _].
  split.
  - exists ya, yb, yc. split; [exact Hy |].
    rewrite Ha, Hb, Hc. repeat split; reflexivity.
  - exists xa, xb, xc. split; [exact Hx |].
    rewrite Hxa, Hxb, Hxc. repeat split; reflexivity.
Defined.

End Layout.

(** ** The cash-flow view *)

Section CashFlowView.
Import Effects CashFlowAnalysis.

(** X1: in the cash-flow view the tiers agree.  Colour, dash pattern and
    risk class of the cash-flow view and risk level and colour of the
    platform object name the same tier for every score: high from 0.7 on,
    medium from 0.4 on, low below. *)
Theorem cash_flow_tiers_agree (r : Q) :
  (0.7 <= r /\ getLinkColor r = "#dc3545" /\ getFlowDashArray r = Some "10, 5"
   /\ getRiskClass r = "high" /\ AMLPlatform.getRiskLevel r = "High"
   /\ AMLPlatform.getRiskColor r = "var(--risk-high)")
  \/ (0.4 <= r < 0.7 /\ getLinkColor r = "#ffc107"
      /\ getFlowDashArray r = Some "5, 5"
      /\ getRiskClass r = "medium" /\ AMLPlatform.getRiskLevel r = "Medium"
      /\ AMLPlatform.getRiskColor r = "var(--risk-medium)")
  \/ (r < 0.4 /\ getLinkColor r = "#28a745" /\ getFlowDashArray r = None
      /\ getRiskClass r = "low" /\ AMLPlatform.getRiskLevel r = "Low"
      /\ AMLPlatform.getRiskColor r = "var(--risk-low)").
Proof.
  unfold getLinkColor, getFlowDashArray, getRiskClass,
    AMLPlatform.getRiskLevel, AMLPlatform.getRiskColor.
  destruct (Js.ge r 0.7) eqn:H7.
  - left. apply ge_spec in H7. repeat split; auto.
  - apply ge_false in H7. destruct (Js.ge r 0.4) eqn:H4.
    + right. left. apply ge_spec in H4. repeat split; auto.
    + right. right. apply ge_false in H4. repeat split; auto.
Qed.

Lemma clamp_range (x lo hi : Q) : lo <= hi -> lo <= clamp x lo hi <= hi.
Proof.
  intros H. unfold clamp, Js.min.
  pose proof (max_spec x lo) as [_ Hlo]. qcases; split; lra.
Qed.

Lemma clamp_monotone (x y lo hi : Q) :
  x <= y -> clamp x lo hi <= clamp y lo hi.
Proof.
  intros H. unfold clamp, Js.min, Js.max. 
  destruct (Qle_bool x lo) eqn:E1; destruct (Qle_bool y lo) eqn:E2;
    qcases; lra.
Qed.

(** X2: weights on the cash-flow map.  The weight of a line grows with the
    amount of the flow and stays between 2 and 8; the radius of the marker
    of a bank stays between 8 and 20. *)
Theorem cash_flow_weight_clamped (f1 f2 : Flow) (bank : Bank) :
  amount f1 <= amount f2 ->
  flowLineWeight f1 <= flowLineWeight f2
  /\ 2 <= flowLineWeight f1 <= 8
  /\ 8 <= bankMarkerRadius bank <= 20.
Proof.
  intros H. unfold flowLineWeight, bankMarkerRadius. split; [| split].
  - apply clamp_monotone, div_monotone; [reflexivity | exact H].
  - apply clamp_range. lra.
  - apply clamp_range. lra.
Qed.

Lemma cash_flow_weight_clamped_witness :
  flowLineWeight (mkFlow "US" "DE" 250000 0.5)
  <= flowLineWeight (mkFlow "DE" "US" 900000 0.2).
Proof.
  apply (cash_flow_weight_clamped (mkFlow "US" "DE" 250000 0.5)
           (mkFlow "DE" "US" 900000 0.2) (mkBank "US" JsValue.Missing 0 0)).
  unfold Qle; cbn; lia.
Defined.

(** *** What the first pass keeps *)

Lemma get_Missing {V : Type} (o : gmap string V) (k : string) :
  JsValue.get o k = JsValue.Missing <->
  o !! k = None /\ JsValue.inherited k = false.
Proof.
  unfold JsValue.get. destruct (o !! k); [split; [discriminate | intros [[=] _]] |].
  destruct (JsValue.inherited k); split; try discriminate; auto.
  intros [_ [=]].
Qed.

Lemma resolveBank_keeps (env : Env) (bank : string)
  (bankCoordinates cache : gmap string Coord) (io : Io) :
  let r := resolveBank env bank (bankCoordinates, cache) io in
  (forall k v, cache !! k = Some v -> snd (fst r) !! k = Some v)
  /\ (forall k, is_Some (bankCoordinates !! k) -> is_Some (fst (fst r) !! k))
  /\ (JsValue.inherited bank = false -> is_Some (fst (fst r) !! bank)).
Proof.
  cbv zeta. destruct (JsValue.get bankCoordinates bank) eqn:Hbc.
  - rewrite resolveBank_present by (rewrite Hbc; discriminate).
    cbn [fst snd]. split; [auto | split; [auto |]]. intros _.
    unfold JsValue.get in Hbc. destruct (bankCoordinates !! bank); [eauto |].
    destruct (JsValue.inherited bank); discriminate.
  - rewrite resolveBank_present by (rewrite Hbc; discriminate).
    cbn [fst snd]. split; [auto | split; [auto |]]. intros Hinh.
    unfold JsValue.get in Hbc. destruct (bankCoordinates !! bank); [eauto |].
    rewrite Hinh in Hbc. discriminate.
  - assert (Hgrow : forall (pos : Coord) k,
              is_Some (bankCoordinates !! k) ->
              is_Some (<[bank := pos]> bankCoordinates !! k)).
    { intros pos k Hk. destruct (decide (bank = k)) as [-> | Hne].
      - rewrite lookup_insert_eq. eauto.
      - rewrite lookup_insert_ne by exact Hne. exact Hk. }
    destruct (cache !! bank) as [coords |] eqn:Hc.
    + unfold resolveBank. rewrite Hbc, Hc.
      unfold bind, mathRandom, ret. cbn [fst snd].
      split; [auto | split; [apply Hgrow |]].
      intros _. rewrite lookup_insert_eq. eauto.
    + rewrite (resolveBank_miss env bank bankCoordinates cache io Hbc Hc).
      destruct (Geocoding.readResponse _); cbn [fst snd];
        (split; [| split; [apply Hgrow | intros _; rewrite lookup_insert_eq; eauto]]);
        intros k v Hk; (rewrite lookup_insert_ne; [exact Hk | congruence]).
Qed.

Lemma resolveBanks_keeps (env : Env) (topFlows : list Flow)
  (st : gmap string Coord * gmap string Coord) (io : Io) :
  let r := resolveBanks env topFlows st io in
  (forall k v, snd st !! k = Some v -> snd (fst r) !! k = Some v)
  /\ (forall k, is_Some (fst st !! k) -> is_Some (fst (fst r) !! k))
  /\ (forall flow, flow ∈ topFlows ->
        (JsValue.inherited (from_bank flow) = false ->
         is_Some (fst (fst r) !! from_bank flow))
        /\ (JsValue.inherited (to_bank flow) = false ->
            is_Some (fst (fst r) !! to_bank flow))).
Proof.
  revert st io. induction topFlows as [| flow rest IH]; intros [bc cache] io.
  - cbn. split; [auto | split; [auto |]]. intros flow H.
    apply elem_of_nil in H. contradiction.
  - cbn [resolveBanks]. unfold bind.
    pose proof (resolveBank_keeps env (from_bank flow) bc cache io) as H1.
    cbv zeta in H1.
    destruct (resolveBank env (from_bank flow) (bc, cache) io)
      as [[bc1 cache1] io1]. cbn [fst snd] in H1.
    destruct H1 as (Hc1 & Hb1 & Hf1).
    pose proof (resolveBank_keeps env (to_bank flow) bc1 cache1 io1) as H2.
    cbv zeta in H2.
    destruct (resolveBank env (to_bank flow) (bc1, cache1) io1)
      as [[bc2 cache2] io2]. cbn [fst snd] in H2.
    destruct H2 as (Hc2 & Hb2 & Hf2).
    specialize (IH (bc2, cache2) io2). cbv zeta in IH. cbn [fst snd] in *.
    destruct IH as (Hc3 & Hb3 & Hf3).
    split; [auto | split; [auto |]].
    intros flow' Hin. apply elem_of_cons in Hin as [-> | Hin]; [| auto].
    split; intros Hinh; auto.
Qed.

(** X3: the cache only grows.  However updates overlap, an entry of the
    coordinate cache is never removed.  It is never changed either once no
    call in flight awaits the lookup of its code: from then on the entry
    stays as it is through every update and every answer, and no call comes
    to await its code.  In particular updates that are awaited one after the
    other never change an entry. *)
Theorem cache_entries_persist (env : Env) (events : list Event)
  (page : Page) (io : Io) (code : string) (coords : Coord) :
  bankCoordinatesCache (view page) !! code = Some coords ->
  let page' := fst (run env events page io) in
  is_Some (bankCoordinatesCache (view page') !! code)
  /\ (Forall (fun call => awaited call <> code) (inFlight page) ->
      bankCoordinatesCache (view page') !! code = Some coords
      /\ Forall (fun call => awaited call <> code) (inFlight page'))
  /\ (forall updates,
        bankCoordinatesCache (fst (session env updates (view page) io)) !! code
        = Some coords).
Proof.
  intros Hentry page'. split; [| split].
  - apply run_keeps_key. rewrite Hentry. eauto.
  - intros Hcalls.
    destruct (run_keeps_entry env events code coords page io Hentry Hcalls)
      as (H1 & H2 & _).
    split; assumption.
  - intros updates.
    pose proof (awaited_session env updates (view page) io) as Hrun.
    destruct (run_keeps_entry env (awaitedSession updates) code coords
                {| view := view page; inFlight := [] |} io Hentry
                (Forall_nil_2 _))
      as (H1 & _ & _).
    rewrite Hrun in H1. exact H1.
Qed.

Lemma cache_entries_persist_witness :
  let germany := mkCoord 51 9 (Some "Germany") in
  let us_xx := mkFlow "US" "XX" 250000 0.5 in
  let page := {| view := mkState true {[ "DE" := germany ]} [];
                 inFlight := [] |} in
  bankCoordinatesCache
    (view (fst (run sampleEnv [Update [us_xx]; Update [us_xx]; Answer 1]
                  page start))) !! "DE"
  = Some germany.
Proof.
  intros germany us_xx page.
  assert (Hentry : bankCoordinatesCache (view page) !! "DE" = Some germany)
    by apply lookup_singleton_eq.
  apply (cache_entries_persist sampleEnv
           [Update [us_xx]; Update [us_xx]; Answer 1] page start "DE" germany
           Hentry).
  apply Forall_nil_2.
Defined.

(** X24: one lookup for each code and call, however updates overlap.
    Whatever calls of [updateNetworkView] and answers follow one another on
    a page with no call in flight, a code is requested at most once for
    each call: a call that has requested a code, or found it in the cache,
    keeps its coordinates and does not request it again.  Two overlapping
    updates do request a code twice. *)
Theorem overlapping_updates_bound (env : Env) (events : list Event)
  (this : State) (io : Io) (code : string) :
  let r := run env events {| view := this; inFlight := [] |} io in
  (lookups code (snd r) <= lookups code io + updatesOf events)%nat
  /\ (let us_de := mkFlow "US" "DE" 250000 0.5 in
      let overlapping := [Update [us_de]; Update [us_de]; Answer 0; Answer 1] in
      updatesOf overlapping = 2%nat
      /\ lookups "US"
           (snd (run sampleEnv overlapping
                   {| view := mkState true ∅ []; inFlight := [] |} start))
         = 2%nat).
Proof.
  intros r. split; [| vm_compute; split; reflexivity].
  pose proof (run_asks env events code {| view := this; inFlight := [] |} io)
    as H.
  cbv zeta in H. fold r in H. cbn [inFlight sum_list_with] in H. lia.
Qed.

Lemma flowLinesOf_all (bankCoordinates : gmap string Coord)
  (topFlows : list Flow) :
  (forall flow, flow ∈ topFlows ->
     is_Some (bankCoordinates !! from_bank flow)
     /\ is_Some (bankCoordinates !! to_bank flow)) ->
  exists lines,
    flowLinesOf bankCoordinates topFlows = Some lines
    /\ length lines = length topFlows
    /\ forall i flow, topFlows !! i = Some flow ->
         exists line fromCoords toCoords,
           lines !! i = Some line
           /\ bankCoordinates !! from_bank flow = Some fromCoords
           /\ bankCoordinates !! to_bank flow = Some toCoords
           /\ line = flowLine fromCoords toCoords flow.
Proof.
  induction topFlows as [| flow rest IH]; intros Hall.
  - exists []. split; [reflexivity |]. split; [reflexivity |].
    intros i flow H. discriminate.
  - destruct IH as (lines & Hlines & Hlen & Hith).
    { intros f Hf. apply Hall. right. exact Hf. }
    destruct (Hall flow) as [[fromCoords Hfrom] [toCoords Hto]]; [left |].
    cbn [flowLinesOf]. rewrite Hfrom, Hto, Hlines.
    eexists. split; [reflexivity |]. split; [cbn; rewrite Hlen; reflexivity |].
    intros [| i] f Hf.
    + injection Hf as <-. exists (flowLine fromCoords toCoords flow),
        fromCoords, toCoords. auto.
    + apply Hith. exact Hf.
Qed.

(** X4: no flow is left out.  When the map exists, there are flows, and no
    bank is called like a property every object inherits, [updateNetworkView]
    draws one line for each flow, in order: a circle around the bank for a
    flow of a bank to itself, a polyline between the two banks otherwise. *)
Theorem every_flow_drawn (env : Env) (topFlows : list Flow) (this : State)
  (io : Io) :
  networkMap this = true ->
  topFlows <> [] ->
  (forall flow, flow ∈ topFlows ->
     JsValue.inherited (from_bank flow) = false
     /\ JsValue.inherited (to_bank flow) = false) ->
  let lines := flowLines (fst (updateNetworkView env topFlows this io)) in
  length lines = length topFlows
  /\ forall i flow, topFlows !! i = Some flow ->
       exists line, lines !! i = Some line /\
         match Leaflet.shape line with
         | Leaflet.Circle _ radius =>
             from_bank flow = to_bank flow /\ 5000 <= radius <= 15000
         | Leaflet.Polyline latlngs =>
             from_bank flow <> to_bank flow /\ length latlngs = 2%nat
         end.
Proof.
  intros Hmap Hnonempty Hnames. unfold updateNetworkView. rewrite Hmap.
  destruct topFlows as [| flow0 rest]; [congruence |].
  cbn [negb orb length Nat.eqb]. unfold bind.
  pose proof (resolveBanks_keeps env (flow0 :: rest)
                (∅, bankCoordinatesCache this) io) as (_ & _ & Hall).
  destruct (resolveBanks env (flow0 :: rest) _ io) as [[bc cache] io1].
  cbn [fst snd] in *.
  destruct (flowLinesOf_all bc (flow0 :: rest)) as (lines & Hlines & Hlen & Hith).
  { intros flow Hin. destruct (Hnames flow Hin) as [Hf Ht].
    destruct (Hall flow Hin) as [Hf' Ht']. auto. }
  cbn [flowLines]. rewrite Hlines. cbn [default].
  split; [exact Hlen |].
  intros i flow Hi.
  destruct (Hith i flow Hi) as (line & fromCoords & toCoords & Hline & _ & _ & ->).
  exists (flowLine fromCoords toCoords flow). split; [exact Hline |].
  unfold flowLine. destruct (String.eqb (from_bank flow) (to_bank flow)) eqn:E.
  - apply String.eqb_eq in E. cbn [Leaflet.shape]. split; [exact E |].
    pose proof (clamp_range (amount flow / 100000) 5 15) as Hr.
    assert (H515 : 5 <= 15) by lra. specialize (Hr H515).
    set (radius := clamp (amount flow / 100000) 5 15) in *. split; lra.
  - apply String.eqb_neq in E. cbn [Leaflet.shape]. split; [exact E | reflexivity].
Qed.

Lemma every_flow_drawn_witness :
  length (flowLines
            (fst (updateNetworkView sampleEnv
                    [mkFlow "US" "XX" 250000 0.5; mkFlow "DE" "DE" 100000 0.8]
                    (mkState true ∅ []) start)))
  = 2%nat.
Proof.
  apply (every_flow_drawn sampleEnv
           [mkFlow "US" "XX" 250000 0.5; mkFlow "DE" "DE" 100000 0.8]
           (mkState true ∅ []) start).
  - reflexivity.
  - discriminate.
  - intros flow Hin.
    apply elem_of_cons in Hin as [-> | Hin]; [split; reflexivity |].
    apply elem_of_cons in Hin as [-> | Hin]; [split; reflexivity |].
    apply elem_of_nil in Hin. contradiction.
Defined.

(** *** Where a bank is put *)

Lemma sampleEnv_random (n : nat) : 0 <= random sampleEnv n < 1.
Proof.
  cbn [random sampleEnv].
  pose proof (Nat.mod_upper_bound n 10 ltac:(discriminate)) as Hlt.
  set (m := (n mod 10)%nat) in *.
  unfold Qdiv, Qle, Qlt. cbn. lia.
Qed.

(** X5: the offset of a bank on the map is bounded.  A bank that is resolved
    in an update is put within half a degree of the cached coordinates when
    its code is in the cache, within a quarter of a degree of the answer of
    the service (which is cached as it came) when the lookup succeeds, and
    at a latitude in [-25,25) and a longitude in [-90,90) when it fails. *)
Theorem bank_offset_bounded (env : Env) (bank : string)
  (bankCoordinates cache : gmap string Coord) (io : Io) :
  (forall n, 0 <= random env n < 1) ->
  JsValue.get bankCoordinates bank = JsValue.Missing ->
  let r := resolveBank env bank (bankCoordinates, cache) io in
  exists pos,
    fst (fst r) !! bank = Some pos /\
    match cache !! bank with
    | Some base =>
        lat base - 0.5 <= lat pos < lat base + 0.5
        /\ lng base - 0.5 <= lng pos < lng base + 0.5
        /\ requests (snd r) = requests io
    | None =>
        match Geocoding.readResponse (respond env (length (requests io)) bank) with
        | Some base =>
            lat base - 0.25 <= lat pos < lat base + 0.25
            /\ lng base - 0.25 <= lng pos < lng base + 0.25
            /\ snd (fst r) !! bank = Some base
        | None =>
            -25 <= lat pos < 25 /\ -90 <= lng pos < 90
            /\ snd (fst r) !! bank = Some pos
        end
    end.
Proof.
  intros Hrandom Hbc. cbv zeta.
  pose proof (Hrandom (draws io)) as [H1 H1'].
  pose proof (Hrandom (S (draws io))) as [H2 H2'].
  destruct (cache !! bank) as [base |] eqn:Hc.
  - unfold resolveBank. rewrite Hbc, Hc. unfold bind, mathRandom, ret.
    cbn [fst snd requests draws]. eexists.
    split; [apply lookup_insert_eq |]. cbn [lat lng].
    repeat split; try lra; reflexivity.
  - rewrite (resolveBank_miss env bank bankCoordinates cache io Hbc Hc).
    destruct (Geocoding.readResponse _) as [base |]; cbn [fst snd];
      eexists; (split; [apply lookup_insert_eq |]); cbn [lat lng];
      repeat split; try lra; apply lookup_insert_eq.
Qed.

Lemma bank_offset_bounded_witness :
  exists pos,
    fst (fst (resolveBank sampleEnv "US" (∅, ∅) start)) !! "US" = Some pos
    /\ 38 - 0.25 <= lat pos < 38 + 0.25.
Proof.
  assert (Hmissing : JsValue.get (∅ : gmap string Coord) "US" = JsValue.Missing)
    by (vm_compute; reflexivity).
  destruct (bank_offset_bounded sampleEnv "US" ∅ ∅ start sampleEnv_random Hmissing)
    as (pos & Hpos & Hnear).
  exists pos. split; [exact Hpos |].
  rewrite lookup_empty in Hnear. cbn in Hnear. apply Hnear.
Defined.

(** *** The totals of the banks *)

Lemma hasBank_spec (banksData : list (string * Bank)) (bankName : string) :
  hasBank banksData bankName = true <-> bankName ∈ List.map fst banksData.
Proof.
  unfold hasBank. induction banksData as [| entry rest IH]; cbn.
  - split; [discriminate | intros H; apply elem_of_nil in H; contradiction].
  - rewrite orb_true_iff, IH, elem_of_cons, String.eqb_eq.
    split; intros [H | H]; auto.
Qed.

Lemma addOut_keys (bankName : string) (amount : Q)
  (banksData : list (string * Bank)) :
  List.map fst (addOut bankName amount banksData) = List.map fst banksData.
Proof.
  unfold addOut. induction banksData as [| entry rest IH]; cbn; [reflexivity |].
  rewrite IH. destruct (String.eqb (fst entry) bankName); reflexivity.
Qed.

Lemma addIn_keys (bankName : string) (amount : Q)
  (banksData : list (string * Bank)) :
  List.map fst (addIn bankName amount banksData) = List.map fst banksData.
Proof.
  unfold addIn. induction banksData as [| entry rest IH]; cbn; [reflexivity |].
  rewrite IH. destruct (String.eqb (fst entry) bankName); reflexivity.
Qed.

Lemma addOut_sums (bankName : string) (amount : Q)
  (banksData : list (string * Bank)) :
  NoDup (List.map fst banksData) ->
  bankName ∈ List.map fst banksData ->
  sumOut (addOut bankName amount banksData) == sumOut banksData + amount
  /\ sumIn (addOut bankName amount banksData) == sumIn banksData.
Proof.
  induction banksData as [| entry rest IH]; intros Hnodup Hin.
  - apply elem_of_nil in Hin. contradiction.
  - cbn [List.map] in Hnodup. apply NoDup_cons in Hnodup as [Hnotin Hnodup].
    cbn [addOut List.map sumOut sumIn fold_right].
    fold (addOut bankName amount rest). fold (sumOut rest) (sumIn rest).
    fold (sumOut (addOut bankName amount rest)).
    fold (sumIn (addOut bankName amount rest)).
    destruct (String.eqb (fst entry) bankName) eqn:E.
    + apply String.eqb_eq in E. subst bankName.
      assert (Hsame : addOut (fst entry) amount rest = rest).
      { clear -Hnotin. unfold addOut.
        induction rest as [| e rest IH]; cbn; [reflexivity |].
        destruct (String.eqb (fst e) (fst entry)) eqn:E.
        - apply String.eqb_eq in E. exfalso. apply Hnotin. rewrite <- E. left.
        - rewrite IH; [reflexivity |]. intros H. apply Hnotin. right. exact H. }
      rewrite Hsame. cbn [snd totalOut totalIn]. split; lra.
    + apply String.eqb_neq in E.
      cbn [List.map] in Hin. apply elem_of_cons in Hin as [Hin | Hin];
        [congruence |].
      destruct (IH Hnodup Hin) as [IHo IHi]. split; lra.
Qed.

Lemma addIn_sums (bankName : string) (amount : Q)
  (banksData : list (string * Bank)) :
  NoDup (List.map fst banksData) ->
  bankName ∈ List.map fst banksData ->
  sumIn (addIn bankName amount banksData) == sumIn banksData + amount
  /\ sumOut (addIn bankName amount banksData) == sumOut banksData.
Proof.
  induction banksData as [| entry rest IH]; intros Hnodup Hin.
  - apply elem_of_nil in Hin. contradiction.
  - cbn [List.map] in Hnodup. apply NoDup_cons in Hnodup as [Hnotin Hnodup].
    cbn [addIn List.map sumOut sumIn fold_right].
    fold (addIn bankName amount rest). fold (sumOut rest) (sumIn rest).
    fold (sumOut (addIn bankName amount rest)).
    fold (sumIn (addIn bankName amount rest)).
    destruct (String.eqb (fst entry) bankName) eqn:E.
    + apply String.eqb_eq in E. subst bankName.
      assert (Hsame : addIn (fst entry) amount rest = rest).
      { clear -Hnotin. unfold addIn.
        induction rest as [| e rest IH]; cbn; [reflexivity |].
        destruct (String.eqb (fst e) (fst entry)) eqn:E.
        - apply String.eqb_eq in E. exfalso. apply Hnotin. rewrite <- E. left.
        - rewrite IH; [reflexivity |]. intros H. apply Hnotin. right. exact H. }
      rewrite Hsame. cbn [snd totalOut totalIn]. split; lra.
    + apply String.eqb_neq in E.
      cbn [List.map] in Hin. apply elem_of_cons in Hin as [Hin | Hin];
        [congruence |].
      destruct (IH Hnodup Hin) as [IHi IHo]. split; lra.
Qed.

Lemma ensureBank_spec (bankCoordinates : gmap string Coord)
  (bankName : string) (banksData : list (string * Bank)) :
  NoDup (List.map fst banksData) ->
  let banksData' := ensureBank bankCoordinates bankName banksData in
  NoDup (List.map fst banksData')
  /\ bankName ∈ List.map fst banksData'
  /\ (forall k, k ∈ List.map fst banksData -> k ∈ List.map fst banksData')
  /\ sumOut banksData' == sumOut banksData
  /\ sumIn banksData' == sumIn banksData.
Proof.
  intros Hnodup. cbv zeta. unfold ensureBank.
  destruct (hasBank banksData bankName) eqn:Hhas.
  - apply hasBank_spec in Hhas. repeat split; auto; reflexivity.
  - assert (Hnotin : bankName ∉ List.map fst banksData).
    { intros H. apply hasBank_spec in H. congruence. }
    rewrite List.map_app. cbn [List.map fst].
    split; [| split; [| split]].
    + apply NoDup_app. split; [exact Hnodup |]. split; [| apply NoDup_singleton].
      intros k Hk Hk'. apply list_elem_of_singleton in Hk'. subst k. auto.
    + apply elem_of_app. right. left.
    + intros k Hk. apply elem_of_app. left. exact Hk.
    + unfold sumOut, sumIn. rewrite !fold_right_app. cbn [fold_right snd totalOut totalIn].
      clear. induction banksData as [| e rest [IH1 IH2]]; cbn; split; lra.
Qed.

(** X6: the totals of the banks balance.  In the second pass of
    [updateNetworkView] every bank of a flow gets exactly one entry, and the
    outflows of all banks add up to the amounts of all flows, as do the
    inflows. *)
Theorem bank_totals_balance (bankCoordinates : gmap string Coord)
  (topFlows : list Flow) :
  let banksData := banksDataOf bankCoordinates topFlows in
  NoDup (List.map fst banksData)
  /\ (forall flow, flow ∈ topFlows ->
        from_bank flow ∈ List.map fst banksData
        /\ to_bank flow ∈ List.map fst banksData)
  /\ sumOut banksData == sumAmounts topFlows
  /\ sumIn banksData == sumAmounts topFlows.
Proof.
  cbv zeta. unfold banksDataOf.
  assert (G : forall banksData,
            NoDup (List.map fst banksData) ->
            let final := fold_left
                           (fun banksData flow => bankRound bankCoordinates flow banksData)
                           topFlows banksData in
            NoDup (List.map fst final)
            /\ (forall k, k ∈ List.map fst banksData -> k ∈ List.map fst final)
            /\ (forall flow, flow ∈ topFlows ->
                  from_bank flow ∈ List.map fst final
                  /\ to_bank flow ∈ List.map fst final)
            /\ sumOut final == sumOut banksData + sumAmounts topFlows
            /\ sumIn final == sumIn banksData + sumAmounts topFlows).
  { induction topFlows as [| flow rest IH]; intros banksData Hnodup; cbv zeta.
    - cbn [fold_left]. unfold sumAmounts. cbn [fold_right].
      split; [exact Hnodup |]. split; [auto |]. split; [| split; lra].
      intros f H. apply elem_of_nil in H. contradiction.
    - cbn [fold_left sumAmounts fold_right]. fold (sumAmounts rest).
      destruct (ensureBank_spec bankCoordinates (from_bank flow) banksData Hnodup)
        as (Hn1 & Hin1 & Hk1 & Ho1 & Hi1).
      set (b1 := ensureBank bankCoordinates (from_bank flow) banksData) in *.
      destruct (ensureBank_spec bankCoordinates (to_bank flow) b1 Hn1)
        as (Hn2 & Hin2 & Hk2 & Ho2 & Hi2).
      set (b2 := ensureBank bankCoordinates (to_bank flow) b1) in *.
      destruct (addOut_sums (from_bank flow) (amount flow) b2 Hn2 (Hk2 _ Hin1))
        as [Ho3 Hi3].
      pose proof (addOut_keys (from_bank flow) (amount flow) b2) as Hkeys3.
      set (b3 := addOut (from_bank flow) (amount flow) b2) in *.
      assert (Hn3 : NoDup (List.map fst b3)) by (rewrite Hkeys3; exact Hn2).
      assert (Hin3 : to_bank flow ∈ List.map fst b3) by (rewrite Hkeys3; exact Hin2).
      destruct (addIn_sums (to_bank flow) (amount flow) b3 Hn3 Hin3) as [Hi4 Ho4].
      pose proof (addIn_keys (to_bank flow) (amount flow) b3) as Hkeys4.
      set (b4 := addIn (to_bank flow) (amount flow) b3) in *.
      change (bankRound bankCoordinates flow banksData) with b4.
      assert (Hn4 : NoDup (List.map fst b4)) by (rewrite Hkeys4; exact Hn3).
      destruct (IH b4 Hn4) as (Hn & Hk & Hf & Ho & Hi).
      assert (Hk4 : forall k, k ∈ List.map fst b2 -> k ∈ List.map fst b4).
      { intros k Hk'. rewrite Hkeys4, Hkeys3. exact Hk'. }
      split; [exact Hn |]. split; [auto |]. split.
      + intros f Hin. apply elem_of_cons in Hin as [-> | Hin]; [| auto].
        split; apply Hk, Hk4; auto.
      + split; lra. }
  destruct (G [] (NoDup_nil_2 : NoDup (List.map fst []))) as (Hn & _ & Hf & Ho & Hi).
  cbn [sumOut sumIn fold_right] in Ho, Hi.
  split; [exact Hn |]. split; [exact Hf |]. split; lra.
Qed.

(** *** Pagination *)

Lemma totalPages_bounds (total itemsPerPage : Z) :
  (0 < itemsPerPage)%Z ->
  ((totalPages total itemsPerPage - 1) * itemsPerPage < total
   <= totalPages total itemsPerPage * itemsPerPage)%Z.
Proof.
  intros Hper. unfold totalPages.
  set (x := inject_Z total / inject_Z itemsPerPage).
  assert (Hq : 0 < inject_Z itemsPerPage).
  { change 0 with (inject_Z 0). rewrite <- Zlt_Qlt. exact Hper. }
  assert (Hx : x * inject_Z itemsPerPage == inject_Z total).
  { unfold x. field. intros H. rewrite H in Hq. apply (Qlt_irrefl 0 Hq). }
  pose proof (Qle_ceiling x) as Hup.
  pose proof (Qceiling_lt x) as Hlow.
  split.
  - rewrite Zlt_Qlt, inject_Z_mult, <- Hx.
    apply Qmult_lt_compat_r; [exact Hq | exact Hlow].
  - rewrite Zle_Qle, inject_Z_mult, <- Hx.
    apply Qmult_le_compat_r; [exact Hup | apply Qlt_le_weak, Hq].
Qed.

Lemma fromTo_spec (lo hi k : Z) :
  k ∈ fromTo lo hi <-> (lo <= k <= hi)%Z.
Proof.
  unfold fromTo. rewrite list_elem_of_In, List.in_map_iff. split.
  - intros (n & <- & Hn). apply List.in_seq in Hn. lia.
  - intros H. exists (Z.to_nat (k - lo)). split; [lia |].
    apply List.in_seq. lia.
Qed.

(** X7: the window of the pagination.  While the current page is one of the
    pages, the rows announced are at least one and at most a page full, they
    end at the total on the last page and fill the page before it, and the
    numbered buttons are at most five pages around the current one, all of
    them existing pages. *)
Theorem pagination_window (currentPage itemsPerPage total : Z) :
  (0 < itemsPerPage)%Z ->
  (itemsPerPage < total)%Z ->
  (1 <= currentPage <= totalPages total itemsPerPage)%Z ->
  let first := pageStart currentPage itemsPerPage in
  let last := pageEnd currentPage itemsPerPage total in
  let pages := totalPages total itemsPerPage in
  (1 <= first <= last)%Z
  /\ (last <= total)%Z
  /\ (last - first + 1 <= itemsPerPage)%Z
  /\ (currentPage = pages -> last = total)
  /\ (currentPage < pages -> last - first + 1 = itemsPerPage)%Z
  /\ currentPage ∈ pageNumbers currentPage itemsPerPage total
  /\ (forall k, k ∈ pageNumbers currentPage itemsPerPage total ->
        (1 <= k <= pages)%Z /\ (currentPage - 2 <= k <= currentPage + 2)%Z)
  /\ (length (pageNumbers currentPage itemsPerPage total) <= 5)%nat.
Proof.
  intros Hper Htotal Hpage. cbv zeta.
  pose proof (totalPages_bounds total itemsPerPage Hper) as [Hlow Hup].
  set (pages := totalPages total itemsPerPage) in *.
  unfold pageEnd, pageStart, pageNumbers. fold pages.
  rewrite (proj2 (Z.ltb_lt itemsPerPage total) Htotal).
  repeat split; try (intros; nia).
  - apply fromTo_spec. lia.
  - apply fromTo_spec in H. lia.
  - apply fromTo_spec in H. lia.
  - apply fromTo_spec in H. lia.
  - apply fromTo_spec in H. lia.
  - unfold fromTo. rewrite List.length_map, List.length_seq. lia.
Qed.

Lemma pagination_window_witness :
  pageStart 3 25 = 51%Z /\ pageEnd 3 25 60 = 60%Z
  /\ 3%Z ∈ pageNumbers 3 25 60.
Proof.
  assert (H1 : (0 < 25)%Z) by lia.
  assert (H2 : (25 < 60)%Z) by lia.
  assert (H3 : (1 <= 3 <= totalPages 60 25)%Z) by (vm_compute; split; discriminate).
  destruct (pagination_window 3 25 60 H1 H2 H3) as (_ & _ & _ & _ & _ & Hin & _).
  split; [reflexivity |]. split; [reflexivity | exact Hin].
Defined.

End CashFlowView.

(** ** The graph view *)

Section GraphView.
Import NetworkAnalysis.

Lemma countRadius_range (node : NodeStats) : 8 <= countRadius node <= 25.
Proof.
  unfold countRadius. split; [apply max_spec |].
  apply max_lub; [lra | apply min_le_l].
Qed.

Lemma Q2R_8 : Q2R 8 = 8%R.
Proof. unfold Q2R. cbn [Qnum Qden]. Lra.lra. Qed.

Lemma Q2R_25 : Q2R 25 = 25%R.
Proof. unfold Q2R. cbn [Qnum Qden]. Lra.lra. Qed.

(** X8: the radius of a node.  [getNodeRadius(node, metric)] returns a
    number between 8 and 25 under every metric and when no metric is given,
    with one exception: under [total_amount], when the sum of what the node
    sent and received is negative, [Math.sqrt] yields [NaN] and so does the
    method. *)
Theorem node_radius_range (node : NodeStats) (metric : option string) :
  let total :=
    orNumber (total_sent node) 0 + orNumber (total_received node) 0 in
  (getNodeRadius node metric = None <->
   metric = Some "total_amount" /\ total < 0)
  /\ (forall r, getNodeRadius node metric = Some r -> (8 <= r <= 25)%R)
  /\ (~ (metric = Some "total_amount" /\ total < 0) ->
      exists r, getNodeRadius node metric = Some r).
Proof.
  intros total.
  assert (Hclamp : forall x : R, (8 <= Rmax 8 (Rmin 25 x) <= 25)%R).
  { intros x. split; [apply Rmax_l |].
    apply Rmax_lub; [Lra.lra | apply Rmin_l]. }
  assert (Hcount : (8 <= Q2R (countRadius node) <= 25)%R).
  { destruct (countRadius_range node) as [H8 H25].
    apply Qle_Rle in H8, H25. rewrite Q2R_8 in H8. rewrite Q2R_25 in H25.
    split; assumption. }
  unfold getNodeRadius. destruct metric as [m |].
  - destruct (String.eqb m "total_amount") eqn:Em.
    + apply String.eqb_eq in Em. subst m. fold total.
      destruct (Qlt_le_dec total 0) as [Hneg | Hpos].
      * rewrite sqrt_NaN
          by (apply Qlt_shift_div_r; [reflexivity | lra]).
        cbn. split; [tauto |]. split; [discriminate |].
        intros H. exfalso. apply H. split; [reflexivity | exact Hneg].
      * rewrite sqrt_number by (apply div_nonneg; [reflexivity | exact Hpos]).
        cbn. split; [| split].
        -- split; [discriminate | intros [_ H]; lra].
        -- intros r [= <-]. apply Hclamp.
        -- intros _. eexists. reflexivity.
    + assert (Hne : Some m <> Some "total_amount").
      { intros [= ->]. discriminate Em. }
      destruct (String.eqb m "risk_score").
      * split; [split; [discriminate | tauto] |].
        split; [intros r [= <-]; apply Hclamp | intros _; eexists; reflexivity].
      * split; [split; [discriminate | tauto] |].
        split; [intros r [= <-]; exact Hcount | intros _; eexists; reflexivity].
  - split; [split; [discriminate | intros [H _]; discriminate H] |].
    split; [intros r [= <-]; exact Hcount | intros _; eexists; reflexivity].
Qed.



(** X10: the ends of the links stay on the canvas. *)
Theorem tick_keeps_link_ends_inside (bound : Q) (v : option Q) :
  0 <= bound ->
  0 <= tickLinkEnd bound v <= bound.
Proof.
  intros Hb. unfold tickLinkEnd. destruct v as [x |]; [| split; lra].
  split; [apply max_spec |]. apply max_lub; [exact Hb | apply min_le_l].
Qed.

Lemma tick_keeps_link_ends_inside_witness :
  0 <= tickLinkEnd 800 (Some 1234) <= 800.
Proof.
  apply (tick_keeps_link_ends_inside 800 (Some 1234)).
  unfold Qle; cbn; lia.
Defined.

(** *** Every node has a place in the tiered layout *)

Lemma placeLevel_length (xStep y : Q) (level : list nat) :
  forall (nodeIndex : nat) (nodes : list Node),
    length (placeLevel xStep y nodeIndex level nodes) = length nodes.
Proof.
  induction level as [| i rest IH]; intros nodeIndex nodes; [reflexivity |].
  cbn [placeLevel]. rewrite IH. apply length_alter.
Qed.

Lemma placeLevels_length (width levelHeight : Q) (levels : list (list nat)) :
  forall (levelIndex : nat) (nodes : list Node),
    length (placeLevels width levelHeight levelIndex levels nodes)
    = length nodes.
Proof.
  induction levels as [| level rest IH]; intros levelIndex nodes;
    [reflexivity |].
  cbn [placeLevels]. rewrite IH. apply placeLevel_length.
Qed.

Lemma node_in_a_band (nodes : list Node) (i : nat) (node : Node) (score : Q) :
  nodes !! i = Some node ->
  avg_risk_score node = Some score ->
  exists m level j,
    levels nodes !! m = Some level /\ level !! j = Some i /\ (m < 3)%nat.
Proof.
  intros Hnode Hscore.
  assert (Hin : forall p, p score = true ->
            exists j, filterNodes p nodes !! j = Some i).
  { intros p Hp. apply list_elem_of_lookup, filterNodes_spec.
    exists node. split; [exact Hnode |]. unfold passes. rewrite Hscore.
    exact Hp. }
  unfold levels.
  destruct (layout_split_exhaustive score)
    as [(H & _ & _) | [(_ & H & _) | (_ & _ & H)]];
    destruct (Hin _ H) as [j Hj].
  - exists 0%nat. eexists. exists j. split; [reflexivity |]. split; [exact Hj | lia].
  - exists 1%nat. eexists. exists j. split; [reflexivity |]. split; [exact Hj | lia].
  - exists 2%nat. eexists. exists j. split; [reflexivity |]. split; [exact Hj | lia].
Qed.

(** A node without score is in no band, and the layout leaves it as it
    is. *)
Lemma node_without_score (width height : Q) (nodes : list Node) (i : nat)
  (node : Node) :
  nodes !! i = Some node ->
  avg_risk_score node = None ->
  applyHierarchicalLayout width height nodes !! i = Some node.
Proof.
  intros Hnode Hscore. unfold applyHierarchicalLayout.
  rewrite placeLevels_notin; [exact Hnode |].
  intros level Hlevel Hin.
  assert (Hp : exists p, i ∈ filterNodes p nodes).
  { unfold levels in Hlevel.
    repeat (apply elem_of_cons in Hlevel as [-> | Hlevel]; [eauto |]).
    apply elem_of_nil in Hlevel. contradiction. }
  destruct Hp as [p Hp].
  apply filterNodes_spec in Hp as (node' & Hnode' & Hpass).
  assert (node' = node) by congruence. subst node'.
  unfold passes in Hpass. rewrite Hscore in Hpass. discriminate.
Qed.

Lemma step_inside (width : Q) (n j : nat) :
  0 < width -> (j < n)%nat ->
  0 < width / inject_Z (Z.of_nat (n + 1)) * inject_Z (Z.of_nat (j + 1)) < width.
Proof.
  intros Hw Hj.
  set (a := inject_Z (Z.of_nat (j + 1))).
  set (b := inject_Z (Z.of_nat (n + 1))).
  assert (Ha : 0 < a).
  { unfold a. change 0 with (inject_Z 0). rewrite <- Zlt_Qlt. lia. }
  assert (Hab : a < b).
  { unfold a, b. rewrite <- Zlt_Qlt. lia. }
  assert (Hb : 0 < b) by lra.
  assert (Hstep : 0 < width / b) by (apply Qlt_shift_div_l; lra).
  assert (Hwb : width / b * b == width).
  { field. intros H. rewrite H in Hb. apply (Qlt_irrefl 0 Hb). }
  split.
  - apply Qmult_lt_0_compat; assumption.
  - rewrite <- Hwb at 2. apply Qmult_lt_l; assumption.
Qed.

(** X11: the tiered layout places every node that has a score.  It keeps
    the nodes and their order.  A node with a score is pinned, and nothing
    else of it changes: [fy] is one, two or three quarters of the height and
    [fx] lies strictly between the left and the right border of a canvas
    that has a width.  A node without score passes none of the three
    filters and is left as it is, pinned or not. *)
Theorem tiered_layout_places_every_node (width height : Q)
  (nodes : list Node) :
  0 < width ->
  length (applyHierarchicalLayout width height nodes) = length nodes
  /\ forall i node, nodes !! i = Some node ->
       exists placed,
         applyHierarchicalLayout width height nodes !! i = Some placed
         /\ id placed = id node
         /\ avg_risk_score placed = avg_risk_score node
         /\ match avg_risk_score node with
            | Some score =>
                exists x y,
                  fx placed = Some x /\ fy placed = Some y
                  /\ placed = setPosition x y node
                  /\ 0 < x < width
                  /\ (y == height / 4 \/ y == 2 * (height / 4)
                      \/ y == 3 * (height / 4))
            | None => placed = node
            end.
Proof.
  intros Hw. split; [apply placeLevels_length |].
  intros i node Hnode.
  destruct (avg_risk_score node) as [score |] eqn:Hscore.
  - destruct (node_in_a_band nodes i node score Hnode Hscore)
      as (m & level & j & Hm & Hj & Hm3).
    destruct (layout_position width height nodes m level j i Hm Hj)
      as (node' & Hnode' & Hplaced).
    assert (node' = node) by congruence. subst node'.
    eexists. split; [exact Hplaced |].
    split; [reflexivity |]. split; [exact Hscore |].
    eexists. eexists. split; [reflexivity |]. split; [reflexivity |].
    split; [reflexivity |]. split.
    + apply step_inside; [exact Hw |]. apply lookup_lt_Some in Hj. exact Hj.
    + set (quarter := height / 4).
      destruct m as [| [| [| m]]]; [left | right; left | right; right | lia].
      * change (inject_Z (Z.of_nat (0 + 1))) with 1. lra.
      * change (inject_Z (Z.of_nat (1 + 1))) with 2. lra.
      * change (inject_Z (Z.of_nat (2 + 1))) with 3. lra.
  - exists node. split; [| repeat split; assumption].
    apply node_without_score; assumption.
Qed.

Lemma tiered_layout_places_every_node_witness :
  let a := mkNode "A" JsValue.Undefined JsValue.Undefined JsValue.Undefined
             JsValue.Undefined (Some 0.7) None None in
  let b := mkNode "B" JsValue.Undefined JsValue.Undefined JsValue.Undefined
             JsValue.Undefined None None (Some 10) in
  exists placed,
    applyHierarchicalLayout 800 600 [a; b] !! 1%nat = Some placed
    /\ placed = b.
Proof.
  intros a b.
  assert (Hw : 0 < 800) by reflexivity.
  destruct (tiered_layout_places_every_node 800 600 [a; b] Hw) as [_ H].
  destruct (H 1%nat b eq_refl) as (placed & Hplaced & _ & _ & Hsame).
  exists placed. split; [exact Hplaced | exact Hsame].
Defined.

(** X12: restarting releases the pins.  [restartSimulation] after the tiered
    layout, or after a node was dragged and dropped, leaves the nodes as
    [restartSimulation] alone does: without any pinned position. *)
Theorem restart_releases_pins (width height eventX eventY : Q)
  (nodes : list Node) (i : nat) :
  restartSimulation (applyHierarchicalLayout width height nodes)
  = restartSimulation nodes
  /\ restartSimulation (alter (dragended eventX eventY) i nodes)
     = restartSimulation nodes
  /\ Forall (fun node => fx node = None /\ fy node = None)
       (restartSimulation nodes).
Proof.
  assert (Hunpin : forall x y node, unpin (setPosition x y node) = unpin node)
    by reflexivity.
  unfold restartSimulation. split; [| split].
  - apply list_eq. intros k. rewrite !list_lookup_fmap.
    destruct (nodes !! k) as [node |] eqn:Hk.
    + destruct (avg_risk_score node) as [score |] eqn:Hscore.
      * assert (Hband := node_in_a_band nodes k node score Hk Hscore).
        destruct Hband as (m & level & j & Hm & Hj & _).
        destruct (layout_position width height nodes m level j k Hm Hj)
          as (node' & Hnode' & ->).
        assert (node' = node) by congruence. subst node'. reflexivity.
      * rewrite (node_without_score width height nodes k node Hk Hscore).
        reflexivity.
    + apply lookup_ge_None in Hk.
      rewrite (proj2 (lookup_ge_None _ k)); [reflexivity |].
      unfold applyHierarchicalLayout. rewrite placeLevels_length. exact Hk.
  - apply list_eq. intros k. rewrite !list_lookup_fmap.
    destruct (decide (i = k)) as [-> | Hne].
    + rewrite list_lookup_alter_eq. destruct (nodes !! k); reflexivity.
    + rewrite list_lookup_alter_ne by exact Hne. reflexivity.
  - apply Forall_fmap. apply Forall_forall. intros node _. split; reflexivity.
Qed.

End GraphView.

(** ** The world map of the network-analysis view *)

Section WorldMap.
Import Effects NetworkAnalysis.

(** What one node costs and yields: no location, at most one request and no
    random number; or the answer to the one request, moved by two random
    numbers. *)
Lemma locateNode_outcome (env : Env) (nodeBankCodes : gmap string string)
  (node : Node) (io : Io) :
  let r := locateNode env nodeBankCodes node io in
  match fst r with
  | None =>
      draws (snd r) = draws io
      /\ (requests (snd r) = requests io
          \/ exists code, requests (snd r) = (requests io ++ [code])%list)
  | Some location =>
      draws (snd r) = S (S (draws io))
      /\ exists code base,
           requests (snd r) = (requests io ++ [code])%list
           /\ Geocoding.readResponse (respond env (length (requests io)) code)
              = Some base
           /\ name location = name base
           /\ lat location = lat base + (random env (draws io) - 0.5) * 0.1
           /\ lng location = lng base + (random env (S (draws io)) - 0.5) * 0.1
  end.
Proof.
  cbv zeta.
  destruct (locateNode env nodeBankCodes node io) as [found io1] eqn:E.
  cbn [fst snd]. unfold locateNode in E.
  set (bankCode := or _ _) in E. unfold bind at 1 in E.
  destruct (isBankCode bankCode) eqn:Hcode.
  - destruct (invalidCode bankCode) eqn:Hinv.
    + unfold fetchCountryCoordinates in E. rewrite Hinv in E.
      injection E as <- <-. auto.
    + rewrite (NetworkAnalysis_fetch_valid env bankCode io Hinv) in E.
      destruct (Geocoding.readResponse _) as [base |] eqn:Hresp.
      * unfold bind, mathRandom, ret in E. cbn [fst snd draws requests] in E.
        injection E as <- <-. cbn [draws requests].
        split; [reflexivity |].
        exists (JsValue.toString bankCode), base.
        cbn [name lat lng]. repeat split; assumption.
      * injection E as <- <-. cbn [draws requests].
        split; [reflexivity |]. right. eauto.
  - injection E as <- <-. auto.
Qed.

Lemma locateNodes_effects (env : Env) (codes : gmap string string)
  (nodes : list Node) (io : Io) :
  let r := locateNodes env codes nodes io in
  length (fst r) = length nodes
  /\ draws (snd r) = (draws io + 2 * validLocations (fst r))%nat
  /\ (exists added,
        requests (snd r) = (requests io ++ added)%list
        /\ (validLocations (fst r) <= length added <= length nodes)%nat).
Proof.
  cbv zeta.
  revert io. induction nodes as [| node rest IH]; intros io.
  - cbn. split; [reflexivity |]. split; [lia |]. exists [].
    rewrite app_nil_r. cbn. split; [reflexivity | lia].
  - destruct (locateNodes env codes (node :: rest) io) as [all io3] eqn:E.
    cbn [locateNodes] in E. unfold bind in E.
    pose proof (locateNode_outcome env codes node io) as Hone.
    cbv zeta in Hone.
    destruct (locateNode env codes node io) as [location io1].
    cbn [fst snd] in Hone.
    specialize (IH io1).
    destruct (locateNodes env codes rest io1) as [locations io2].
    cbn [fst snd] in IH. destruct IH as (Hlen & Hdraws & added & Hreq & Hadded).
    unfold ret in E. injection E as <- <-. cbn [fst snd length].
    unfold validLocations in *. cbn [List.filter].
    destruct location as [location |].
    + destruct Hone as (Hd & code & base & Hr & _).
      cbn [length]. split; [lia |]. split; [lia |].
      exists (code :: added). rewrite Hreq, Hr, <- app_assoc. cbn [app length].
      split; [reflexivity | lia].
    + destruct Hone as (Hd & [Hr | [code Hr]]).
      * split; [lia |]. split; [lia |]. exists added.
        rewrite Hreq, Hr. split; [reflexivity | lia].
      * split; [lia |]. split; [lia |]. exists (code :: added).
        rewrite Hreq, Hr, <- app_assoc. cbn [app length].
        split; [reflexivity | lia].
Qed.

(** The entry of a node is what its round yields after the rounds of the
    nodes before it. *)
Lemma locateNodes_lookup (env : Env) (codes : gmap string string)
  (nodes : list Node) :
  forall (io : Io) (i : nat) (node : Node),
    nodes !! i = Some node ->
    fst (locateNodes env codes nodes io) !! i
    = Some (fst (locateNode env codes node
                   (snd (locateNodes env codes (take i nodes) io)))).
Proof.
  induction nodes as [| first rest IH]; intros io i node Hi; [discriminate |].
  cbn [locateNodes]. unfold bind.
  destruct i as [| i].
  - injection Hi as ->. cbn [take locateNodes ret snd].
    destruct (locateNode env codes node io) as [location io1].
    destruct (locateNodes env codes rest io1) as [locations io2].
    reflexivity.
  - cbn in Hi. cbn [take locateNodes]. unfold bind.
    destruct (locateNode env codes first io) as [location io1].
    specialize (IH io1 i node Hi).
    destruct (locateNodes env codes rest io1) as [locations io2].
    destruct (locateNodes env codes (take i rest) io1) as [before io3].
    cbn [ret fst snd] in *. exact IH.
Qed.

(** X13: one entry for each node.  [generateAccountLocations] returns as many
    entries as there are nodes, in their order; it issues at most one request
    for each node, after the requests made before, and draws two random
    numbers for each node it locates; the codes it requests are those of
    the nodes that have a valid one, in order.  The entry of a node is
    [null] exactly
    when its bank code is no string of two characters, or does not pass the
    guard of the resolver, or when its lookup, issued after the requests of
    the nodes before it, fails. *)
Theorem locations_aligned_with_nodes (env : Env) (links : list Link)
  (nodes : list Node) (io : Io) :
  let r := generateAccountLocations env links nodes io in
  length (fst r) = length nodes
  /\ draws (snd r) = (draws io + 2 * validLocations (fst r))%nat
  /\ (exists added,
        requests (snd r) = (requests io ++ added)%list
        /\ (validLocations (fst r) <= length added <= length nodes)%nat)
  /\ requests (snd r) = (requests io ++ requestedCodes links nodes)%list
  /\ (forall i node,
        nodes !! i = Some node ->
        let bankCode := nodeBankCode (collectBankCodes links) node in
        let before :=
          snd (generateAccountLocations env links (take i nodes) io) in
        exists entry,
          fst r !! i = Some entry
          /\ (entry = None <->
              isBankCode bankCode = false
              \/ invalidCode bankCode = true
              \/ Geocoding.failed
                   (respond env (length (requests before))
                      (JsValue.toString bankCode)) = true)).
Proof.
  intros r.
  destruct (locateNodes_effects env (collectBankCodes links) nodes io)
    as (H1 & H2 & H3).
  split; [exact H1 |]. split; [exact H2 |]. split; [exact H3 |].
  split; [apply generateAccountLocations_requests |].
  intros i node Hi bankCode before.
  unfold r, before, generateAccountLocations.
  rewrite (locateNodes_lookup env _ nodes io i node Hi).
  eexists. split; [reflexivity |].
  pose proof (locateNode_exact env (collectBankCodes links) node
                (snd (locateNodes env (collectBankCodes links) (take i nodes) io)))
    as Hexact.
  cbv zeta in Hexact. fold bankCode in Hexact. rewrite Hexact.
  unfold Geocoding.failed.
  destruct (isBankCode bankCode); cbn [andb fst]; [| tauto].
  destruct (invalidCode bankCode); cbn [negb fst]; [tauto |].
  destruct (Geocoding.readResponse _) as [base |]; cbn [fst].
  - split; [discriminate |]. intros [H | [H | H]]; discriminate H.
  - tauto.
Qed.

(** X14: the offset of a node on the map is bounded.  Every location
    [generateAccountLocations] returns answers one of its requests: it
    carries the name the service gave and lies within 0.05 degrees of the
    coordinates the service gave, in latitude and in longitude. *)
Theorem location_offset_bounded (env : Env) (links : list Link)
  (nodes : list Node) (io : Io) (i : nat) (location : Coord) :
  (forall n, 0 <= random env n < 1) ->
  fst (generateAccountLocations env links nodes io) !! i = Some (Some location) ->
  exists n code base,
    (length (requests io) <= n)%nat
    /\ requests (snd (generateAccountLocations env links nodes io)) !! n
       = Some code
    /\ Geocoding.readResponse (respond env n code) = Some base
    /\ name location = name base
    /\ lat base - 0.05 <= lat location < lat base + 0.05
    /\ lng base - 0.05 <= lng location < lng base + 0.05.
Proof.
  intros Hrandom. unfold generateAccountLocations.
  generalize (collectBankCodes links). intros codes.
  revert io i. induction nodes as [| node rest IH]; intros io i Hi;
    [discriminate |].
  destruct (locateNodes env codes (node :: rest) io) as [all io3] eqn:E.
  cbn [locateNodes] in E. unfold bind in E.
  pose proof (locateNode_outcome env codes node io) as Hone.
  cbv zeta in Hone.
  destruct (locateNode env codes node io) as [first io1].
  cbn [fst snd] in Hone.
  pose proof (locateNodes_effects env codes rest io1) as Hrest.
  cbv zeta in Hrest.
  specialize (IH io1).
  destruct (locateNodes env codes rest io1) as [locations io2].
  unfold ret in E. injection E as <- <-. cbn [fst snd] in *.
  destruct Hrest as (_ & _ & added & Hreq2 & _).
  destruct i as [| i].
  - injection Hi as ->.
    destruct Hone as (_ & code & base & Hr & Hresp & Hname & Hlat & Hlng).
    exists (length (requests io)), code, base.
    pose proof (Hrandom (draws io)) as [H1 H1'].
    pose proof (Hrandom (S (draws io))) as [H2 H2'].
    split; [lia |]. split.
    + rewrite Hreq2, Hr, <- app_assoc. apply list_lookup_middle. reflexivity.
    + rewrite Hlat, Hlng. repeat split; try lra; assumption.
  - destruct (IH i Hi) as (n & code & base & Hn & Hlook & Hrest').
    exists n, code, base. split; [| split; [exact Hlook | exact Hrest']].
    assert (length (requests io) <= length (requests io1))%nat; [| lia].
    destruct first.
    + destruct Hone as (_ & c1 & b1 & -> & _). rewrite length_app. lia.
    + destruct Hone as (_ & [-> | [c1 ->]]); [lia | rewrite length_app; lia].
Qed.

Lemma location_offset_bounded_witness :
  let node := mkNode "A" JsValue.Undefined JsValue.Undefined
                (JsValue.Str "US") JsValue.Undefined (Some 0.8) None None in
  exists n code base,
    (length (requests start) <= n)%nat
    /\ requests (snd (generateAccountLocations sampleEnv [] [node] start)) !! n
       = Some code
    /\ Geocoding.readResponse (respond sampleEnv n code) = Some base
    /\ name (mkCoord (38 + (random sampleEnv 0 - 0.5) * 0.1)
                     (-97 + (random sampleEnv 1 - 0.5) * 0.1)
                     (Some "United States")) = name base
    /\ lat base - 0.05 <= 38 + (random sampleEnv 0 - 0.5) * 0.1 < lat base + 0.05
    /\ lng base - 0.05 <= -97 + (random sampleEnv 1 - 0.5) * 0.1 < lng base + 0.05.
Proof.
  intros node.
  apply (location_offset_bounded sampleEnv [] [node] start 0
           (mkCoord (38 + (random sampleEnv 0 - 0.5) * 0.1)
                    (-97 + (random sampleEnv 1 - 0.5) * 0.1)
                    (Some "United States"))
           sampleEnv_random).
  reflexivity.
Defined.

(** X15: on the world map the tiers agree.  The colour of a marker, the colour
    of a flow and the band of the tiered layout split the scores alike:
    high above 0.7, medium above 0.4 and up to 0.7, low up to 0.4. *)
Theorem world_map_tiers_agree (r : Q) :
  (0.7 < r /\ markerColor r = "#dc3545"
   /\ NetworkAnalysis_tiers.riskColor r = "#dc3545"
   /\ NetworkAnalysis_tiers.layoutTier r = Some High)
  \/ (0.4 < r <= 0.7 /\ markerColor r = "#ffc107"
      /\ NetworkAnalysis_tiers.riskColor r = "#ffc107"
      /\ NetworkAnalysis_tiers.layoutTier r = Some Medium)
  \/ (r <= 0.4 /\ markerColor r = "#28a745"
      /\ NetworkAnalysis_tiers.riskColor r = "#28a745"
      /\ NetworkAnalysis_tiers.layoutTier r = Some Low).
Proof.
  unfold markerColor, NetworkAnalysis_tiers.riskColor,
    NetworkAnalysis_tiers.layoutTier, NetworkAnalysis_tiers.inHighRisk,
    NetworkAnalysis_tiers.inMediumRisk, NetworkAnalysis_tiers.inLowRisk.
  destruct (Js.gt r 0.7) eqn:H7.
  - left. apply gt_spec in H7. repeat split; auto.
  - apply gt_false in H7. destruct (Js.gt r 0.4) eqn:H4.
    + right. left. apply gt_spec in H4.
      rewrite (proj2 (le_spec r 0.7) H7). repeat split; auto.
    + right. right. apply gt_false in H4.
      rewrite (proj2 (le_spec r 0.4) H4). repeat split; auto.
Qed.

(** *** Markers *)



(** *** Flows and their animations *)

Lemma flowRounds_effects (env : Env) (locationMap : gmap string Coord)
  (links : list Link) :
  forall (this : MapState) (io : Io),
    let this' := fst (flowRounds env locationMap links this io) in
    currentView this' = currentView this
    /\ worldMap this' = worldMap this
    /\ activeAnimations this ⊆ activeAnimations this'
    /\ exists lines loops,
         mapLines this' = (mapLines this ++ lines)%list
         /\ started this' = (started this ++ loops)%list
         /\ length lines = length loops
         /\ (length loops <= length links)%nat
         /\ Forall (fun loop =>
                      length (Dots.path loop) = 2%nat
                      /\ Dots.offsets loop = Dots.initialOffsets
                      /\ Dots.flowId loop ∈ activeAnimations this'
                      /\ exists link, link ∈ links
                                      /\ Dots.flowId loop = flowKey link)
              loops.
Proof.
  induction links as [| link rest IH]; intros this io; cbv zeta.
  - cbn. split; [reflexivity |]. split; [reflexivity |]. split; [set_solver |].
    exists [], []. rewrite !app_nil_r. repeat split; auto.
  - destruct (flowRounds env locationMap (link :: rest) this io)
      as [final io3] eqn:E.
    cbn [flowRounds] in E. unfold bind in E.
    destruct (flowRound env locationMap link io) as [round io1] eqn:Hround.
    cbn [fst].
    assert (Hwiden : forall loops : list Dots.DotLoop,
              Forall (fun loop =>
                        length (Dots.path loop) = 2%nat
                        /\ Dots.offsets loop = Dots.initialOffsets
                        /\ Dots.flowId loop ∈ activeAnimations final
                        /\ exists l, l ∈ rest /\ Dots.flowId loop = flowKey l)
                loops ->
              Forall (fun loop =>
                        length (Dots.path loop) = 2%nat
                        /\ Dots.offsets loop = Dots.initialOffsets
                        /\ Dots.flowId loop ∈ activeAnimations final
                        /\ exists l, l ∈ link :: rest
                                     /\ Dots.flowId loop = flowKey l)
                loops).
    { apply List.Forall_impl. intros loop (H1 & H2 & H3 & l & Hl & Hk).
      repeat split; auto. exists l. split; [right; exact Hl | exact Hk]. }
    destruct round as [| line loop |].
    + specialize (IH this io1). cbv zeta in IH. rewrite E in IH. cbn [fst] in IH.
      destruct IH as (Hv & Hw & Hact & lines & loops & Hl & Hs & Hlen & Hle & Hall).
      split; [exact Hv |]. split; [exact Hw |]. split; [exact Hact |].
      exists lines, loops. repeat split; auto. cbn [length]. lia.
    + unfold mathRandom in E. cbv beta iota in E.
      match type of E with
      | flowRounds _ _ _ ?t ?i = _ => specialize (IH t i)
      end.
      cbv zeta in IH. rewrite E in IH. cbn [fst] in IH.
      cbn [currentView worldMap activeAnimations mapLines started] in IH.
      destruct IH as (Hv & Hw & Hact & lines & loops & Hl & Hs & Hlen & Hle & Hall).
      split; [exact Hv |]. split; [exact Hw |]. split; [set_solver |].
      exists (line :: lines), (loop :: loops).
      rewrite Hl, Hs, <- !app_assoc. cbn [app length].
      split; [reflexivity |]. split; [reflexivity |].
      split; [lia |]. split; [lia |].
      constructor; [| apply Hwiden, Hall].
      unfold flowRound, bind, ret in Hround.
      destruct (bankLocation env (from_bank link) io) as [src io2].
      destruct (bankLocation env (to_bank link) io2) as [tgt io4].
      injection Hround as Hdraw _.
      pose proof (drawFlow_key _ _ _ _ _ Hdraw) as Hkey.
      unfold drawFlow in Hdraw.
      destruct (endpoint src locationMap (source link)) as [s | |],
               (endpoint tgt locationMap (target link)) as [t | |];
        try discriminate Hdraw.
      injection Hdraw as _ <-. cbn [Dots.path Dots.offsets Dots.flowId].
      split; [reflexivity |]. split; [reflexivity |]. split.
      * apply Hact. set_solver.
      * exists link. split; [left | reflexivity].
    + injection E as <- _.
      split; [reflexivity |]. split; [reflexivity |]. split; [set_solver |].
      exists [], []. rewrite !app_nil_r. cbn [length].
      repeat split; auto. lia.
Qed.

(** X17: a line, a loop, a key.  Whatever the service answers,
    [addTransactionFlows] leaves the view and the map as they are, adds as
    many lines as animation loops, at most one for each link, and every loop
    it starts runs along a path of two points with five dots at 0, 1/5, ...,
    4/5 of it and is registered under the key of one of the links. *)
Theorem flows_come_with_loops (env : Env) (nodes : list Node)
  (links : list Link) (this : MapState) (io : Io) :
  let this' := fst (addTransactionFlows env nodes links this io) in
  currentView this' = currentView this
  /\ worldMap this' = worldMap this
  /\ exists lines loops,
       mapLines this' = (mapLines this ++ lines)%list
       /\ started this' = (started this ++ loops)%list
       /\ length lines = length loops
       /\ (length loops <= length links)%nat
       /\ Forall (fun loop =>
                    length (Dots.path loop) = 2%nat
                    /\ Dots.offsets loop = Dots.initialOffsets
                    /\ Dots.flowId loop ∈ activeAnimations this'
                    /\ exists link, link ∈ links
                                    /\ Dots.flowId loop = flowKey link)
            loops.
Proof.
  cbv zeta. unfold addTransactionFlows. destruct links as [| link rest].
  - cbn. split; [reflexivity |]. split; [reflexivity |].
    exists [], []. rewrite !app_nil_r. repeat split; auto.
  - unfold bind.
    destruct (generateAccountLocations env (link :: rest) nodes io)
      as [locations io1].
    pose proof (flowRounds_effects env (buildLocationMap nodes locations)
                  (link :: rest) this io1) as H.
    cbv zeta in H. destruct H as (Hv & Hw & _ & H).
    split; [exact Hv |]. split; [exact Hw | exact H].
Qed.

(** X18: leaving the map stops the animations.  Once the view is the graph,
    or the map is gone, a frame ends every animation loop: none asks for
    another frame. *)
Theorem leaving_the_map_stops_loops (this : MapState)
  (pending : list Dots.DotLoop) :
  frame (toggleView D3 this) pending = []
  /\ (worldMap this = false -> frame this pending = []).
Proof.
  split.
  - induction pending as [| loop rest IH]; [reflexivity |].
    cbn [frame]. rewrite animateDots_stops by (left; reflexivity). exact IH.
  - intros Hmap. induction pending as [| loop rest IH]; [reflexivity |].
    cbn [frame]. rewrite animateDots_stops by (right; left; exact Hmap).
    exact IH.
Qed.

Lemma leaving_the_map_stops_loops_witness :
  frame (mkMapState MapView false [] {[ "flow_A_B" ]} [])
    [Dots.mkLoop "flow_A_B" [(0, 0); (10, 20)] Dots.initialOffsets] = [].
Proof.
  apply (leaving_the_map_stops_loops
           (mkMapState MapView false [] {[ "flow_A_B" ]} [])).
  reflexivity.
Defined.

(** X19: a reload ends the loops whose key is gone.  After
    [clearMapMarkers] and [addTransactionFlows] on new links, a loop whose
    key is the key of none of the new links stops at its next frame, so a
    frame keeps only loops whose key is the key of one of the new links.
    This is said of keys, not of flows: the key [flow_<source>_<target>]
    does not tell the source and the target apart, and two different flows
    can share it. *)
Theorem reload_keeps_only_current_flows (env : Env) (nodes : list Node)
  (links : list Link) (this : MapState) (io : Io)
  (pending : list Dots.DotLoop) :
  let this' :=
    fst (addTransactionFlows env nodes links (clearMapMarkers this) io) in
  Forall (fun loop => exists link, link ∈ links
                                   /\ Dots.flowId loop = flowKey link)
    (frame this' pending)
  /\ (forall loop,
        (forall link, link ∈ links -> Dots.flowId loop <> flowKey link) ->
        animateDots this' loop = (loop, false))
  /\ (exists old new : Link,
        (source old, target old) <> (source new, target new)
        /\ flowKey old = flowKey new).
Proof.
  intros this'.
  assert (Hgone : forall loop,
            (forall link, link ∈ links -> Dots.flowId loop <> flowKey link) ->
            animateDots this' loop = (loop, false)).
  { intros loop Hnone. apply reload_stops_removed_flow. exact Hnone. }
  split; [| split; [exact Hgone |]].
  - induction pending as [| loop rest IH]; [constructor |].
    cbn [frame].
    destruct (animateDots this' loop) as [loop' again] eqn:E.
    destruct again; [| exact IH].
    constructor; [| exact IH].
    assert (Hid : Dots.flowId loop' = Dots.flowId loop).
    { unfold animateDots in E. destruct (currentView this'); [congruence |].
      destruct (worldMap this' && _); [| discriminate].
      injection E as <-. reflexivity. }
    rewrite Hid.
    destruct (decide (Exists (fun link => Dots.flowId loop = flowKey link) links))
      as [Hex | Hnone].
    + rewrite Exists_exists in Hex. destruct Hex as (link & Hin & Hk). eauto.
    + exfalso.
      assert (Hstop : animateDots this' loop = (loop, false)).
      { apply Hgone. intros link Hin Hk.
        apply Hnone. rewrite Exists_exists. eauto. }
      congruence.
  - exists (mkLink "a_b" "c" 0 0 JsValue.Undefined JsValue.Undefined),
           (mkLink "a" "b_c" 0 0 JsValue.Undefined JsValue.Undefined).
    split; [discriminate | reflexivity].
Qed.

End WorldMap.

(** ** The dashboard map *)

Section DashboardMap.
Import MapFilters.

Lemma riskFilter_one_level (risk : Q) :
  (riskFilter "high" risk = true /\ riskFilter "medium" risk = false
   /\ riskFilter "low" risk = false)
  \/ (riskFilter "high" risk = false /\ riskFilter "medium" risk = true
      /\ riskFilter "low" risk = false)
  \/ (riskFilter "high" risk = false /\ riskFilter "medium" risk = false
      /\ riskFilter "low" risk = true).
Proof.
  unfold riskFilter. cbn [String.eqb Ascii.eqb Bool.eqb].
  destruct (Js.ge risk 0.7) eqn:H7; destruct (Js.ge risk 0.4) eqn:H4;
    destruct (Js.lt risk 0.7) eqn:L7; destruct (Js.lt risk 0.4) eqn:L4;
    cbn; auto;
    repeat match goal with
      | H : Js.ge _ _ = true |- _ => apply ge_spec in H
      | H : Js.ge _ _ = false |- _ => apply ge_false in H
      | H : Js.lt _ _ = true |- _ => apply lt_spec in H
      | H : Js.lt _ _ = false |- _ =>
          apply not_true_iff_false in H; rewrite lt_spec in H
      end; exfalso; lra.
Qed.

(** X20: the three risk levels split the nodes.  With no minimum amount,
    every node passes exactly one of the filters high, medium and low, so
    the three filtered lists together have as many nodes as the data. *)
Theorem risk_levels_split_nodes (allNodes : list Node) :
  (length (filterNodes (mkFilters 0 "high") allNodes)
   + length (filterNodes (mkFilters 0 "medium") allNodes)
   + length (filterNodes (mkFilters 0 "low") allNodes))%nat
  = length allNodes
  /\ filterNodes (mkFilters 0 "all") allNodes = allNodes.
Proof.
  split; [| reflexivity].
  unfold filterNodes. cbn [minAmount riskLevel].
  change (Js.gt 0 0) with false. cbn [String.eqb Ascii.eqb Bool.eqb negb].
  induction allNodes as [| node rest IH]; [reflexivity |].
  cbn [List.filter length].
  destruct (riskFilter_one_level (risk node))
    as [(-> & -> & ->) | [(-> & -> & ->) | (-> & -> & ->)]];
    cbn [length]; lia.
Qed.

Lemma filter_filter {A : Type} (f : A -> bool) (l : list A) :
  List.filter f (List.filter f l) = List.filter f l.
Proof.
  induction l as [| x l IH]; [reflexivity |].
  cbn. destruct (f x) eqn:E; [| exact IH]. cbn. rewrite E, IH. reflexivity.
Qed.

Lemma filter_comm {A : Type} (f g : A -> bool) (l : list A) :
  List.filter f (List.filter g l) = List.filter g (List.filter f l).
Proof.
  induction l as [| x l IH]; [reflexivity |].
  cbn. destruct (f x) eqn:Ef, (g x) eqn:Eg; cbn; rewrite ?Ef, ?Eg, IH;
    reflexivity.
Qed.

Lemma filter_both_twice {A : Type} (f g : A -> bool) (l : list A) :
  List.filter g (List.filter f (List.filter g (List.filter f l)))
  = List.filter g (List.filter f l).
Proof.
  rewrite (filter_comm f g (List.filter f l)).
  rewrite (filter_filter f l). apply filter_filter.
Qed.

Lemma filterNodes_twice (filters : Filters) (allNodes : list Node) :
  filterNodes filters (filterNodes filters allNodes)
  = filterNodes filters allNodes.
Proof.
  unfold filterNodes.
  destruct (Js.gt (minAmount filters) 0),
           (negb (String.eqb (riskLevel filters) "all"));
    try reflexivity; try apply filter_filter.
  apply filter_both_twice.
Qed.

Lemma filterFlows_twice (filters : Filters) (allFlows : list Dashboard.Flow) :
  filterFlows filters (filterFlows filters allFlows)
  = filterFlows filters allFlows.
Proof.
  unfold filterFlows.
  destruct (Js.gt (minAmount filters) 0),
           (negb (String.eqb (riskLevel filters) "all"));
    try reflexivity; try apply filter_filter.
  apply filter_both_twice.
Qed.

(** X21: filtering the map data.  [applyClientSideFilters] returns data
    without nodes or without flows as they are.  Otherwise it keeps exactly
    the nodes whose volume in millions reaches the minimum amount (when one
    is given) and whose risk is of the chosen level (when one is chosen),
    and the flows alike by their amount; the totals it returns are those of
    what it kept; and filtering the result again changes nothing. *)
Theorem client_filters_keep_what_passes (data : Data) (filters : Filters) :
  let result := applyClientSideFilters data filters in
  applyClientSideFilters result filters = result
  /\ (nodes data = None \/ flows data = None -> result = data)
  /\ (forall allNodes allFlows,
        nodes data = Some allNodes -> flows data = Some allFlows ->
        exists kept keptFlows,
          nodes result = Some kept /\ flows result = Some keptFlows
          /\ total_volume result = Some (totalVolume kept)
          /\ total_flows result = Some (Z.of_nat (length keptFlows))
          /\ (forall node, node ∈ kept <->
                node ∈ allNodes
                /\ (0 < minAmount filters ->
                    minAmount filters / 1000000 <= volume node)
                /\ (riskLevel filters <> "all" ->
                    riskFilter (riskLevel filters) (risk node) = true))
          /\ (forall flow, flow ∈ keptFlows <->
                flow ∈ allFlows
                /\ (0 < minAmount filters ->
                    minAmount filters <= Dashboard.amount flow)
                /\ (riskLevel filters <> "all" ->
                    riskFilter (riskLevel filters) (Dashboard.flow_risk flow)
                    = true))).
Proof.
  cbv zeta. split; [| split].
  - unfold applyClientSideFilters.
    destruct (nodes data) as [allNodes |] eqn:Hn;
      [| rewrite Hn; reflexivity].
    destruct (flows data) as [allFlows |] eqn:Hf;
      [| rewrite Hn, Hf; reflexivity].
    cbn [nodes flows]. rewrite filterNodes_twice, filterFlows_twice. reflexivity.
  - unfold applyClientSideFilters. intros [-> | H]; [reflexivity |].
    rewrite H. destruct (nodes data); reflexivity.
  - intros allNodes allFlows Hn Hf. unfold applyClientSideFilters.
    rewrite Hn, Hf. cbn [nodes flows total_volume total_flows].
    exists (filterNodes filters allNodes), (filterFlows filters allFlows).
    repeat (split; [reflexivity |]).
    assert (Hall : String.eqb (riskLevel filters) "all" = true
                   <-> riskLevel filters = "all") by apply String.eqb_eq.
    split.
    + intros node. unfold filterNodes.
      destruct (Js.gt (minAmount filters) 0) eqn:Hmin;
        destruct (String.eqb (riskLevel filters) "all") eqn:Hlevel;
        cbn [negb];
        rewrite ?list_elem_of_In, ?List.filter_In, ?ge_spec;
        try apply gt_spec in Hmin; try apply gt_false in Hmin;
        try (apply Hall in Hlevel);
        try (apply not_true_iff_false in Hlevel; rewrite Hall in Hlevel);
        rewrite <- ?list_elem_of_In; intuition (try congruence; try lra).
    + intros flow. unfold filterFlows.
      destruct (Js.gt (minAmount filters) 0) eqn:Hmin;
        destruct (String.eqb (riskLevel filters) "all") eqn:Hlevel;
        cbn [negb];
        rewrite ?list_elem_of_In, ?List.filter_In, ?ge_spec;
        try apply gt_spec in Hmin; try apply gt_false in Hmin;
        try (apply Hall in Hlevel);
        try (apply not_true_iff_false in Hlevel; rewrite Hall in Hlevel);
        rewrite <- ?list_elem_of_In; intuition (try congruence; try lra).
Qed.

Lemma drawFlows_connected (amlNodes : list Dashboard.Node)
  (amlFlows : list Dashboard.Flow) :
  forall pending,
    List.map Dots.flowId (Dashboard.drawFlows amlNodes amlFlows pending)
    = (List.map Dots.flowId pending
       ++ List.map edgeKey
            (List.filter (connected amlNodes) amlFlows))%list.
Proof.
  induction amlFlows as [| flow rest IH]; intros pending.
  - cbn. rewrite app_nil_r. reflexivity.
  - cbn [Dashboard.drawFlows List.filter]. unfold connected at 1.
    destruct (Dashboard.findNode amlNodes (Dashboard.source flow)) as [src |];
      [| apply IH].
    destruct (Dashboard.findNode amlNodes (Dashboard.target flow)) as [tgt |];
      [| apply IH].
    assert (Hnew : Dashboard.running (Dashboard.loopOf src tgt flow)).
    { split; [reflexivity | apply initialOffsets_range]. }
    destruct (Dashboard_animateDots_running _ Hnew) as (loop & -> & _ & Hid).
    rewrite IH, List.map_app, <- app_assoc. cbn [List.map app].
    rewrite Hid. reflexivity.
Qed.

(** X22: only connected flows are animated.  [updateEnhancedMap] starts one
    animation loop for each flow both ends of which are among the nodes of
    the data, in the order of the flows, and none for a flow with an end
    that is not among them (as when a filter took the node away); it never
    throws on such a flow, and it leaves the loops that were running. *)
Theorem dashboard_animates_connected_flows (data : Dashboard.Data)
  (this : Dashboard.State) :
  Dashboard.map this = true ->
  List.map Dots.flowId (Dashboard.pending (Dashboard.updateEnhancedMap data this))
  = (List.map Dots.flowId (Dashboard.pending this)
     ++ List.map edgeKey
          (List.filter (connected (Dashboard.nodes data)) (Dashboard.flows data)))%list.
Proof.
  intros Hmap. unfold Dashboard.updateEnhancedMap. rewrite Hmap.
  cbn [Dashboard.pending]. apply drawFlows_connected.
Qed.

Lemma dashboard_animates_connected_flows_witness :
  let data :=
    shown (applyClientSideFilters
             (mkData (Some [mkNode "A" 10 20 300 0.8; mkNode "B" 30 40 200 0.2])
                     (Some [Dashboard.mkFlow "A" "B" 1000000 0.8;
                            Dashboard.mkFlow "A" "A" 2000000 0.9])
                     None None)
             (mkFilters 0 "high")) in
  List.map Dots.flowId
    (Dashboard.pending
       (Dashboard.updateEnhancedMap data (Dashboard.mkState true [])))
  = ["A|A"].
Proof.
  intros data.
  apply (dashboard_animates_connected_flows data (Dashboard.mkState true [])).
  reflexivity.
Defined.

(** *** The path of the dots *)

Lemma Qfloor_between (x : Q) (z : Z) :
  inject_Z z <= x -> x < inject_Z (z + 1) -> Qfloor x = z.
Proof.
  intros Hlo Hhi.
  pose proof (Qfloor_le x) as H1. pose proof (Qlt_floor x) as H2.
  assert (Ha : (Qfloor x < z + 1)%Z).
  { rewrite Zlt_Qlt. apply Qle_lt_trans with x; assumption. }
  assert (Hb : (z < Qfloor x + 1)%Z).
  { rewrite Zlt_Qlt. apply Qle_lt_trans with x; assumption. }
  lia.
Qed.

(** X23: the dots of the dashboard go through the raised midpoint.  On the
    path of three points of a flow the dot at offset [t] between 0 and 1 is
    on the first leg, at fraction [2t] of it, before the middle, on the
    second leg, at fraction [2t - 1], from the middle on, and at the target
    when [t] is 1. *)
Theorem dashboard_path_has_two_legs (p0 p1 p2 : Q * Q) (t : Q) :
  0 <= t <= 1 ->
  exists p,
    Dashboard.interpolatePath [p0; p1; p2] t = Some p
    /\ (t < 0.5 ->
        fst p == fst p0 + (fst p1 - fst p0) * (2 * t)
        /\ snd p == snd p0 + (snd p1 - snd p0) * (2 * t))
    /\ (0.5 <= t ->
        fst p == fst p1 + (fst p2 - fst p1) * (2 * t - 1)
        /\ snd p == snd p1 + (snd p2 - snd p1) * (2 * t - 1))
    /\ (Leaflet.onSegment p0 p1 p \/ Leaflet.onSegment p1 p2 p).
Proof.
  intros [H0 H1]. unfold Dashboard.interpolatePath.
  change (Z.of_nat (length [p0; p1; p2]) - 1)%Z with 2%Z.
  change (inject_Z 2) with 2.
  destruct (Qlt_le_dec t 0.5) as [Hfirst | Hsecond].
  - assert (Hidx : Qfloor (t * 2) = 0%Z).
    { apply Qfloor_between; [change (inject_Z 0) with 0 | change (inject_Z (0 + 1)) with 1]; lra. }
    rewrite Hidx. cbn -[Qmult Qplus Qminus Qdiv]. eexists. split; [reflexivity |].
    cbn [fst snd]. change (inject_Z 0) with 0.
    split; [intros _; split; ring |]. split; [intros; lra |].
    left. exists (2 * t). cbn [fst snd]. split; [split; lra |]. split; ring.
  - destruct (Qlt_le_dec t 1) as [Hlt | Hge].
    + assert (Hidx : Qfloor (t * 2) = 1%Z).
      { apply Qfloor_between; [change (inject_Z 1) with 1 | change (inject_Z (1 + 1)) with 2]; lra. }
      rewrite Hidx. cbn -[Qmult Qplus Qminus Qdiv]. eexists. split; [reflexivity |].
      cbn [fst snd]. change (inject_Z 1) with 1.
      split; [intros; lra |]. split; [intros _; split; ring |].
      right. exists (2 * t - 1). cbn [fst snd]. split; [split; lra |]. split; ring.
    + assert (Hidx : Qfloor (t * 2) = 2%Z).
      { apply Qfloor_between; [change (inject_Z 2) with 2 | change (inject_Z (2 + 1)) with 3]; lra. }
      rewrite Hidx. cbn -[Qmult Qplus Qminus Qdiv]. eexists. split; [reflexivity |].
      cbn [fst snd]. change (inject_Z 2) with 2.
      assert (Ht : t == 1) by lra.
      split; [intros; lra |]. split; [intros _; rewrite Ht; split; ring |].
      right. exists 1. cbn [fst snd]. split; [split; lra |]. rewrite Ht. split; ring.
Qed.

Lemma dashboard_path_has_two_legs_witness :
  exists p,
    Dashboard.interpolatePath [(10, 20); (25, 30); (30, 40)] 0.25 = Some p
    /\ fst p == 10 + (25 - 10) * (2 * 0.25).
Proof.
  assert (Ht : 0 <= 0.25 <= 1) by (split; unfold Qle; cbn; lia).
  destruct (dashboard_path_has_two_legs (10, 20) (25, 30) (30, 40) 0.25 Ht)
    as (p & Hp & Hfirst & _).
  exists p. split; [exact Hp |]. apply Hfirst. reflexivity.
Defined.

End DashboardMap.
